(** * go-ReOrderFuncs: alphabetical reordering of Go test functions

    A shallow embedding of [reorderfuncs.go] (package [reorderfuncs]) and
    the properties of its line classification, boundary resolution,
    extraction and assembly stages.

    Conventions of the embedding:
    - a Go [string] is a [string] (a sequence of bytes);
    - a Go [int] is a [Z]; subtraction that can leave the 64-bit range is
      written with [wrap];
    - [lines[i]] panics when [i] is out of range: indexing is [index],
      which returns [None] there, and every function that indexes lives
      in the option monad ([None] is the run-time panic);
    - a [map[string][2]int] is a list of (key, value) pairs with distinct
      keys, in the order in which one run's [range] visits it (Go leaves
      that order unspecified, so results are stated for every order);
    - a [map[int]bool] that is only ever set to [true] is a [gset Z]. *)

From Stdlib Require Import ZArith Lia Ascii String.
From stdpp Require Import base option list list_numbers strings gmap sorting.

Local Open Scope Z_scope.

#[local] Set Warnings "-clear-no-such-hyp".

(** ** The Go standard library functions the program calls *)

Module Strings.

Definition bytes (s : string) : list ascii := list_ascii_of_string s.
Definition ofBytes (l : list ascii) : string := string_of_list_ascii l.

(** [unicode.IsSpace] on the UTF-8 encoding: the six ASCII white-space
    bytes, then U+0085, U+00A0, U+1680, U+2000..U+200A, U+2028, U+2029,
    U+202F, U+205F and U+3000. *)
Definition utf8 (codes : list N) : list ascii := ascii_of_N <$> codes.

Definition spaceRunes : list (list ascii) :=
  utf8 <$> [ [9]; [10]; [11]; [12]; [13]; [32];
             [194; 133]; [194; 160]; [225; 154; 128];
             [226; 128; 128]; [226; 128; 129]; [226; 128; 130];
             [226; 128; 131]; [226; 128; 132]; [226; 128; 133];
             [226; 128; 134]; [226; 128; 135]; [226; 128; 136];
             [226; 128; 137]; [226; 128; 138];
             [226; 128; 168]; [226; 128; 169]; [226; 128; 175];
             [226; 129; 159]; [227; 128; 128] ]%N.

(** The input without the white-space rune at its head, if there is one. *)
Definition stripLeading (l : list ascii) : option (list ascii) :=
  match filter (λ r, r `prefix_of` l) spaceRunes with
  | r :: _ => Some (drop (length r) l)
  | [] => None
  end.

(** The input without the white-space rune at its end, if there is one. *)
Definition stripTrailing (l : list ascii) : option (list ascii) :=
  match filter (λ r, r `suffix_of` l) spaceRunes with
  | r :: _ => Some (take (length l - length r) l)
  | [] => None
  end.

Fixpoint trimWith (strip : list ascii → option (list ascii))
    (n : nat) (l : list ascii) : list ascii :=
  match n with
  | O => l
  | S n' => match strip l with
            | Some l' => trimWith strip n' l'
            | None => l
            end
  end.

Definition TrimLeftSpace (l : list ascii) : list ascii :=
  trimWith stripLeading (length l) l.
Definition TrimRightSpace (l : list ascii) : list ascii :=
  trimWith stripTrailing (length l) l.

(** [strings.TrimSpace]: all leading and trailing white space removed. *)
Definition TrimSpace (s : string) : string :=
  ofBytes (TrimRightSpace (TrimLeftSpace (bytes s))).

(** [strings.HasPrefix(s, prefix)]. *)
Definition HasPrefix (s pre : string) : bool := String.prefix pre s.

(** [strings.HasSuffix(s, suffix)]. *)
Definition HasSuffix (s suf : string) : bool :=
  bool_decide (bytes suf `suffix_of` bytes s).

(** [strings.Contains(s, substr)]. *)
Fixpoint Contains (s sub : string) : bool :=
  String.prefix sub s ||
  match s with
  | EmptyString => false
  | String _ s' => Contains s' sub
  end.

(** [strings.Split(s, sep)] for a one-byte separator: the pieces between
    the separators, one more piece than there are separators. *)
Fixpoint Split (s : string) (sep : ascii) : list string :=
  match s with
  | EmptyString => [EmptyString]
  | String c s' =>
      if decide (c = sep) then EmptyString :: Split s' sep
      else match Split s' sep with
           | piece :: pieces => String c piece :: pieces
           | [] => [String c EmptyString]
           end
  end.

(** [strings.Join(elems, sep)]. *)
Fixpoint Join (elems : list string) (sep : string) : string :=
  match elems with
  | [] => EmptyString
  | [e] => e
  | e :: rest => e +:+ sep +:+ Join rest sep
  end.

End Strings.

Import Strings.

Definition newline : ascii := "010"%char.
Definition nl : string := String newline EmptyString.

(** Go's [int] is 64 bits wide. *)
Definition wrap (z : Z) : Z := (z + 2 ^ 63) `mod` 2 ^ 64 - 2 ^ 63.

Definition len {A} (l : list A) : Z := Z.of_nat (length l).

(** [lines[i]]: [None] is the index-out-of-range panic. *)
Definition index {A} (l : list A) (i : Z) : option A :=
  if decide (0 ≤ i) then l !! Z.to_nat i else None.


(** ** Data model of [reorderfuncs.go] *)

(** [importBlockStart] represents the start of a multi-line import block. *)
Definition importBlockStart : string := "import (".

(** The one-character string holding a double quote (byte 34). *)
Definition dquote : string := String "034"%char EmptyString.

(** [TestFunction] represents a test function with its content. *)
Record TestFunction := { Name : string; Lines : list string }.

(** [funcPos] represents the position of a function in the source code
    (0-based lines). *)
Record funcPos := { name : string; startLine : Z; endLine : Z }.

(** [map[string][2]int]: name to (start line, end line), both 1-based. *)
Definition PosMap : Type := list (string * (Z * Z)).

(** [m[k]]; a missing key reads as the zero value. *)
Fixpoint mapGet (m : PosMap) (k : string) : Z * Z :=
  match m with
  | [] => (0, 0)
  | (k', v) :: m' => if decide (k' = k) then v else mapGet m' k
  end.

(** [m[k] = v]. *)
Fixpoint mapSet (m : PosMap) (k : string) (v : Z * Z) : PosMap :=
  match m with
  | [] => [(k, v)]
  | (k', v') :: m' =>
      if decide (k' = k) then (k, v) :: m' else (k', v') :: mapSet m' k v
  end.

(** What the program reads of [go/ast]: the top-level declarations of the
    parsed file, a function declaration with its name and the lines
    ([fset.Position(..).Line]) of its first and last position. *)
Inductive Decl :=
  | FuncDecl (fname : string) (posLine endPosLine : Z)
  | GenDecl.

(** ** Line classifier *)

(** [isCommentOrEmpty] checks if a line is a comment or empty. *)
Definition isCommentOrEmpty (line : string) : bool :=
  bool_decide (line = "") || HasPrefix line "//" || HasPrefix line "/*".

(** [isBoilerplateCode] checks if a line is boilerplate code that should be
    ignored. *)
Definition isBoilerplateCode (line : string) : bool :=
  if bool_decide (line = "") then true
  else if HasPrefix line "//" || HasPrefix line "/*" then true
  else if HasPrefix line "package " then true
  else if HasPrefix line "import " then true
  else if bool_decide (line = importBlockStart) then true
  else false.

(** The loop of [isEndOfImportBlock], with [n = innerIdx + 1]. *)
Fixpoint isEndOfImportBlock_loop (lines : list string) (n : nat) : option bool :=
  match n with
  | O => Some false
  | S innerIdx =>
      l ← lines !! innerIdx;
      let prevLine := TrimSpace l in
      if bool_decide (prevLine = "") || HasPrefix prevLine "//"
      then isEndOfImportBlock_loop lines innerIdx
      else if Contains prevLine dquote
      then isEndOfImportBlock_loop lines innerIdx
      else if bool_decide (prevLine = importBlockStart) then Some true
      else if HasPrefix prevLine "package " then Some false
      else Some false
  end.

(** [isEndOfImportBlock] checks if a closing parenthesis is the end of an
    import block. *)
Definition isEndOfImportBlock (lines : list string) (idx : Z) : option bool :=
  isEndOfImportBlock_loop lines (Z.to_nat (wrap (idx - 1) + 1)).

(** The loop of [isInImportBlock], with [n = innerIdx + 1]. *)
Fixpoint isInImportBlock_loop (lines : list string) (n : nat) : option bool :=
  match n with
  | O => Some false
  | S innerIdx =>
      l ← lines !! innerIdx;
      let prevLine := TrimSpace l in
      if bool_decide (prevLine = "") || HasPrefix prevLine "//"
      then isInImportBlock_loop lines innerIdx
      else if Contains prevLine dquote
      then isInImportBlock_loop lines innerIdx
      else if bool_decide (prevLine = importBlockStart) then Some true
      else if HasPrefix prevLine "package " then Some false
      else Some false
  end.

(** [isInImportBlock] checks if a line with quotes is inside an import
    block. *)
Definition isInImportBlock (lines : list string) (idx : Z) : option bool :=
  isInImportBlock_loop lines (Z.to_nat (wrap (idx - 1) + 1)).

(** [handleSpecialCases] handles special cases for import blocks and quoted
    content. *)
Definition handleSpecialCases (lines : list string) (idx : Z) (line : string)
    : option bool :=
  if bool_decide (line = ")") then
    b ← isEndOfImportBlock lines idx;
    if b : bool then Some false else Some true
  else if Contains line dquote then
    b ← isInImportBlock lines idx;
    if b : bool then Some false else Some true
  else Some true.

(** [hasActualCodeAt] checks if there is actual (non-boilerplate) code at
    the given line index. *)
Definition hasActualCodeAt (lines : list string) (idx : Z) : option bool :=
  l ← index lines idx;
  let line := TrimSpace l in
  if isBoilerplateCode line then Some false
  else handleSpecialCases lines idx line.

(** ** Boundary resolver *)

(** The loop of [findCommentStart] for a positive [commentStart]. *)
Fixpoint findCommentStart_loop (lines : list string) (commentStart : nat)
    : option nat :=
  match commentStart with
  | O => Some O
  | S prev =>
      l ← lines !! prev;
      let prevLine := TrimSpace l in
      if HasPrefix prevLine "//" || HasPrefix prevLine "/*"
         || bool_decide (prevLine = "")
      then findCommentStart_loop lines prev
      else Some commentStart
  end.

(** [findCommentStart] finds the start of comments preceding a function. *)
Definition findCommentStart (lines : list string) (functionStartLine : Z)
    : option Z :=
  if decide (functionStartLine > 0)
  then Z.of_nat <$> findCommentStart_loop lines (Z.to_nat functionStartLine)
  else Some functionStartLine.

(** The loop of [findCommentEnd]: [following] is [lines[commentEnd+1:]],
    which is empty exactly when [commentEnd >= len(lines)-1]. *)
Fixpoint findCommentEnd_loop (following : list string) (commentEnd : Z) : Z :=
  match following with
  | [] => commentEnd
  | l :: rest =>
      let nextLine := TrimSpace l in
      if bool_decide (nextLine = "")
      then findCommentEnd_loop rest (commentEnd + 1)
      else commentEnd
  end.

(** [findCommentEnd] finds the end of content following a function
    (including trailing empty lines). *)
Definition findCommentEnd (lines : list string) (functionEndLine : Z)
    : option Z :=
  if decide (functionEndLine < len lines - 1) then
    if decide (0 ≤ functionEndLine + 1)
    then Some (findCommentEnd_loop
                 (drop (Z.to_nat (functionEndLine + 1)) lines) functionEndLine)
    else None
  else Some functionEndLine.

(** First loop of [isCommentBeforeTestFunction]: only empty lines at the
    indices [idxs]. *)
Fixpoint onlyEmptyAt (lines : list string) (idxs : list Z) : option bool :=
  match idxs with
  | [] => Some true
  | i :: rest =>
      l ← index lines i;
      if bool_decide (TrimSpace l ≠ "") then Some false
      else onlyEmptyAt lines rest
  end.

(** Second loop of [isCommentBeforeTestFunction], with [n = idx + 1]:
    actual code at some index below [n]. *)
Fixpoint actualCodeBelow (lines : list string) (n : nat) : option bool :=
  match n with
  | O => Some false
  | S idx =>
      b ← hasActualCodeAt lines (Z.of_nat idx);
      if b : bool then Some true else actualCodeBelow lines idx
  end.

(** [isCommentBeforeTestFunction] checks if a line is a comment preceding a
    test function; [testFuncStartLine] is 1-based. *)
Definition isCommentBeforeTestFunction (lineIndex : Z) (lines : list string)
    (testFuncStartLine : Z) : option bool :=
  if decide (testFuncStartLine ≤ 0) then Some false else
  let testStartIdx := testFuncStartLine - 1 in
  if decide (lineIndex >= testStartIdx) then Some false else
  l ← index lines lineIndex;
  let trimmed := TrimSpace l in
  if negb (isCommentOrEmpty trimmed) then Some false else
  if bool_decide (trimmed = "") then Some false else
  if decide (lineIndex + 1 = testStartIdx) then Some true else
  blank ← onlyEmptyAt lines
            (seqZ (lineIndex + 1) (testStartIdx - (lineIndex + 1)));
  if negb (blank : bool) then Some false else
  code ← actualCodeBelow lines (Z.to_nat lineIndex);
  if code : bool then Some false else Some true.

(** ** Extractor *)

(** [buildTestFunctionPositions] creates a map of test function positions
    from the declarations of the parsed file. *)
Definition buildTestFunctionPositions (decls : list Decl) : PosMap :=
  foldl (λ testFuncPos decl,
           match decl with
           | FuncDecl fname start end_ =>
               if HasPrefix fname "Test"
               then mapSet testFuncPos fname (start, end_)
               else testFuncPos
           | GenDecl => testFuncPos
           end) [] decls.

(** The inner loop of the sort in [createSortedFuncPositions] for one [i]:
    [cur] is [sortedFuncs[i]] and [rest] is [sortedFuncs[i+1:]]; the result
    is both after the pass. *)
Fixpoint sortPass (cur : funcPos) (rest : list funcPos)
    : funcPos * list funcPos :=
  match rest with
  | [] => (cur, [])
  | other :: rest' =>
      if decide (startLine cur > startLine other)
      then let '(cur', done) := sortPass other rest' in (cur', cur :: done)
      else let '(cur', done) := sortPass cur rest' in (cur', other :: done)
  end.

(** The outer loop of that sort; [n] counts the positions still to fill. *)
Fixpoint sortByLine (n : nat) (sortedFuncs : list funcPos) : list funcPos :=
  match n, sortedFuncs with
  | S n', cur :: rest =>
      let '(cur', rest') := sortPass cur rest in cur' :: sortByLine n' rest'
  | _, _ => sortedFuncs
  end.

(** [createSortedFuncPositions] creates a sorted list of test function
    positions. *)
Definition createSortedFuncPositions (testFuncPos : PosMap) : list funcPos :=
  let sortedFuncs :=
    (λ e : string * (Z * Z),
       {| name := e.1;
          startLine := wrap (e.2.1 - 1);
          endLine := wrap (e.2.2 - 1) |}) <$> testFuncPos in
  sortByLine (length sortedFuncs) sortedFuncs.

(** The body of the loop of [markProcessedLines] for one function. *)
Definition markFunc (lines : list string) (processedLines : gset Z)
    (funcInfo : funcPos) : option (gset Z) :=
  let startLine := startLine funcInfo in
  let endLine := endLine funcInfo in
  if decide (startLine >= 0 ∧ startLine < len lines
             ∧ endLine >= 0 ∧ endLine < len lines) then
    commentStart ← findCommentStart lines startLine;
    commentEnd ← findCommentEnd lines endLine;
    Some (foldl (λ processed i, {[ i ]} ∪ processed) processedLines
            (seqZ commentStart
               (Z.min (commentEnd + 1) (len lines) - commentStart)))
  else Some processedLines.

Fixpoint markProcessedLines_loop (lines : list string)
    (processedLines : gset Z) (sortedFuncs : list funcPos)
    : option (gset Z) :=
  match sortedFuncs with
  | [] => Some processedLines
  | funcInfo :: rest =>
      processedLines' ← markFunc lines processedLines funcInfo;
      markProcessedLines_loop lines processedLines' rest
  end.

(** [markProcessedLines] marks all lines that are part of test functions
    and their comments. *)
Definition markProcessedLines (lines : list string)
    (sortedFuncs : list funcPos) : option (gset Z) :=
  markProcessedLines_loop lines ∅ sortedFuncs.

(** [extractTestFunctionWithComments] extracts a test function including
    its preceding comments. *)
Definition extractTestFunctionWithComments (lines : list string)
    (funcName : string) (testFuncPos : PosMap) : option (TestFunction * Z) :=
  let pos := mapGet testFuncPos funcName in
  let startLine := wrap (pos.1 - 1) in
  let endLine := wrap (pos.2 - 1) in
  commentStart ← findCommentStart lines startLine;
  funcLines ← mapM (index lines)
                (seqZ commentStart (endLine - commentStart + 1));
  Some ({| Name := funcName; Lines := funcLines |}, endLine).

(** [extractAllTestFunctions] extracts all test functions using the sorted
    positions. *)
Fixpoint extractAllTestFunctions (lines : list string)
    (sortedFuncs : list funcPos) (testFuncPos : PosMap)
    : option (list TestFunction) :=
  match sortedFuncs with
  | [] => Some []
  | funcInfo :: rest =>
      let startLine := startLine funcInfo in
      if decide (startLine >= 0 ∧ startLine < len lines) then
        extracted ← extractTestFunctionWithComments lines (name funcInfo)
                      testFuncPos;
        testFuncs ← extractAllTestFunctions lines rest testFuncPos;
        Some (extracted.1 :: testFuncs)
      else extractAllTestFunctions lines rest testFuncPos
  end.

(** The loop of [collectNonTestLines]; [i] is the index of the head of
    [lines]. *)
Fixpoint collectNonTestLines_loop (i : Z) (lines : list string)
    (processedLines : gset Z) : list string :=
  match lines with
  | [] => []
  | line :: rest =>
      if decide (i ∈ processedLines)
      then collectNonTestLines_loop (i + 1) rest processedLines
      else line :: collectNonTestLines_loop (i + 1) rest processedLines
  end.

(** [collectNonTestLines] collects all lines that have not been processed
    as test functions. *)
Definition collectNonTestLines (lines : list string)
    (processedLines : gset Z) : list string :=
  let nonTestLines := collectNonTestLines_loop 0 lines processedLines in
  if decide (len nonTestLines > 0)
  then nonTestLines ++ [EmptyString]
  else nonTestLines.

(** [separateTestAndNonTestContent] processes lines to separate test
    functions from other content. *)
Definition separateTestAndNonTestContent (lines : list string)
    (testFuncPos : PosMap) : option (list TestFunction * list string) :=
  let sortedFuncs := createSortedFuncPositions testFuncPos in
  processedLines ← markProcessedLines lines sortedFuncs;
  testFuncs ← extractAllTestFunctions lines sortedFuncs testFuncPos;
  let nonTestLines := collectNonTestLines lines processedLines in
  Some (testFuncs, nonTestLines).

(** [ExtractTestFunctions] extracts test functions from source lines using
    AST information. *)
Definition ExtractTestFunctions (lines : list string) (decls : list Decl)
    : option (list TestFunction * list string) :=
  let testFuncPos := buildTestFunctionPositions decls in
  separateTestAndNonTestContent lines testFuncPos.

(** ** Reorderer and assembler *)

(** [sort.Slice(data, less)]: the slice reordered so that no element is
    [less] than one before it.  The library leaves the order of elements
    that compare equal open; [sortSlice] is the insertion sort it runs on
    short slices. *)
Fixpoint insertSorted {A} (less : A → A → bool) (x : A) (sorted : list A)
    : list A :=
  match sorted with
  | [] => [x]
  | y :: rest =>
      if less x y then x :: y :: rest else y :: insertSorted less x rest
  end.

Definition sortSlice {A} (less : A → A → bool) (data : list A) : list A :=
  foldl (λ sorted x, insertSorted less x sorted) [] data.

(** [for len(l) > 0 && strings.TrimSpace(l[len(l)-1]) == "" { l = l[:len(l)-1] }] *)
Fixpoint dropTrailingEmpty (l : list string) : list string :=
  match l with
  | [] => []
  | x :: rest =>
      match dropTrailingEmpty rest with
      | [] => if bool_decide (TrimSpace x = "") then [] else [x]
      | rest' => x :: rest'
      end
  end.

(** [for len(l) > 0 && strings.TrimSpace(l[0]) == "" { l = l[1:] }] *)
Fixpoint dropLeadingEmpty (l : list string) : list string :=
  match l with
  | [] => []
  | x :: rest =>
      if bool_decide (TrimSpace x = "") then dropLeadingEmpty rest else l
  end.

(** The loop of [BuildOutputContent] over the sorted test functions; [i]
    is the index of the head of [testFuncs]. *)
Fixpoint appendTestFuncs (i : nat) (testFuncs : list TestFunction)
    (outputLines : list string) : list string :=
  match testFuncs with
  | [] => outputLines
  | testFunc :: rest =>
      let outputLines :=
        if decide (0 < i)%nat then outputLines ++ [EmptyString]
        else outputLines in
      let funcLines := dropLeadingEmpty (Lines testFunc) in
      appendTestFuncs (S i) rest (outputLines ++ funcLines)
  end.

(** The non-test part of the output: [nonTestLines], with its trailing empty
    lines replaced by one separator when test functions follow. *)
Definition headerLines (testFuncs : list TestFunction)
    (nonTestLines : list string) : list string :=
  let outputLines := nonTestLines in
  if decide (len testFuncs > 0 ∧ len nonTestLines > 0)
  then dropTrailingEmpty outputLines ++ [EmptyString]
  else outputLines.

(** [if !strings.HasSuffix(output, "\n") { output += "\n" }] *)
Definition withFinalNewline (output : string) : string :=
  if HasSuffix output nl then output else output +:+ nl.

(** The [less] function [BuildOutputContent] sorts with:
    [testFuncs[i].Name < testFuncs[j].Name], the byte-wise order of Go. *)
Definition lessByName (a b : TestFunction) : bool :=
  String.ltb (Name a) (Name b).

(** [BuildOutputContent] constructs the final output content from test
    functions and non-test lines. *)
Definition BuildOutputContent (testFuncs : list TestFunction)
    (nonTestLines : list string) : string :=
  let testFuncs := sortSlice lessByName testFuncs in
  let outputLines :=
    appendTestFuncs 0 testFuncs (headerLines testFuncs nonTestLines) in
  withFinalNewline (Join outputLines nl).

(** The transformation [Exec] applies to the content of a file whose
    declarations are [decls]. *)
Definition reorder (content : string) (decls : list Decl) : option string :=
  let lines := Split content newline in
  extracted ← ExtractTestFunctions lines decls;
  Some (BuildOutputContent extracted.1 extracted.2).

(** ** [Exec] and its collaborators *)

(** A Go [error]: one raised by a collaborator, or [fmt.Errorf] wrapping
    one with [%w] behind a context message. *)
Inductive error :=
  | Cause (msg : string)
  | Wrapped (context : string) (err : error).

(** [errors.Unwrap]. *)
Definition Unwrap (e : error) : option error :=
  match e with
  | Cause _ => None
  | Wrapped _ err => Some err
  end.

(** How a call of [Exec] ends: it returns its [error] result ([None] is
    [nil]) or it panics. *)
Inductive outcome :=
  | Returned (err : option error)
  | Panicked.

Section Exec.

(** The file system, and the collaborators acting on it: [os.ReadFile],
    [parser.ParseFile] called with a nil source (it reads the file at the
    path itself), and [os.WriteFile]. *)
Variable World : Type.
Variable ReadFile : World → string → string + error.
Variable ParseFile : World → string → list Decl + error.
Variable WriteFile : World → string → string → World * option error.

(** [ParseGoFile] reads and parses a Go source file, returning lines and
    declarations. *)
Definition ParseGoFile (w : World) (filePath : string)
    : (list string * list Decl) + error :=
  match ReadFile w filePath with
  | inr err => inr (Wrapped "failed to read input file: " err)
  | inl content =>
      match ParseFile w filePath with
      | inr err => inr (Wrapped "failed to parse Go file: " err)
      | inl file =>
          let lines := Split content newline in
          inl (lines, file)
      end
  end.

(** [Exec] reorders test functions in a Go source file alphabetically. *)
Definition Exec (w : World) (pathInput pathOutput : string)
    : World * outcome :=
  match ParseGoFile w pathInput with
  | inr err => (w, Returned (Some err))
  | inl (lines, file) =>
      match ExtractTestFunctions lines file with
      | None => (w, Panicked)
      | Some (testFuncs, nonTestLines) =>
          let output := BuildOutputContent testFuncs nonTestLines in
          match WriteFile w pathOutput output with
          | (w', Some err) =>
              (w', Returned (Some (Wrapped "failed to write output file: " err)))
          | (w', None) => (w', Returned None)
          end
      end
  end.

End Exec.

(** An in-memory file system for running [Exec]: files by path, a parser
    that accepts exactly the files registered with their declarations. *)
Record MemWorld := {
  files : gmap string string;
  parsed : gmap string (list Decl);
  readOnly : gset string
}.

Definition memReadFile (w : MemWorld) (path : string) : string + error :=
  match files w !! path with
  | Some content => inl content
  | None => inr (Cause "no such file or directory")
  end.

Definition memParseFile (w : MemWorld) (path : string) : list Decl + error :=
  match files w !! path, parsed w !! path with
  | Some _, Some decls => inl decls
  | Some _, None => inr (Cause "syntax error")
  | None, _ => inr (Cause "no such file or directory")
  end.

Definition memWriteFile (w : MemWorld) (path content : string)
    : MemWorld * option error :=
  if decide (path ∈ readOnly w) then (w, Some (Cause "permission denied"))
  else ({| files := <[path := content]> (files w);
           parsed := parsed w; readOnly := readOnly w |}, None).

(** ** Line membership helpers *)

(** [findTestFunctionAtLine] checks if a specific line starts a test
    function; [lineNumber] is 1-based.  The map is visited in the order
    of [testFuncPos]. *)
Fixpoint findTestFunctionAtLine (lineNumber : Z) (testFuncPos : PosMap)
    : string :=
  match testFuncPos with
  | [] => ""
  | (name, pos) :: rest =>
      if decide (lineNumber = pos.1) then name
      else findTestFunctionAtLine lineNumber rest
  end.

(** [isLastContentBeforeTest] checks if a comment is the last content
    before a test function. *)
Definition isLastContentBeforeTest (commentIndex : Z) (lines : list string)
    (startIdx : Z) : option bool :=
  let first := wrap (commentIndex + 1) in
  onlyEmptyAt lines (seqZ first (startIdx - first)).

(** The loop of [hasCommentBeforeTest] over the indices [idxs] that are
    left to visit. *)
Fixpoint hasCommentBeforeTest_loop (lines : list string) (startIdx : Z)
    (idxs : list Z) : option bool :=
  match idxs with
  | [] => Some false
  | forwardIndex :: rest =>
      l ← index lines forwardIndex;
      let nextLine := TrimSpace l in
      if bool_decide (nextLine = "")
      then hasCommentBeforeTest_loop lines startIdx rest
      else if negb (HasPrefix nextLine "//") && negb (HasPrefix nextLine "/*")
      then Some false
      else
        b ← isLastContentBeforeTest forwardIndex lines startIdx;
        if b : bool then Some true else Some false
  end.

(** [hasCommentBeforeTest] checks if there is a comment between an empty
    line and a test function. *)
Definition hasCommentBeforeTest (lineIndex : Z) (lines : list string)
    (startIdx : Z) : option bool :=
  let first := wrap (lineIndex + 1) in
  hasCommentBeforeTest_loop lines startIdx (seqZ first (startIdx - first)).

(** [isEmptyLinePrecedingComment] checks if an empty line precedes a
    comment before a test function. *)
Definition isEmptyLinePrecedingComment (lineIndex : Z) (lines : list string)
    (startIdx : Z) : option bool :=
  if decide (lineIndex >= startIdx) then Some false else
  l ← index lines lineIndex;
  let line := TrimSpace l in
  if bool_decide (line ≠ "") then Some false else
  hasCommentBeforeTest lineIndex lines startIdx.

(** [isLinePartOfTestFunction] checks if a line is part of any test
    function.  The map is visited in the order of [testFuncPos]. *)
Fixpoint isLinePartOfTestFunction (lineIndex : Z) (lines : list string)
    (testFuncPos : PosMap) : option bool :=
  match testFuncPos with
  | [] => Some false
  | (_, pos) :: rest =>
      let startLine := pos.1 in
      let endLine := pos.2 in
      let startIdx := wrap (startLine - 1) in
      let endIdx := wrap (endLine - 1) in
      if decide (lineIndex >= startIdx ∧ lineIndex <= endIdx) then Some true
      else
        b ← isEmptyLinePrecedingComment lineIndex lines startIdx;
        if b : bool then Some true
        else isLinePartOfTestFunction lineIndex lines rest
  end.

(** ** The command [reorderfuncs] ([cmd/reorderfuncs/main.go]) *)

(** [err.Error()]: [fmt.Errorf] puts the text of the wrapped error where
    the format has [%w], which is at its end in every format of the
    program. *)
Fixpoint Error (e : error) : string :=
  match e with
  | Cause msg => msg
  | Wrapped context err => context +:+ Error err
  end.

Definition errUsage : error :=
  Cause "usage: reorderfuncs <input file> [<output file>]".

(** How the process ends: [main] returns (status 0), [exitOnErr] prints the
    error on the standard error stream and calls [os.Exit(1)], or the run
    panics. *)
Inductive exit :=
  | Exit0
  | Exit1 (stderr : string)
  | ExitPanic.

(** [exitOnErr(err)] for an error that is not nil: [fmt.Fprintln] of the
    error, then [osExit(1)]. *)
Definition exitOnErr (err : error) : exit := Exit1 (Error err +:+ nl).

(** [flag.Arg(i)]: the empty string when there is no such argument. *)
Definition Arg (args : list string) (i : nat) : string :=
  default "" (args !! i).

Section Main.

Variable World : Type.
Variable ReadFile : World → string → string + error.
Variable ParseFile : World → string → list Decl + error.
Variable WriteFile : World → string → string → World * option error.

(** [main]; [args] are the arguments [flag.Parse] leaves ([flag.Args()];
    the program defines no flag). *)
Definition main (w : World) (args : list string) : World * exit :=
  if decide (len args = 0 ∨ len args > 2) then
    (w, exitOnErr (Wrapped ("missing or too many arguments" +:+ nl +:+ nl)
                     errUsage))
  else
    let pathInput := Arg args 0 in
    let pathOutput := if decide (len args > 1) then Arg args 1
                      else pathInput in
    match Exec World ReadFile ParseFile WriteFile w pathInput pathOutput with
    | (w', Returned (Some err)) => (w', exitOnErr err)
    | (w', Returned None) => (w', Exit0)
    | (w', Panicked) => (w', ExitPanic)
    end.

End Main.

(** * Vocabulary of the properties *)

(** [notAfter less a b]: [b] may follow [a] in a slice ordered by [less]. *)
Definition notAfter {A} (less : A → A → bool) (a b : A) : Prop :=
  less b a = false.

(** The lines of the test functions as [BuildOutputContent] emits them: each
    without its leading empty lines, one empty line between two. *)
Fixpoint emittedBlocks (testFuncs : list TestFunction) : list string :=
  match testFuncs with
  | [] => []
  | testFunc :: rest =>
      dropLeadingEmpty (Lines testFunc) ++
      match rest with
      | [] => []
      | _ => EmptyString :: emittedBlocks rest
      end
  end.

(** The largest Go [int]; no slice is longer. *)
Definition maxInt : Z := 2 ^ 63 - 1.

(** A string made of white-space runes only (the empty string included). *)
Definition whitespaceOnly (s : string) : Prop :=
  ∃ runes, Forall (λ r, r ∈ spaceRunes) runes ∧ bytes s = concat runes.

(** A line that is empty once trimmed. *)
Definition isEmptyLine (l : string) : Prop := TrimSpace l = "".

(** A line [findCommentStart] walks over: a comment or an empty line. *)
Definition isLeadingLine (l : string) : Prop :=
  let t := TrimSpace l in
  HasPrefix t "//" || HasPrefix t "/*" || bool_decide (t = "") = true.

(** A line the backward scans of the import block step over: empty once
    trimmed, a line comment, or a line holding a double quote. *)
Definition scanSkips (l : string) : Prop :=
  let t := TrimSpace l in
  t = "" ∨ HasPrefix t "//" = true ∨ Contains t dquote = true.

(** The entry of the positions map as [createSortedFuncPositions] reads it. *)
Definition toFuncPos (e : string * (Z * Z)) : funcPos :=
  {| name := e.1; startLine := wrap (e.2.1 - 1); endLine := wrap (e.2.2 - 1) |}.

(** A declaration position within the file: 1-based lines with
    [1 <= start <= end <= len(lines)]. *)
Definition validPos (lines : list string) (e : string * (Z * Z)) : Prop :=
  1 ≤ e.2.1 ∧ e.2.1 ≤ e.2.2 ∧ e.2.2 ≤ len lines.

(** The bounds check of [markProcessedLines]. *)
Definition inBounds (lines : list string) (f : funcPos) : Prop :=
  startLine f >= 0 ∧ startLine f < len lines
  ∧ endLine f >= 0 ∧ endLine f < len lines.

(** [claims lines f i]: [markProcessedLines] marks line [i] on behalf of
    function [f], that is, [f] passes its bounds check and [i] lies between
    [findCommentStart] of its first and [findCommentEnd] of its last line. *)
Definition claims (lines : list string) (f : funcPos) (i : Z) : Prop :=
  inBounds lines f ∧
  ∃ commentStart commentEnd,
    findCommentStart lines (startLine f) = Some commentStart ∧
    findCommentEnd lines (endLine f) = Some commentEnd ∧
    commentStart ≤ i ≤ commentEnd ∧ i < len lines.

(** The lines whose index is not in [processed], in their original order. *)
Definition unclaimedLines (lines : list string) (processed : gset Z)
    : list string :=
  (filter (λ p, p.1 ∉ processed) (zip (seqZ 0 (len lines)) lines)).*2.

(** [lines[lo..hi]], both ends included. *)
Definition slice (lines : list string) (lo hi : Z) : list string :=
  take (Z.to_nat (hi - lo + 1)) (drop (Z.to_nat lo) lines).

(** ** The layout the program writes

    A header of non-test lines, then the test functions by ascending name,
    each preceded by one empty line and made of its comment lines and its
    declaration, then the end of the file. *)

Record block := {
  bname : string;
  bcomments : list string;
  bbody : list string
}.

Definition blockLines (b : block) : list string := bcomments b ++ bbody b.

(** The blocks one after the other, an empty line before each. *)
Fixpoint layoutBlocks (bs : list block) : list string :=
  match bs with
  | [] => []
  | b :: bs' => EmptyString :: blockLines b ++ layoutBlocks bs'
  end.

(** The lines of the file: it ends in a newline, so an empty piece closes
    the split. *)
Definition canonicalLines (header : list string) (bs : list block)
    : list string :=
  header ++ layoutBlocks bs ++ [EmptyString].

(** The 1-based first and last line of each declaration, the empty line
    before the first block being line [off + 1]. *)
Fixpoint layoutPos (off : Z) (bs : list block) : PosMap :=
  match bs with
  | [] => []
  | b :: bs' =>
      (bname b, (off + len (bcomments b) + 2, off + len (blockLines b) + 1))
      :: layoutPos (off + len (blockLines b) + 1) bs'
  end.

Definition canonicalPos (header : list string) (bs : list block) : PosMap :=
  layoutPos (len header) bs.

(** The block as the extractor returns it. *)
Definition blockFunc (b : block) : TestFunction :=
  {| Name := bname b; Lines := EmptyString :: blockLines b |}.

(** Comment lines above the declaration, a declaration that does not end
    in a comment or an empty line, and no empty first line. *)
Definition wellFormedBlock (b : block) : Prop :=
  Forall isLeadingLine (bcomments b) ∧
  bbody b ≠ [] ∧
  (∀ x, last (bbody b) = Some x → ¬ isLeadingLine x) ∧
  (∀ x, head (blockLines b) = Some x → ¬ isEmptyLine x).

(** A header that does not end in a comment or an empty line. *)
Definition wellFormedHeader (header : list string) : Prop :=
  header ≠ [] ∧ ∀ x, last header = Some x → ¬ isLeadingLine x.

(** The block [extractTestFunctionWithComments] returns for a function
    within bounds. *)
Definition blockAt (lines : list string) (f : funcPos) : TestFunction :=
  {| Name := name f;
     Lines := slice lines (default 0 (findCommentStart lines (startLine f)))
                (endLine f) |}.

(** Names in strictly ascending byte-wise order. *)
Definition ascendingNames (bs : list block) : Prop :=
  StronglySorted (λ a b, String.ltb (bname a) (bname b) = true) bs.

(** * Sample inputs *)

Definition tab : string := String "009"%char EmptyString.

(** An import line: [import "testing"]. *)
Definition importLine : string :=
  "import " +:+ dquote +:+ "testing" +:+ dquote.

(** A line of three spaces, a tab and two spaces. *)
Definition whitespaceLine : string := "   " +:+ tab +:+ "  ".

(** A comment behind two spaces. *)
Definition indentedComment : string := "  // doc".

(** A statement whose string literal holds a comment marker. *)
Definition literalLine : string :=
  "string := " +:+ dquote +:+ "// not a comment" +:+ dquote.

(** Two test functions in a row, one empty line between them. *)
Definition adjacentLines : list string :=
  ["func Test_a() {"; "}"; ""; "func Test_b() {"; "}"].
Definition adjacentPos : PosMap := [("Test_a", (1, 2)); ("Test_b", (4, 5))].
Definition adjacentA : funcPos :=
  {| name := "Test_a"; startLine := 0; endLine := 1 |}.
Definition adjacentB : funcPos :=
  {| name := "Test_b"; startLine := 3; endLine := 4 |}.

(** Two test functions declared on one line. *)
Definition sameLine : string := "func Test_a() {}; func Test_b() {}".
Definition sameLineLines : list string := ["package main"; sameLine].
Definition sameLinePos : PosMap := [("Test_a", (2, 2)); ("Test_b", (2, 2))].

(** An import block with a block comment inside, and the same block with a
    line comment instead. *)
Definition importWithBlockComment : list string :=
  [ "package main"; "import (";
    tab +:+ "/* std */";
    tab +:+ dquote +:+ "testing" +:+ dquote;
    ")" ].
Definition importWithLineComment : list string :=
  [ "package main"; "import (";
    tab +:+ "// std";
    tab +:+ dquote +:+ "testing" +:+ dquote;
    ")" ].

(** An in-memory file system without files. *)
Definition emptyWorld : MemWorld :=
  {| files := ∅; parsed := ∅; readOnly := ∅ |}.


(** The same comment, a function that is no test declared above it. *)
Definition commentAfterCodeLines : list string :=
  [ "package main"; importLine; "";
    "func helper() {"; "}"; "";
    "// doc"; "";
    "func Test_x(t *testing.T) {"; "}" ].
Definition commentAfterCodeDecls : list Decl :=
  [ FuncDecl "helper" 4 5; FuncDecl "Test_x" 9 10 ].

(** The same again, with another test function above the helper. *)
Definition commentTravelsLines : list string :=
  [ "package main"; importLine; "";
    "func Test_a(t *testing.T) {"; "}"; "";
    "func helper() {"; "}"; "";
    "// doc"; "";
    "func Test_z(t *testing.T) {"; "}" ].
Definition commentTravelsDecls : list Decl :=
  [ FuncDecl "Test_a" 4 5; FuncDecl "helper" 7 8; FuncDecl "Test_z" 12 13 ].

(** A file without test functions that ends in a newline. *)
Definition packageOnly : string := "package main" +:+ nl.

(** A sorted file with two test functions, as the program writes it, and
    the declarations of its two functions. *)
Definition sortedFile : string :=
  Join [ "package main"; ""; importLine; "";
         "func Test_alice(t *testing.T) {"; "}"; "";
         "// Test_bob checks bob."; "func Test_bob(t *testing.T) {"; "}"; "" ]
       nl.
Definition sortedFileDecls : list Decl :=
  [ FuncDecl "Test_alice" 5 6; FuncDecl "Test_bob" 9 10 ].
Definition sortedHeader : list string := ["package main"; ""; importLine].
Definition sortedBlocks : list block :=
  [ {| bname := "Test_alice"; bcomments := [];
       bbody := ["func Test_alice(t *testing.T) {"; "}"] |};
    {| bname := "Test_bob"; bcomments := ["// Test_bob checks bob."];
       bbody := ["func Test_bob(t *testing.T) {"; "}"] |} ].

(** The lines of [Test_separateTestAndNonTestContent_golden]. *)
Definition goldenLines : list string :=
  [ "package main"; ""; importLine; "";
    "// Comment for Test_alpha"; "func Test_alpha(t *testing.T) {";
    tab +:+ "// test body"; "}"; "";
    "func regularFunc() {"; tab +:+ "// regular function"; "}"; "";
    "func Test_beta(t *testing.T) {"; tab +:+ "// another test"; "}" ].
Definition goldenPos : PosMap :=
  [("Test_alpha", (6, 8)); ("Test_beta", (14, 16))].

(** The lines of [Test_isCommentBeforeTestFunction_golden]. *)
Definition goldenCommentLines : list string :=
  [ "package main"; ""; "import (";
    "    " +:+ dquote +:+ "testing" +:+ dquote;
    "    " +:+ dquote +:+ "fmt" +:+ dquote; ")"; "";
    "// Comment for test"; ""; "func Test_ex() {"; "}"; "";
    "regular line"; ""; "// Direct comment"; "func Test_direct() {"; "}"; "";
    "func otherFunc() {"; "}"; "// After other func"; "";
    "func Test_after() {"; "}" ].

(** * Vocabulary of the line membership helpers *)

(** A comment line: its trimmed content starts with a comment marker. *)
Definition isCommentLine (l : string) : Prop :=
  HasPrefix (TrimSpace l) "//" = true ∨ HasPrefix (TrimSpace l) "/*" = true.

(** Between the indices [lo] (excluded) and [s] (excluded) there is one
    comment line, and every other line there is empty. *)
Definition loneCommentBetween (lines : list string) (lo s : Z) : Prop :=
  ∃ c lc, lo < c < s ∧ index lines c = Some lc ∧ isCommentLine lc ∧
    ∀ j l, lo < j < s → j ≠ c → index lines j = Some l → isEmptyLine l.

(** Line [i] is an empty line above index [s], with one comment line and
    otherwise empty lines between the two. *)
Definition emptyBeforeLoneComment (lines : list string) (i s : Z) : Prop :=
  i < s ∧ (∃ l, index lines i = Some l ∧ isEmptyLine l) ∧
  loneCommentBetween lines i s.

(** The answer of [isLinePartOfTestFunction] about one entry of the map. *)
Definition partOf (lines : list string) (lineIndex : Z)
    (e : string * (Z * Z)) : Prop :=
  e.2.1 - 1 ≤ lineIndex ≤ e.2.2 - 1
  ∨ emptyBeforeLoneComment lines lineIndex (e.2.1 - 1).

(** * Vocabulary of the conservation of lines *)

(** The lines that are not empty once trimmed. *)
Definition nonBlank (ls : list string) : list string :=
  filter (λ l, TrimSpace l ≠ "") ls.

(** The lines of the file with their indices. *)
Definition indexed (lines : list string) : list (Z * string) :=
  zip (seqZ 0 (len lines)) lines.

(** The first index of the block extracted for a function. *)
Definition blockStart (lines : list string) (f : funcPos) : Z :=
  default 0 (findCommentStart lines (startLine f)).

(** What [Exec] does between parsing and writing, from the positions map
    on: extraction, then assembly. *)
Definition assemble (lines : list string) (testFuncPos : PosMap)
    : option string :=
  extracted ← separateTestAndNonTestContent lines testFuncPos;
  Some (BuildOutputContent extracted.1 extracted.2).

(** Declarations that share no line, each ending in a line that is
    neither a comment nor empty. *)
Definition separateDecls (lines : list string) (testFuncPos : PosMap)
    : Prop :=
  (∀ e e', e ∈ testFuncPos → e' ∈ testFuncPos → e ≠ e' →
           e.2.2 < e'.2.1 ∨ e'.2.2 < e.2.1) ∧
  (∀ e l, e ∈ testFuncPos → index lines (e.2.2 - 1) = Some l →
          ¬ isLeadingLine l).

(** * Sample runs *)

(** A file system holding the sorted file and its declarations. *)
Definition sortedWorld : MemWorld :=
  {| files := {[ "a_test.go" := sortedFile ]};
     parsed := {[ "a_test.go" := sortedFileDecls ]};
     readOnly := ∅ |}.

(** The text of the usage error as [main] prints it. *)
Definition usageText : string :=
  "missing or too many arguments" +:+ nl +:+ nl +:+
  "usage: reorderfuncs <input file> [<output file>]" +:+ nl.

(** The lines of [Test_isLinePartOfTestFunction_golden]. *)
Definition partLines : list string :=
  [ "package main"; ""; "// Comment for test"; "func Test_alpha() {";
    tab +:+ "// test body"; "}"; ""; "func regularFunc() {"; "}" ].


(** * Vocabulary of the emitted output *)

(** [piece] is [blockLines] without its leading empty lines. *)
Definition withoutLeadingEmpty (blockLines piece : list string) : Prop :=
  ∃ blanks, blockLines = blanks ++ piece ∧ Forall isEmptyLine blanks ∧
            ∀ x, head piece = Some x → ¬ isEmptyLine x.

(** [kept] is [l] without its trailing empty lines. *)
Definition withoutTrailingEmpty (l kept : list string) : Prop :=
  ∃ blanks, l = kept ++ blanks ∧ Forall isEmptyLine blanks ∧
            ∀ x, last kept = Some x → ¬ isEmptyLine x.

(** The pieces one after the other, one empty line between two. *)
Fixpoint separated (pieces : list (list string)) : list string :=
  match pieces with
  | [] => []
  | piece :: rest =>
      piece ++ match rest with
               | [] => []
               | _ => EmptyString :: separated rest
               end
  end.

(** Index [i] lies in the visible lines of the block of [f]: from the
    first line the extraction takes for it to the last line of the
    function. *)
Definition inBlock (lines : list string) (f : funcPos) (i : Z) : Prop :=
  blockStart lines f ≤ i ≤ endLine f.

(** The one-character string holding a back quote (byte 96), which opens
    a raw string literal. *)
Definition backquote : string := String "096"%char EmptyString.

(** A raw string literal of two lines, the second starting with a comment
    marker. *)
Definition rawStringLines : list string :=
  [ "const doc = " +:+ backquote +:+ "first line";
    "// second line" +:+ backquote ].
(** * Properties *)

(** ** Ordering of the emitted test functions *)

Section sortSlice.
Context {A : Type} (less : A → A → bool).
Hypothesis less_asym : ∀ x y, less x y = true → less y x = false.

Lemma insertSorted_Permutation x l : insertSorted less x l ≡ₚ x :: l.
Proof.
  induction l as [|y l IH]; simpl; [done|].
  destruct (less x y); [done|].
  rewrite IH. apply Permutation_swap.
Qed.

Lemma sortSlice_Permutation l : sortSlice less l ≡ₚ l.
Proof.
  unfold sortSlice.
  enough (∀ acc, foldl (λ sorted x, insertSorted less x sorted) acc l
                 ≡ₚ l ++ acc) as H.
  { rewrite H. by rewrite app_nil_r. }
  induction l as [|x l IH]; intros acc; simpl; [done|].
  rewrite IH, insertSorted_Permutation.
  by rewrite Permutation_middle.
Qed.

Lemma insertSorted_HdRel a x l :
  (notAfter less) a x → HdRel (notAfter less) a l → HdRel (notAfter less) a (insertSorted less x l).
Proof.
  intros Hax Hal. destruct l as [|y l]; simpl; [by constructor|].
  destruct (less x y); constructor; [done|].
  by inversion Hal.
Qed.

Lemma insertSorted_Sorted x l :
  Sorted (notAfter less) l → Sorted (notAfter less) (insertSorted less x l).
Proof using less_asym.
  induction 1 as [|y l Hl IH Hy]; simpl; [by repeat constructor|].
  destruct (less x y) eqn:Hxy.
  - constructor; [by constructor|]. constructor. by apply less_asym.
  - constructor; [done|]. by apply insertSorted_HdRel.
Qed.

Lemma sortSlice_Sorted l : Sorted (notAfter less) (sortSlice less l).
Proof using less_asym.
  unfold sortSlice.
  enough (∀ acc, Sorted (notAfter less) acc →
            Sorted (notAfter less)
              (foldl (λ sorted x, insertSorted less x sorted) acc l)) as H.
  { apply H. constructor. }
  induction l as [|x l IH]; intros acc Hacc; simpl; [done|].
  by apply IH, insertSorted_Sorted.
Qed.

Lemma Sorted_adjacent l i a b :
  Sorted (notAfter less) l → l !! i = Some a → l !! S i = Some b → (notAfter less) a b.
Proof.
  intros Hl. revert i. induction Hl as [|x l Hl IH Hx]; intros i Ha Hb.
  - done.
  - destruct i as [|i]; simpl in *.
    + simplify_eq. destruct l as [|y l]; simplify_eq/=. by inversion Hx.
    + by eapply IH.
Qed.
End sortSlice.

Lemma appendTestFuncs_spec i testFuncs outputLines :
  appendTestFuncs i testFuncs outputLines =
  outputLines ++
  match testFuncs, i with
  | [], _ => []
  | _, O => emittedBlocks testFuncs
  | _, S _ => EmptyString :: emittedBlocks testFuncs
  end.
Proof.
  revert i outputLines.
  induction testFuncs as [|tf rest IH]; intros i out; simpl.
  { by destruct i; rewrite app_nil_r. }
  rewrite IH. destruct i as [|i]; simpl; repeat case_decide; try lia;
    destruct rest; simpl; by rewrite <- ?app_assoc.
Qed.

Lemma ltb_false_leb (a b : string) :
  String.ltb b a = false → String.leb a b = true.
Proof.
  unfold String.ltb, String.leb. rewrite (String.compare_antisym a b).
  by destruct (String.compare b a).
Qed.

Lemma ltb_asym (a b : string) :
  String.ltb a b = true → String.ltb b a = false.
Proof.
  unfold String.ltb. rewrite (String.compare_antisym b a).
  by destruct (String.compare a b).
Qed.

Lemma lessByName_asym a b : lessByName a b = true → lessByName b a = false.
Proof. apply ltb_asym. Qed.

Lemma BuildOutputContent_emitted testFuncs nonTestLines :
  BuildOutputContent testFuncs nonTestLines =
  withFinalNewline
    (Join (headerLines testFuncs nonTestLines
           ++ emittedBlocks (sortSlice lessByName testFuncs)) nl).
Proof.
  unfold BuildOutputContent. rewrite appendTestFuncs_spec.
  assert (headerLines (sortSlice lessByName testFuncs) nonTestLines
          = headerLines testFuncs nonTestLines) as ->.
  { unfold headerLines, len.
    by rewrite (Permutation_length (sortSlice_Permutation _ testFuncs)). }
  by destruct (sortSlice lessByName testFuncs).
Qed.



Lemma dropLeadingEmpty_spec l : withoutLeadingEmpty l (dropLeadingEmpty l).
Proof.
  induction l as [|x l (blanks & Hl & Hblanks & Hhead)]; simpl.
  - exists []. split; [done|]. split; [constructor|done].
  - case_bool_decide as Hx.
    + exists (x :: blanks). split; [by rewrite Hl at 1|].
      split; [by constructor|done].
    + exists []. split; [done|]. split; [constructor|].
      by intros y [= <-].
Qed.

Lemma dropTrailingEmpty_spec l : withoutTrailingEmpty l (dropTrailingEmpty l).
Proof.
  induction l as [|x l (blanks & Hl & Hblanks & Hlast)]; simpl.
  - exists []. split; [done|]. split; [constructor|done].
  - destruct (dropTrailingEmpty l) as [|y kept].
    + simpl in Hl. subst l. case_bool_decide as Hx.
      * exists (x :: blanks). split; [done|]. split; [by constructor|done].
      * exists blanks. split; [done|]. split; [done|].
        by intros z [= <-].
    + exists blanks. split; [by rewrite Hl at 1|]. split; [done|done].
Qed.

Lemma emittedBlocks_separated testFuncs :
  emittedBlocks testFuncs
  = separated ((λ tf, dropLeadingEmpty (Lines tf)) <$> testFuncs).
Proof.
  induction testFuncs as [|tf rest IH]; [done|].
  simpl. f_equal. destruct rest as [|tf' rest]; [done|].
  by rewrite IH.
Qed.

Lemma headerLines_spec testFuncs nonTestLines :
  (testFuncs = [] ∨ nonTestLines = [] →
   headerLines testFuncs nonTestLines = nonTestLines) ∧
  (testFuncs ≠ [] → nonTestLines ≠ [] →
   ∃ kept, withoutTrailingEmpty nonTestLines kept ∧
           headerLines testFuncs nonTestLines = kept ++ [EmptyString]).
Proof.
  unfold headerLines, len. split.
  - intros [-> | ->]; by rewrite decide_False by (simpl; lia).
  - intros Htf Hnt. rewrite decide_True.
    + exists (dropTrailingEmpty nonTestLines).
      split; [apply dropTrailingEmpty_spec|done].
    + destruct testFuncs, nonTestLines; simpl; try done; lia.
Qed.

(** C1. The output of [BuildOutputContent] is made of the lines of a
    header and of the given test functions, joined by newlines and closed
    by a newline.  The test functions come in an order in which every
    emitted function is followed by one whose name is not smaller in the
    byte-wise order (for adjacent blocks A then B, A.name <= B.name); each
    is emitted with all its lines from the first that is not empty on,
    one empty line between two functions.  The header is the non-test
    lines, their trailing empty lines replaced by one empty line when both
    test functions and non-test lines are given. *)
Theorem BuildOutputContent_sorted_by_name testFuncs nonTestLines :
  ∃ (emitted : list TestFunction) (pieces : list (list string))
    (header : list string) (joined : string),
    emitted ≡ₚ testFuncs ∧
    (∀ i A B, emitted !! i = Some A → emitted !! S i = Some B →
              String.leb (Name A) (Name B) = true) ∧
    Forall2 (λ A piece, withoutLeadingEmpty (Lines A) piece) emitted pieces ∧
    (testFuncs = [] ∨ nonTestLines = [] → header = nonTestLines) ∧
    (testFuncs ≠ [] → nonTestLines ≠ [] →
     ∃ kept, withoutTrailingEmpty nonTestLines kept ∧
             header = kept ++ [EmptyString]) ∧
    joined = Join (header ++ separated pieces) nl ∧
    BuildOutputContent testFuncs nonTestLines =
      (if HasSuffix joined nl then joined else joined +:+ nl).
Proof.
  exists (sortSlice lessByName testFuncs),
    ((λ tf, dropLeadingEmpty (Lines tf)) <$> sortSlice lessByName testFuncs),
    (headerLines testFuncs nonTestLines). eexists.
  split_and!; [| | | | |reflexivity|].
  - apply sortSlice_Permutation.
  - intros i A B HA HB. apply ltb_false_leb.
    eapply (Sorted_adjacent lessByName); [|done..].
    apply sortSlice_Sorted, lessByName_asym.
  - apply Forall2_fmap_r, Forall_Forall2_diag, Forall_forall.
    intros tf _. apply dropLeadingEmpty_spec.
  - apply headerLines_spec.
  - apply headerLines_spec.
  - rewrite BuildOutputContent_emitted, emittedBlocks_separated. done.
Qed.

(** ** Indexing and arithmetic *)

Lemma wrap_id z : - 2 ^ 63 ≤ z < 2 ^ 63 → wrap z = z.
Proof. intros. unfold wrap. rewrite Z.mod_small; lia. Qed.

Lemma index_Some {A} (l : list A) i x :
  index l i = Some x ↔ 0 ≤ i ∧ l !! Z.to_nat i = Some x.
Proof.
  unfold index. destruct (decide (0 ≤ i)) as [?|?].
  - split; [by intros ?|by intros [_ ?]].
  - split; [done|]. by intros [??].
Qed.

Lemma index_is_Some {A} (l : list A) i :
  is_Some (index l i) ↔ 0 ≤ i < len l.
Proof.
  unfold index, len. case_decide.
  - rewrite lookup_lt_is_Some. lia.
  - split; [by intros [??]|lia].
Qed.

Lemma index_None {A} (l : list A) i :
  index l i = None ↔ i < 0 ∨ len l ≤ i.
Proof.
  rewrite eq_None_not_Some, index_is_Some. lia.
Qed.

Lemma index_of_nat {A} (l : list A) (n : nat) : index l (Z.of_nat n) = l !! n.
Proof. unfold index. case_decide; [by rewrite Nat2Z.id|lia]. Qed.

Lemma mapM_index_slice (lines : list string) lo n :
  0 ≤ lo → lo + n ≤ len lines →
  mapM (index lines) (seqZ lo n) = Some (slice lines lo (lo + n - 1)).
Proof.
  intros Hlo Hn. apply mapM_Some.
  unfold slice. replace (lo + n - 1 - lo + 1) with n by lia.
  apply Forall2_same_length_lookup. split.
  - rewrite length_seqZ, length_take, length_drop. unfold len in *. lia.
  - intros i z l Hz Hl. apply lookup_seqZ in Hz as [-> Hi].
    rewrite lookup_take_Some in Hl. destruct Hl as [Hl _].
    rewrite lookup_drop in Hl.
    apply index_Some. split; [lia|].
    by replace (Z.to_nat (lo + Z.of_nat i)) with (Z.to_nat lo + i)%nat by lia.
Qed.

Lemma mapM_index_None (lines : list string) lo n :
  0 ≤ lo ≤ len lines → len lines < lo + n →
  mapM (index lines) (seqZ lo n) = None.
Proof.
  intros Hlo Hn. apply mapM_None. apply Exists_exists.
  exists (len lines). split.
  - apply list_elem_of_lookup. exists (Z.to_nat (len lines - lo)).
    apply lookup_seqZ. unfold len in *. lia.
  - apply index_None. lia.
Qed.

(** ** The boundary resolvers *)

Lemma findCommentStart_loop_spec lines k :
  (k ≤ length lines)%nat →
  ∃ r, findCommentStart_loop lines k = Some r ∧ (r ≤ k)%nat ∧
       (∀ j l, (r ≤ j < k)%nat → lines !! j = Some l → isLeadingLine l) ∧
       (∀ j l, S j = r → lines !! j = Some l → ¬ isLeadingLine l).
Proof.
  induction k as [|k IH]; intros Hk; simpl.
  { exists O. split_and!; [done|lia|intros; lia|intros; lia]. }
  destruct (lookup_lt_is_Some_2 lines k) as [l Hl]; [lia|].
  rewrite Hl. simpl.
  destruct (HasPrefix (TrimSpace l) "//" || HasPrefix (TrimSpace l) "/*"
            || bool_decide (TrimSpace l = "")) eqn:Hlead.
  - destruct IH as (r & -> & Hr & Hrun & Hstop); [lia|].
    exists r. split_and!; [done|lia| |done].
    intros j l' Hj Hl'. destruct (decide (j = k)) as [->|].
    + by simplify_eq.
    + apply (Hrun j); [lia|done].
  - exists (S k). split_and!; [done|lia|intros; lia|].
    intros j l' [= ->] Hl'. simplify_eq. unfold isLeadingLine. simpl.
    by rewrite Hlead.
Qed.

Lemma findCommentStart_spec lines s :
  0 ≤ s ≤ len lines →
  ∃ cs, findCommentStart lines s = Some cs ∧ 0 ≤ cs ≤ s ∧
        (∀ j l, cs ≤ j < s → index lines j = Some l → isLeadingLine l) ∧
        (∀ l, index lines (cs - 1) = Some l → ¬ isLeadingLine l).
Proof.
  intros Hs. unfold findCommentStart. case_decide.
  - destruct (findCommentStart_loop_spec lines (Z.to_nat s))
      as (r & -> & Hr & Hrun & Hstop); [unfold len in *; lia|].
    exists (Z.of_nat r). split_and!; [done|lia|lia| |].
    + intros j l Hj [? Hl]%index_Some. apply (Hrun (Z.to_nat j)); [lia|done].
    + intros l [? Hl]%index_Some. apply (Hstop (Z.to_nat (Z.of_nat r - 1))); [lia|done].
  - exists s. split_and!; [done|lia|lia|intros; lia|].
    intros l [? _]%index_Some. lia.
Qed.

Lemma findCommentEnd_loop_spec following e :
  let ce := findCommentEnd_loop following e in
  e ≤ ce ≤ e + len following ∧
  (∀ j l, (Z.of_nat j < ce - e) → following !! j = Some l → isEmptyLine l) ∧
  (∀ l, following !! Z.to_nat (ce - e) = Some l → ¬ isEmptyLine l).
Proof.
  revert e. induction following as [|l rest IH]; intros e; simpl.
  { unfold len. simpl. split_and!; [lia|lia|intros; lia|done]. }
  case_bool_decide as Hl.
  - specialize (IH (e + 1)). simpl in IH. destruct IH as (Hce & Hrun & Hstop).
    unfold len in *. simpl. split_and!; [lia|lia| |].
    + intros [|j] l' Hj Hl'; simplify_eq/=; [done|].
      apply (Hrun j); [lia|done].
    + intros l'.
      replace (Z.to_nat (findCommentEnd_loop rest (e + 1) - e))
        with (S (Z.to_nat (findCommentEnd_loop rest (e + 1) - (e + 1))))
        by lia.
      simpl. apply Hstop.
  - unfold len. simpl. split_and!; [lia|lia|intros; lia|].
    rewrite Z.sub_diag. simpl. intros l' [= <-]. done.
Qed.

Lemma findCommentEnd_spec lines e :
  -1 ≤ e →
  ∃ ce, findCommentEnd lines e = Some ce ∧ e ≤ ce ∧
        (e < len lines → ce < len lines) ∧
        (∀ j l, e < j ≤ ce → index lines j = Some l → isEmptyLine l) ∧
        (∀ l, index lines (ce + 1) = Some l → ¬ isEmptyLine l).
Proof.
  intros He. unfold findCommentEnd. case_decide as Hlt.
  - rewrite decide_True by lia.
    pose proof (findCommentEnd_loop_spec
                  (drop (Z.to_nat (e + 1)) lines) e) as (Hce & Hrun & Hstop).
    unfold len in *. rewrite length_drop in Hce.
    eexists. split_and!; [done|lia|lia| |].
    + intros j l Hj [? Hl]%index_Some.
      apply (Hrun (Z.to_nat (j - (e + 1)))); [lia|].
      rewrite lookup_drop. rewrite <- Hl. f_equal. lia.
    + intros l [? Hl]%index_Some. apply Hstop.
      rewrite lookup_drop. rewrite <- Hl. f_equal. lia.
  - exists e. split_and!; [done|lia|lia|intros; lia|].
    intros l Hl. assert (is_Some (index lines (e + 1))) as Hs by eauto.
    apply index_is_Some in Hs. lia.
Qed.

(** ** The extractor *)

Lemma sortPass_Permutation cur rest :
  (sortPass cur rest).1 :: (sortPass cur rest).2 ≡ₚ cur :: rest.
Proof.
  revert cur. induction rest as [|other rest IH]; intros cur; simpl; [done|].
  case_decide.
  - specialize (IH other). destruct (sortPass other rest) as [c d]; simpl in *.
    etrans; [apply Permutation_swap|]. by f_equiv.
  - specialize (IH cur). destruct (sortPass cur rest) as [c d]; simpl in *.
    etrans; [apply Permutation_swap|]. rewrite IH. apply Permutation_swap.
Qed.

Lemma sortByLine_Permutation n sortedFuncs :
  sortByLine n sortedFuncs ≡ₚ sortedFuncs.
Proof.
  revert sortedFuncs. induction n as [|n IH]; intros [|cur rest]; simpl;
    [done..|].
  pose proof (sortPass_Permutation cur rest) as Hp.
  destruct (sortPass cur rest) as [c d]; simpl in *.
  by rewrite IH.
Qed.

Lemma createSortedFuncPositions_Permutation testFuncPos :
  createSortedFuncPositions testFuncPos ≡ₚ toFuncPos <$> testFuncPos.
Proof. apply sortByLine_Permutation. Qed.

Lemma elem_of_mark_fold (processed : gset Z) (idxs : list Z) i :
  i ∈ foldl (λ processed i, {[ i ]} ∪ processed) processed idxs
  ↔ i ∈ processed ∨ i ∈ idxs.
Proof.
  revert processed. induction idxs as [|j idxs IH]; intros processed; simpl.
  - set_solver.
  - rewrite IH. set_solver.
Qed.

Lemma markFunc_spec lines processed f :
  ∃ processed', markFunc lines processed f = Some processed' ∧
    ∀ i, i ∈ processed' ↔ i ∈ processed ∨ claims lines f i.
Proof.
  unfold markFunc, claims, inBounds. case_decide as Hguard.
  - destruct (findCommentStart_spec lines (startLine f))
      as (cs & Hcs & ? & _); [lia|].
    destruct (findCommentEnd_spec lines (endLine f))
      as (ce & Hce & ? & ? & _); [lia|].
    rewrite Hcs, Hce. simpl. eexists. split; [done|].
    intros i. rewrite elem_of_mark_fold, elem_of_seqZ.
    split; intros [?|H']; auto; right.
    + split; [done|]. exists cs, ce. split_and!; [done|done|lia..].
    + destruct H' as (_ & cs' & ce' & ? & ? & ?). simplify_eq. lia.
  - exists processed. split; [done|]. intros i. naive_solver.
Qed.

Lemma markProcessedLines_loop_spec lines processed sortedFuncs :
  ∃ processed',
    markProcessedLines_loop lines processed sortedFuncs = Some processed' ∧
    ∀ i, i ∈ processed' ↔
         i ∈ processed ∨ ∃ f, f ∈ sortedFuncs ∧ claims lines f i.
Proof.
  revert processed.
  induction sortedFuncs as [|f rest IH]; intros processed; simpl.
  - exists processed. split; [done|]. intros i. set_solver.
  - destruct (markFunc_spec lines processed f) as (p1 & -> & Hp1). simpl.
    destruct (IH p1) as (p2 & -> & Hp2). exists p2. split; [done|].
    intros i. rewrite Hp2, Hp1. set_solver.
Qed.

Lemma markProcessedLines_spec lines sortedFuncs :
  ∃ processed,
    markProcessedLines lines sortedFuncs = Some processed ∧
    ∀ i, i ∈ processed ↔ ∃ f, f ∈ sortedFuncs ∧ claims lines f i.
Proof.
  destruct (markProcessedLines_loop_spec lines ∅ sortedFuncs)
    as (p & Hp & Hin).
  exists p. split; [done|]. intros i. rewrite Hin. set_solver.
Qed.

Lemma collectNonTestLines_loop_spec k lines processed :
  collectNonTestLines_loop k lines processed =
  (filter (λ p, p.1 ∉ processed) (zip (seqZ k (len lines)) lines)).*2.
Proof.
  revert k. induction lines as [|line rest IH]; intros k; simpl; [done|].
  unfold len. simpl length. rewrite seqZ_cons by lia. simpl.
  replace (Z.pred (Z.of_nat (S (length rest)))) with (len rest)
    by (unfold len; lia).
  rewrite filter_cons. simpl.
  rewrite IH. replace (Z.succ k) with (k + 1) by lia.
  destruct (decide (k ∈ processed)), (decide (k ∉ processed)); done.
Qed.

Lemma collectNonTestLines_spec lines processed :
  collectNonTestLines lines processed =
  match unclaimedLines lines processed with
  | [] => []
  | remainder => remainder ++ [EmptyString]
  end.
Proof.
  unfold collectNonTestLines, unclaimedLines.
  rewrite collectNonTestLines_loop_spec.
  destruct (_.*2) as [|x r].
  - by rewrite decide_False by (unfold len; simpl; lia).
  - by rewrite decide_True by (unfold len; simpl; lia).
Qed.

Lemma mapGet_elem_of (m : PosMap) k : k ∈ m.*1 → (k, mapGet m k) ∈ m.
Proof.
  induction m as [|[k' v] m IH]; simpl; [by intros ?%elem_of_nil|].
  intros Hk. case_decide as Hkk.
  - subst. left.
  - right. apply IH. set_solver.
Qed.

Lemma mapGet_NoDup (m : PosMap) k v :
  NoDup m.*1 → (k, v) ∈ m → mapGet m k = v.
Proof.
  induction m as [|[k' v'] m IH]; simpl; [by intros _ ?%elem_of_nil|].
  intros [Hk' Hm]%NoDup_cons Hin. case_decide as Hkk.
  - subst. apply elem_of_cons in Hin as [?|Hin]; [by simplify_eq|].
    destruct Hk'. apply list_elem_of_fmap. by exists (k, v).
  - apply elem_of_cons in Hin as [?|Hin]; [by simplify_eq|]. by apply IH.
Qed.

Lemma slice_lookup lines lo hi i :
  0 ≤ lo ≤ i → i ≤ hi →
  slice lines lo hi !! Z.to_nat (i - lo) = index lines i.
Proof.
  intros Hlo Hhi. unfold slice, index. rewrite decide_True by lia.
  rewrite lookup_take_lt by lia. rewrite lookup_drop. f_equal. lia.
Qed.

Lemma extractTestFunctionWithComments_Some lines funcName testFuncPos :
  let pos := mapGet testFuncPos funcName in
  0 ≤ wrap (pos.1 - 1) ≤ len lines → wrap (pos.2 - 1) < len lines →
  ∃ cs, findCommentStart lines (wrap (pos.1 - 1)) = Some cs ∧
        extractTestFunctionWithComments lines funcName testFuncPos =
        Some ({| Name := funcName;
                 Lines := slice lines cs (wrap (pos.2 - 1)) |},
              wrap (pos.2 - 1)).
Proof.
  intros pos Hs He. unfold extractTestFunctionWithComments. fold pos.
  destruct (findCommentStart_spec lines (wrap (pos.1 - 1)))
    as (cs & Hcs & ? & _); [done|].
  exists cs. split; [done|]. rewrite Hcs. simpl.
  rewrite mapM_index_slice by lia. simpl.
  by replace (cs + (wrap (pos.2 - 1) - cs + 1) - 1)
    with (wrap (pos.2 - 1)) by lia.
Qed.

Lemma extractTestFunctionWithComments_None lines funcName testFuncPos :
  let pos := mapGet testFuncPos funcName in
  0 ≤ wrap (pos.1 - 1) < len lines → len lines ≤ wrap (pos.2 - 1) →
  extractTestFunctionWithComments lines funcName testFuncPos = None.
Proof.
  intros pos Hs He. unfold extractTestFunctionWithComments. fold pos.
  destruct (findCommentStart_spec lines (wrap (pos.1 - 1)))
    as (cs & Hcs & ? & _); [lia|].
  rewrite Hcs. simpl. by rewrite mapM_index_None by lia.
Qed.

Lemma extractAllTestFunctions_Some lines sortedFuncs testFuncPos :
  (∀ f, f ∈ sortedFuncs → startLine f >= 0 ∧ startLine f < len lines →
        is_Some (extractTestFunctionWithComments lines (name f) testFuncPos)) →
  ∃ testFuncs,
    extractAllTestFunctions lines sortedFuncs testFuncPos = Some testFuncs ∧
    ∀ f r, f ∈ sortedFuncs → startLine f >= 0 ∧ startLine f < len lines →
           extractTestFunctionWithComments lines (name f) testFuncPos = Some r →
           r.1 ∈ testFuncs.
Proof.
  induction sortedFuncs as [|f rest IH]; intros Hall; simpl.
  { exists []. split; [done|]. by intros ?? ?%elem_of_nil. }
  destruct IH as (tfs & Htfs & Hin); [intros; apply Hall; set_solver|].
  rewrite Htfs. case_decide as Hguard.
  - destruct (Hall f) as [r Hr]; [left|done|]. rewrite Hr. simpl.
    eexists. split; [done|]. intros f' r' [->|Hf']%elem_of_cons Hg' Hr'.
    + simplify_eq. left.
    + right. by eapply Hin.
  - exists tfs. split; [done|]. intros f' r' [->|Hf']%elem_of_cons Hg' Hr'.
    + done.
    + by eapply Hin.
Qed.

Lemma extractAllTestFunctions_None lines sortedFuncs testFuncPos f :
  f ∈ sortedFuncs → startLine f >= 0 ∧ startLine f < len lines →
  extractTestFunctionWithComments lines (name f) testFuncPos = None →
  extractAllTestFunctions lines sortedFuncs testFuncPos = None.
Proof.
  induction sortedFuncs as [|f' rest IH]; simpl; [by intros ?%elem_of_nil|].
  intros [->|Hf]%elem_of_cons Hg Hnone.
  - by rewrite decide_True, Hnone by done.
  - rewrite IH by done. case_decide; [|done].
    by destruct (extractTestFunctionWithComments lines (name f') testFuncPos).
Qed.

Lemma elem_of_createSortedFuncPositions testFuncPos f :
  f ∈ createSortedFuncPositions testFuncPos
  ↔ ∃ e, e ∈ testFuncPos ∧ f = toFuncPos e.
Proof.
  rewrite createSortedFuncPositions_Permutation, list_elem_of_fmap.
  naive_solver.
Qed.

(** ** The positions map and its sorted list *)

Lemma mapSet_keys (m : PosMap) k v :
  (mapSet m k v).*1 = if decide (k ∈ m.*1) then m.*1 else m.*1 ++ [k].
Proof.
  induction m as [|[k' v'] m IH].
  { destruct (decide (k ∈ ([] : PosMap).*1)) as [Hin|]; [|done].
    by apply elem_of_nil in Hin. }
  cbn [mapSet]. destruct (decide (k' = k)) as [->|Hne].
  - destruct (decide (k ∈ ((k, v') :: m).*1)) as [|Hnin]; [done|].
    destruct Hnin. left.
  - rewrite fmap_cons, IH. cbn [fst].
    destruct (decide (k ∈ m.*1)) as [Hin|Hnin],
             (decide (k ∈ ((k', v') :: m).*1)) as [Hin'|Hnin']; try done.
    + destruct Hnin'. by right.
    + apply elem_of_cons in Hin' as [?|?]; by simplify_eq/=.
Qed.

Lemma mapSet_NoDup (m : PosMap) k v : NoDup m.*1 → NoDup (mapSet m k v).*1.
Proof.
  intros Hm. rewrite mapSet_keys. case_decide; [done|].
  apply NoDup_app. split_and!; [done|set_solver|apply NoDup_singleton].
Qed.

(** The keys of the map built from the declarations are distinct. *)
Lemma buildTestFunctionPositions_NoDup decls :
  NoDup (buildTestFunctionPositions decls).*1.
Proof.
  unfold buildTestFunctionPositions.
  enough (∀ m : PosMap, NoDup m.*1 →
            NoDup (foldl (λ testFuncPos decl,
                     match decl with
                     | FuncDecl fname start end_ =>
                         if HasPrefix fname "Test"
                         then mapSet testFuncPos fname (start, end_)
                         else testFuncPos
                     | GenDecl => testFuncPos
                     end) m decls).*1) as H.
  { apply H. constructor. }
  induction decls as [|d decls IH]; intros m Hm; simpl; [done|].
  apply IH. destruct d as [fname s e|]; [|done].
  destruct (HasPrefix fname "Test"); [|done]. by apply mapSet_NoDup.
Qed.

Lemma sortPass_min cur rest :
  startLine (sortPass cur rest).1 ≤ startLine cur ∧
  Forall (λ f, startLine (sortPass cur rest).1 ≤ startLine f)
    (sortPass cur rest).2.
Proof.
  revert cur. induction rest as [|other rest IH]; intros cur; simpl.
  { split; [lia|constructor]. }
  case_decide as Hgt.
  - destruct (IH other) as [Hle Hall].
    destruct (sortPass other rest) as [c d]; simpl in *.
    split; [lia|]. constructor; [lia|done].
  - destruct (IH cur) as [Hle Hall].
    destruct (sortPass cur rest) as [c d]; simpl in *.
    split; [lia|]. constructor; [lia|done].
Qed.

Lemma sortPass_length cur rest : length (sortPass cur rest).2 = length rest.
Proof.
  revert cur. induction rest as [|other rest IH]; intros cur; simpl; [done|].
  case_decide.
  - specialize (IH other). destruct (sortPass other rest); simpl in *. lia.
  - specialize (IH cur). destruct (sortPass cur rest); simpl in *. lia.
Qed.

(** [createSortedFuncPositions] returns the functions by ascending start
    line. *)
Lemma createSortedFuncPositions_sorted testFuncPos :
  StronglySorted (λ f g, startLine f ≤ startLine g)
    (createSortedFuncPositions testFuncPos).
Proof.
  unfold createSortedFuncPositions.
  generalize ((λ e : string * (Z * Z),
                 {| name := e.1; startLine := wrap (e.2.1 - 1);
                    endLine := wrap (e.2.2 - 1) |}) <$> testFuncPos).
  intros l.
  enough (∀ n l, length l = n →
            StronglySorted (λ f g, startLine f ≤ startLine g)
              (sortByLine n l)) as H by (by apply H).
  clear. induction n as [|n IH]; intros [|cur rest] Hlen; simpl in *;
    try done; [constructor|].
  pose proof (sortPass_min cur rest) as [_ Hmin].
  pose proof (sortPass_length cur rest) as Hl.
  destruct (sortPass cur rest) as [c d]; simpl in *.
  constructor; [apply IH; lia|].
  by rewrite sortByLine_Permutation.
Qed.

(** ** Ownership of lines *)

Lemma toFuncPos_valid lines e :
  len lines ≤ maxInt → validPos lines e →
  startLine (toFuncPos e) = e.2.1 - 1 ∧ endLine (toFuncPos e) = e.2.2 - 1.
Proof.
  unfold validPos, maxInt. intros Hlen (? & ? & ?). simpl.
  rewrite !wrap_id; lia.
Qed.

Lemma separate_valid_Some lines testFuncPos :
  len lines ≤ maxInt →
  Forall (validPos lines) testFuncPos →
  is_Some (separateTestAndNonTestContent lines testFuncPos).
Proof.
  intros Hlen Hvalid. unfold separateTestAndNonTestContent.
  destruct (markProcessedLines_spec lines
              (createSortedFuncPositions testFuncPos)) as (p & -> & _).
  simpl.
  destruct (extractAllTestFunctions_Some lines
              (createSortedFuncPositions testFuncPos) testFuncPos)
    as (tfs & -> & _); [|done].
  intros f (e & He & ->)%elem_of_createSortedFuncPositions _.
  pose proof (mapGet_elem_of testFuncPos e.1) as Hget.
  rewrite Forall_forall in Hvalid.
  assert (validPos lines (e.1, mapGet testFuncPos e.1)) as Hv.
  { apply Hvalid, Hget, list_elem_of_fmap. by exists e. }
  destruct (toFuncPos_valid lines _ Hlen Hv) as [Hs He']. simpl in *.
  destruct Hv as (? & ? & ?). simpl in *.
  destruct (extractTestFunctionWithComments_Some lines e.1 testFuncPos)
    as (cs & _ & ->); [lia..|done].
Qed.

Lemma separate_end_beyond_None lines testFuncPos k s e :
  NoDup testFuncPos.*1 → (k, (s, e)) ∈ testFuncPos →
  1 ≤ s ≤ len lines → len lines < e ≤ maxInt →
  separateTestAndNonTestContent lines testFuncPos = None.
Proof.
  intros Hnodup Hin Hs He. unfold separateTestAndNonTestContent.
  destruct (markProcessedLines_spec lines
              (createSortedFuncPositions testFuncPos)) as (p & -> & _).
  simpl.
  rewrite (extractAllTestFunctions_None _ _ _ (toFuncPos (k, (s, e)))).
  - done.
  - apply elem_of_createSortedFuncPositions. by eexists.
  - unfold maxInt in *. simpl. rewrite wrap_id; lia.
  - apply extractTestFunctionWithComments_None; simpl;
      rewrite (mapGet_NoDup testFuncPos k (s, e)) by done; simpl;
      unfold maxInt in *; rewrite wrap_id; lia.
Qed.

(** C10. When every declaration of the positions map has 1-based lines with
    1 <= start <= end <= len(lines), [separateTestAndNonTestContent] indexes
    [lines] only within range: it returns a result.  The bound on the end
    line is needed: with a declaration whose start line is in range and
    whose end line is beyond the last line, which passes the only check
    made before extraction, the call panics. *)
Theorem separateTestAndNonTestContent_in_bounds lines testFuncPos :
  len lines ≤ maxInt →
  Forall (validPos lines) testFuncPos →
  is_Some (separateTestAndNonTestContent lines testFuncPos) ∧
  ∀ (otherPos : PosMap) k s e,
    NoDup otherPos.*1 → (k, (s, e)) ∈ otherPos →
    1 ≤ s ≤ len lines → len lines < e ≤ maxInt →
    separateTestAndNonTestContent lines otherPos = None.
Proof.
  intros Hlen Hvalid. split.
  - by apply separate_valid_Some.
  - intros otherPos k s e. apply separate_end_beyond_None.
Qed.

Lemma separateTestAndNonTestContent_in_bounds_witness :
  is_Some (separateTestAndNonTestContent adjacentLines adjacentPos) ∧
  separateTestAndNonTestContent adjacentLines
    [("Test_a", (1, 2)); ("Test_b", (4, 6))] = None.
Proof.
  destruct (separateTestAndNonTestContent_in_bounds adjacentLines adjacentPos)
    as [Hsome Hnone].
  - unfold len, maxInt. simpl. lia.
  - constructor; [|constructor; [|constructor]];
      unfold validPos, len; simpl; lia.
  - split; [exact Hsome|].
    apply (Hnone [("Test_a", (1, 2)); ("Test_b", (4, 6))] "Test_b" 4 6).
    + apply (bool_decide_unpack _). vm_compute. exact I.
    + right. left.
    + unfold len. simpl. lia.
    + unfold len, maxInt. simpl. lia.
Defined.

Lemma extract_of_sorted lines testFuncPos f :
  NoDup testFuncPos.*1 →
  f ∈ createSortedFuncPositions testFuncPos → inBounds lines f →
  ∃ cs, findCommentStart lines (startLine f) = Some cs ∧ 0 ≤ cs ∧
    extractTestFunctionWithComments lines (name f) testFuncPos =
      Some ({| Name := name f; Lines := slice lines cs (endLine f) |},
            endLine f).
Proof.
  intros Hnodup (e & He & ->)%elem_of_createSortedFuncPositions Hb.
  destruct e as [k [s e]].
  pose proof (mapGet_NoDup testFuncPos k (s, e) Hnodup He) as Hget.
  unfold inBounds in Hb. simpl in Hb.
  destruct (extractTestFunctionWithComments_Some lines k testFuncPos)
    as (cs & Hcs & Hex); rewrite ?Hget; simpl; [lia..|].
  rewrite Hget in Hcs, Hex. simpl in *. exists cs. split_and!; [done| |done].
  destruct (findCommentStart_spec lines (wrap (s - 1))) as (? & ? & ? & _);
    [lia|]. simplify_eq. lia.
Qed.



(** C3 (as stated) fails: the empty line between two test functions in a
    row is marked on behalf of both, as trailing padding of the first and
    as leading line of the second; and the line of two test functions
    declared on one line is in the visible lines of both blocks. *)
Lemma index_claimed_by_two_functions :
  createSortedFuncPositions adjacentPos = [adjacentA; adjacentB] ∧
  name adjacentA ≠ name adjacentB ∧
  claims adjacentLines adjacentA 2 ∧ claims adjacentLines adjacentB 2 ∧
  separateTestAndNonTestContent sameLineLines sameLinePos =
    Some ([ {| Name := "Test_a"; Lines := [sameLine] |};
            {| Name := "Test_b"; Lines := [sameLine] |} ],
          ["package main"; ""]).
Proof.
  split_and!.
  - vm_compute. reflexivity.
  - discriminate.
  - split; [unfold inBounds, len; simpl; lia|].
    exists 0, 2. split_and!; [by vm_compute|by vm_compute|lia|lia|].
    unfold len. simpl. lia.
  - split; [unfold inBounds, len; simpl; lia|].
    exists 2, 4. split_and!; [by vm_compute|by vm_compute|lia|lia|].
    unfold len. simpl. lia.
  - vm_compute. reflexivity.
Qed.

(** ** [strings.TrimSpace] *)

Lemma spaceRunes_prefix_free r r' :
  r ∈ spaceRunes → r' ∈ spaceRunes → r `prefix_of` r' → r = r'.
Proof.
  revert r r'.
  assert (Forall (λ r, Forall (λ r', r `prefix_of` r' → r = r') spaceRunes)
            spaceRunes) as H.
  { apply (bool_decide_unpack _). vm_compute. exact I. }
  intros r r' Hr Hr'. rewrite Forall_forall in H.
  specialize (H r Hr). rewrite Forall_forall in H. by apply H.
Qed.

Lemma spaceRunes_nonempty r : r ∈ spaceRunes → (0 < length r)%nat.
Proof.
  revert r. apply Forall_forall.
  apply (bool_decide_unpack _). vm_compute. exact I.
Qed.

Lemma stripLeading_Some l l' :
  stripLeading l = Some l' → ∃ r, r ∈ spaceRunes ∧ l = r ++ l'.
Proof.
  unfold stripLeading.
  destruct (filter _ spaceRunes) as [|r rs] eqn:Hf; [done|].
  intros [= <-]. exists r.
  assert (r ∈ filter (λ r, r `prefix_of` l) spaceRunes) as Hr
    by (rewrite Hf; left).
  apply list_elem_of_filter in Hr as [[k ->] Hr].
  by rewrite drop_app_length.
Qed.

Lemma stripTrailing_Some l l' :
  stripTrailing l = Some l' → ∃ r, r ∈ spaceRunes ∧ l = l' ++ r.
Proof.
  unfold stripTrailing.
  destruct (filter _ spaceRunes) as [|r rs] eqn:Hf; [done|].
  intros [= <-]. exists r.
  assert (r ∈ filter (λ r, r `suffix_of` l) spaceRunes) as Hr
    by (rewrite Hf; left).
  apply list_elem_of_filter in Hr as [[k ->] Hr].
  rewrite length_app, Nat.add_sub. by rewrite take_app_length.
Qed.

Lemma stripLeading_rune r l :
  r ∈ spaceRunes → stripLeading (r ++ l) = Some l.
Proof.
  intros Hr. unfold stripLeading.
  destruct (filter _ spaceRunes) as [|r' rs] eqn:Hf.
  - assert (r ∈ filter (λ r', r' `prefix_of` r ++ l) spaceRunes) as Hin.
    { apply list_elem_of_filter. split; [by apply prefix_app_r|done]. }
    rewrite Hf in Hin. by apply elem_of_nil in Hin.
  - assert (r' ∈ filter (λ r', r' `prefix_of` r ++ l) spaceRunes) as Hin
      by (rewrite Hf; left).
    apply list_elem_of_filter in Hin as [Hpre Hr'].
    assert (r' = r) as ->.
    { destruct (prefix_weak_total r' r (r ++ l)) as [?|?];
        [done|by apply prefix_app_r| |].
      - by apply spaceRunes_prefix_free.
      - symmetry. by apply spaceRunes_prefix_free. }
    by rewrite drop_app_length.
Qed.

Lemma trimWith_stripLeading_whitespace runes n :
  Forall (λ r, r ∈ spaceRunes) runes → (length (concat runes) ≤ n)%nat →
  trimWith stripLeading n (concat runes) = [].
Proof.
  intros Hrunes. revert n.
  induction Hrunes as [|r runes Hr _ IH]; intros n Hn; simpl.
  { destruct n; [done|]. simpl. by vm_compute. }
  pose proof (spaceRunes_nonempty r Hr).
  simpl in Hn. rewrite length_app in Hn.
  destruct n as [|n]; [lia|]. simpl.
  rewrite stripLeading_rune by done. apply IH. lia.
Qed.

Lemma trimWith_stripTrailing_nil n l :
  trimWith stripTrailing n l = [] →
  ∃ runes, Forall (λ r, r ∈ spaceRunes) runes ∧ l = concat runes.
Proof.
  revert l. induction n as [|n IH]; intros l; simpl.
  { intros ->. by exists []. }
  destruct (stripTrailing l) as [l'|] eqn:Hstrip.
  - intros (runes & Hrunes & ->)%IH.
    apply stripTrailing_Some in Hstrip as (r & Hr & ->).
    exists (runes ++ [r]). split.
    + apply Forall_app. split; [done|]. by constructor.
    + rewrite concat_app. simpl. by rewrite app_nil_r.
  - intros ->. by exists [].
Qed.

Lemma trimWith_stripLeading_split n l :
  ∃ runes, Forall (λ r, r ∈ spaceRunes) runes ∧
           l = concat runes ++ trimWith stripLeading n l.
Proof.
  revert l. induction n as [|n IH]; intros l; simpl.
  { by exists []. }
  destruct (stripLeading l) as [l'|] eqn:Hstrip; [|by exists []].
  apply stripLeading_Some in Hstrip as (r & Hr & ->).
  destruct (IH l') as (runes & Hrunes & Hl').
  exists (r :: runes). split; [by constructor|].
  simpl. rewrite <- app_assoc. by rewrite <- Hl'.
Qed.

Lemma trimWith_stripLeading_done n l :
  (length l ≤ n)%nat → stripLeading (trimWith stripLeading n l) = None.
Proof.
  revert l. induction n as [|n IH]; intros l Hn; simpl.
  { destruct l; [by vm_compute|simpl in Hn; lia]. }
  destruct (stripLeading l) as [l'|] eqn:Hstrip; [|done].
  apply IH. apply stripLeading_Some in Hstrip as (r & Hr & ->).
  pose proof (spaceRunes_nonempty r Hr). rewrite length_app in Hn. lia.
Qed.

Lemma ofBytes_nil l : ofBytes l = EmptyString ↔ l = [].
Proof. destruct l; split; done. Qed.

Lemma TrimSpace_empty_iff s : TrimSpace s = "" ↔ whitespaceOnly s.
Proof.
  unfold TrimSpace, whitespaceOnly. rewrite ofBytes_nil.
  unfold TrimRightSpace, TrimLeftSpace. split.
  - intros (runes & Hrunes & Ht)%trimWith_stripTrailing_nil.
    pose proof (trimWith_stripLeading_done (length (bytes s)) (bytes s))
      as Hdone.
    rewrite Ht in Hdone.
    destruct Hrunes as [|r runes Hr _].
    + destruct (trimWith_stripLeading_split (length (bytes s)) (bytes s))
        as (pre & Hpre & Hs).
      exists pre. split; [done|]. rewrite Ht in Hs. simpl in Hs.
      by rewrite app_nil_r in Hs.
    + simpl in Hdone. rewrite stripLeading_rune in Hdone by done.
      by specialize (Hdone (le_n _)).
  - intros (runes & Hrunes & ->).
    by rewrite trimWith_stripLeading_whitespace.
Qed.

(** ** The line classifier *)

Lemma prefix_empty s : String.prefix "" s = true.
Proof. by destruct s. Qed.

Lemma prefix_marker_after a b qc pre rest :
  a ≠ qc → b ≠ qc →
  Contains pre (String a (String b "")) = false →
  String.prefix (String a (String b "")) (pre +:+ String qc rest) = false.
Proof.
  intros Ha Hb Hpre. destruct pre as [|c1 [|c2 pre]].
  - change ("" +:+ String qc rest) with (String qc rest).
    cbn [String.prefix]. by destruct (ascii_dec a qc).
  - change (String c1 "" +:+ String qc rest)
      with (String c1 (String qc rest)).
    cbn [String.prefix]. destruct (ascii_dec a c1); [|done].
    by destruct (ascii_dec b qc).
  - change (String c1 (String c2 pre) +:+ String qc rest)
      with (String c1 (String c2 (pre +:+ String qc rest))).
    cbn [Contains] in Hpre. apply orb_false_iff in Hpre as [Hpre _].
    cbn [String.prefix] in Hpre |- *.
    destruct (ascii_dec a c1); [|done].
    destruct (ascii_dec b c2); [|done].
    by rewrite prefix_empty in Hpre.
Qed.

Lemma HasPrefix_marker_after_quote pre q rest marker :
  q = dquote ∨ q = backquote →
  marker = "//" ∨ marker = "/*" →
  Contains pre marker = false →
  HasPrefix (pre +:+ q +:+ rest) marker = false.
Proof.
  intros Hq Hmarker Hpre. unfold HasPrefix.
  destruct Hq as [-> | ->], Hmarker as [-> | ->].
  - change (dquote +:+ rest) with (String "034"%char rest).
    by apply prefix_marker_after.
  - change (dquote +:+ rest) with (String "034"%char rest).
    by apply prefix_marker_after.
  - change (backquote +:+ rest) with (String "096"%char rest).
    by apply prefix_marker_after.
  - change (backquote +:+ rest) with (String "096"%char rest).
    by apply prefix_marker_after.
Qed.

(** C7 (as amended). [isCommentOrEmpty] is true exactly for the empty string
    and for strings that start with a line-comment or block-comment
    marker; it does not trim its argument.  Applied to the trimmed line,
    as its caller does, it is true exactly for the white-space-only lines
    and for the lines whose trimmed content starts with one of the two
    markers.  So it is false for every line on which a string literal
    opens before the first marker, whatever the literal holds, like the
    line of the repository's test. *)
Theorem isCommentOrEmpty_spec :
  (∀ line, isCommentOrEmpty line = true ↔
     line = "" ∨ HasPrefix line "//" = true ∨ HasPrefix line "/*" = true) ∧
  (∀ line, isCommentOrEmpty (TrimSpace line) = true ↔
     whitespaceOnly line ∨ HasPrefix (TrimSpace line) "//" = true
     ∨ HasPrefix (TrimSpace line) "/*" = true) ∧
  (∀ pre q rest,
     q = dquote ∨ q = backquote →
     Contains pre "//" = false → Contains pre "/*" = false →
     isCommentOrEmpty (pre +:+ q +:+ rest) = false) ∧
  (∀ line pre q rest,
     TrimSpace line = pre +:+ q +:+ rest →
     q = dquote ∨ q = backquote →
     Contains pre "//" = false → Contains pre "/*" = false →
     isCommentOrEmpty (TrimSpace line) = false) ∧
  isCommentOrEmpty literalLine = false ∧
  isCommentOrEmpty (TrimSpace literalLine) = false.
Proof.
  assert (∀ line, isCommentOrEmpty line = true ↔
     line = "" ∨ HasPrefix line "//" = true ∨ HasPrefix line "/*" = true)
    as Hraw.
  { intros line. unfold isCommentOrEmpty.
    rewrite !orb_true_iff, bool_decide_eq_true. tauto. }
  assert (∀ pre q rest,
     q = dquote ∨ q = backquote →
     Contains pre "//" = false → Contains pre "/*" = false →
     isCommentOrEmpty (pre +:+ q +:+ rest) = false) as Hquote.
  { intros pre q rest Hq Hline Hblock. unfold isCommentOrEmpty.
    rewrite (HasPrefix_marker_after_quote pre q rest "//") by eauto.
    rewrite (HasPrefix_marker_after_quote pre q rest "/*") by eauto.
    rewrite bool_decide_eq_false_2; [done|].
    destruct pre; [|done]. by destruct Hq as [-> | ->]. }
  split_and!; [done| |done| |by vm_compute|by vm_compute].
  - intros line. by rewrite Hraw, TrimSpace_empty_iff.
  - intros line pre q rest ->. apply Hquote.
Qed.

(** C7 (as stated) fails: a white-space-only line and an indented comment
    are classified false by [isCommentOrEmpty] itself; and a line of a raw
    string literal that starts with a marker is classified as a comment,
    although the marker stands inside a string literal. *)
Lemma isCommentOrEmpty_does_not_trim :
  whitespaceOnly whitespaceLine ∧ isCommentOrEmpty whitespaceLine = false ∧
  HasPrefix (TrimSpace indentedComment) "//" = true ∧
  isCommentOrEmpty indentedComment = false ∧
  (∃ opening inside,
     rawStringLines = [opening; inside] ∧
     Contains opening backquote = true ∧
     isCommentOrEmpty inside = true ∧
     isCommentOrEmpty (TrimSpace inside) = true).
Proof.
  split_and!; [|by vm_compute..|].
  - apply TrimSpace_empty_iff. by vm_compute.
  - eexists _, _. split; [reflexivity|]. by vm_compute.
Qed.

(** ** The import block scans *)

Lemma isInImportBlock_loop_eq lines n :
  isInImportBlock_loop lines n = isEndOfImportBlock_loop lines n.
Proof. induction n as [|n IH]; simpl; [done|]. by rewrite IH. Qed.

Lemma isInImportBlock_eq lines idx :
  isInImportBlock lines idx = isEndOfImportBlock lines idx.
Proof. apply isInImportBlock_loop_eq. Qed.

Lemma importBlockStart_not_skipped l :
  TrimSpace l = importBlockStart → ¬ scanSkips l.
Proof. unfold scanSkips. intros ->. by intros [?|[?|?]]. Qed.

(** The scan returns, and returns true exactly when the first line above
    that it does not step over is the opening token of an import block. *)
Lemma isEndOfImportBlock_loop_spec lines n :
  (n ≤ length lines)%nat →
  ∃ b, isEndOfImportBlock_loop lines n = Some b ∧
       (b = true ↔
        ∃ j l, (j < n)%nat ∧ lines !! j = Some l ∧
               TrimSpace l = importBlockStart ∧
               ∀ k l', (j < k < n)%nat → lines !! k = Some l' → scanSkips l').
Proof.
  induction n as [|n IH]; intros Hn; simpl.
  { exists false. split; [done|]. split; [done|]. intros (j & ? & ? & _). lia. }
  destruct (lookup_lt_is_Some_2 lines n) as [l Hl]; [lia|].
  rewrite Hl. simpl.
  destruct IH as (b & Hb & Hiff); [lia|].
  assert (scanSkips l →
          ((∃ j l0, (j < S n)%nat ∧ lines !! j = Some l0 ∧
                    TrimSpace l0 = importBlockStart ∧
                    ∀ k l', (j < k < S n)%nat → lines !! k = Some l' →
                            scanSkips l')
           ↔ b = true)) as Hskip.
  { intros Hs. rewrite Hiff. split.
    - intros (j & l0 & Hj & Hl0 & Hopen & Hbetween).
      destruct (decide (j = n)) as [->|Hne].
      + assert (l0 = l) as -> by congruence.
        by destruct (importBlockStart_not_skipped l).
      + exists j, l0. split_and!; [lia|done|done|].
        intros k l' Hk. apply Hbetween. lia.
    - intros (j & l0 & Hj & Hl0 & Hopen & Hbetween).
      exists j, l0. split_and!; [lia|done|done|].
      intros k l' Hk Hl'. destruct (decide (k = n)) as [->|Hne].
      + by simplify_eq.
      + apply (Hbetween k); [lia|done]. }
  assert (¬ scanSkips l → ∀ c : bool,
          (c = true ↔ TrimSpace l = importBlockStart) →
          (c = true ↔
           ∃ j l0, (j < S n)%nat ∧ lines !! j = Some l0 ∧
                   TrimSpace l0 = importBlockStart ∧
                   ∀ k l', (j < k < S n)%nat → lines !! k = Some l' →
                           scanSkips l')) as Hstop.
  { intros Hns c ->. split.
    - intros Hopen. exists n, l. split_and!; [lia|done|done|intros; lia].
    - intros (j & l0 & Hj & Hl0 & Hopen & Hbetween).
      destruct (decide (j = n)) as [->|Hne]; [congruence|].
      destruct Hns. apply (Hbetween n); [lia|done]. }
  unfold scanSkips in *.
  destruct (bool_decide (TrimSpace l = "") || HasPrefix (TrimSpace l) "//")
    eqn:H1.
  { exists b. split; [done|]. symmetry. apply Hskip.
    apply orb_true_iff in H1 as [?%bool_decide_eq_true|?]; auto. }
  apply orb_false_iff in H1 as [H1%bool_decide_eq_false H1'].
  destruct (Contains (TrimSpace l) dquote) eqn:H2.
  { exists b. split; [done|]. symmetry. apply Hskip. auto. }
  case_bool_decide as H3.
  { exists true. split; [done|].
    apply Hstop; [intros [?|[?|?]]; congruence|]. by split. }
  exists false. split; [by destruct (HasPrefix _ "package ")|].
  apply Hstop; [intros [?|[?|?]]; congruence|].
  split; [done|]. intros ?. congruence.
Qed.

(** C8, at the failing input: the closing parenthesis and the quoted line
    of an import block that holds a block comment are not resolved as
    parts of the block, although they are when the comment is a line
    comment; [isBoilerplateCode] treats both comments alike. *)
Theorem import_block_scan_stops_at_block_comment :
  isEndOfImportBlock importWithBlockComment 4 = Some false ∧
  isInImportBlock importWithBlockComment 3 = Some false ∧
  isEndOfImportBlock importWithLineComment 4 = Some true ∧
  isInImportBlock importWithLineComment 3 = Some true ∧
  isBoilerplateCode (TrimSpace (tab +:+ "/* std */")) = true ∧
  isBoilerplateCode (TrimSpace (tab +:+ "// std")) = true.
Proof. by vm_compute. Qed.

(** ** Errors of the collaborators *)

(** C9. When reading the input file fails, or the file is read and parsing
    it fails, [Exec] returns the error of the collaborator wrapped behind
    a context message, and the file system is as it was: nothing is
    written. *)
Theorem Exec_read_or_parse_error {World : Type}
    (ReadFile : World → string → string + error)
    (ParseFile : World → string → list Decl + error)
    (WriteFile : World → string → string → World * option error)
    (w : World) (pathInput pathOutput : string) (e : error) :
  ReadFile w pathInput = inr e
  ∨ ((∃ content, ReadFile w pathInput = inl content)
     ∧ ParseFile w pathInput = inr e) →
  ∃ context,
    Exec World ReadFile ParseFile WriteFile w pathInput pathOutput
      = (w, Returned (Some (Wrapped context e))) ∧
    Unwrap (Wrapped context e) = Some e ∧
    (context = "failed to read input file: "
     ∨ context = "failed to parse Go file: ").
Proof.
  intros [Hread|[[content Hread] Hparse]]; unfold Exec, ParseGoFile.
  - rewrite Hread. eexists. split_and!; [done|done|by left].
  - rewrite Hread, Hparse. eexists. split_and!; [done|done|by right].
Qed.

Lemma Exec_read_or_parse_error_witness :
  (memReadFile emptyWorld "missing_test.go"
     = inr (Cause "no such file or directory")
   ∨ ((∃ content, memReadFile emptyWorld "missing_test.go" = inl content)
      ∧ memParseFile emptyWorld "missing_test.go"
          = inr (Cause "no such file or directory"))) ∧
  ∃ context,
    Exec MemWorld memReadFile memParseFile memWriteFile emptyWorld
      "missing_test.go" "out_test.go"
      = (emptyWorld,
         Returned (Some (Wrapped context (Cause "no such file or directory"))))
    ∧ Unwrap (Wrapped context (Cause "no such file or directory"))
      = Some (Cause "no such file or directory")
    ∧ (context = "failed to read input file: "
       ∨ context = "failed to parse Go file: ").
Proof.
  assert (memReadFile emptyWorld "missing_test.go"
          = inr (Cause "no such file or directory")) as Hread
    by reflexivity.
  split; [left; exact Hread|].
  apply (Exec_read_or_parse_error memReadFile memParseFile memWriteFile
           emptyWorld "missing_test.go" "out_test.go"
           (Cause "no such file or directory")).
  left. exact Hread.
Defined.

(** ** Comments above a test function *)


Lemma isEmptyLine_leading l : isEmptyLine l → isLeadingLine l.
Proof.
  unfold isEmptyLine, isLeadingLine. intros ->. done.
Qed.

Lemma comment_leading l :
  HasPrefix (TrimSpace l) "//" = true ∨ HasPrefix (TrimSpace l) "/*" = true →
  isLeadingLine l.
Proof.
  unfold isLeadingLine. simpl. intros [->| ->]; [done|].
  by rewrite orb_true_r.
Qed.

Lemma comment_not_empty l :
  HasPrefix (TrimSpace l) "//" = true ∨ HasPrefix (TrimSpace l) "/*" = true →
  ¬ isEmptyLine l.
Proof.
  unfold isEmptyLine. intros [H|H] Hl; rewrite Hl in H; done.
Qed.





Lemma findCommentStart_loop_run pre run rest :
  Forall isLeadingLine run →
  (∀ x, last pre = Some x → ¬ isLeadingLine x) →
  findCommentStart_loop (pre ++ run ++ rest) (length pre + length run)
  = Some (length pre).
Proof.
  intros Hrun Hpre. revert rest.
  induction run as [|y run IH] using rev_ind; intros rest.
  - simpl. rewrite Nat.add_0_r.
    destruct pre as [|x pre _] using rev_ind; [done|].
    replace ((pre ++ [x]) ++ rest) with (pre ++ x :: rest)
      by (by rewrite <- app_assoc).
    rewrite length_app. simpl. rewrite Nat.add_1_r. simpl.
    rewrite list_lookup_middle by done. simpl.
    specialize (Hpre x). rewrite last_snoc in Hpre.
    unfold isLeadingLine in Hpre. simpl in Hpre.
    destruct (_ || _ || _); [by destruct Hpre|done].
  - apply Forall_app in Hrun as [Hrun Hy%Forall_inv].
    replace (pre ++ (run ++ [y]) ++ rest) with ((pre ++ run) ++ y :: rest)
      by (by rewrite <- !app_assoc).
    rewrite length_app. simpl. rewrite Nat.add_1_r, Nat.add_succ_r. simpl.
    rewrite list_lookup_middle by (by rewrite length_app).
    simpl. unfold isLeadingLine in Hy. simpl in Hy. rewrite Hy.
    rewrite <- (app_assoc pre run). by apply IH.
Qed.

Lemma slice_app pre mid rest :
  slice (pre ++ mid ++ rest) (len pre) (len pre + len mid - 1) = mid.
Proof.
  unfold slice, len. rewrite Nat2Z.id, drop_app_length.
  replace (Z.to_nat _) with (length mid) by lia.
  by rewrite take_app_length.
Qed.




(** C4, at the failing inputs: with a function that is no test declared
    above the comment, [isCommentBeforeTestFunction] answers false for the
    comment, and yet the pipeline extracts it into the block of the test
    function that follows and leaves it out of the remainder, because
    [findCommentStart] walks over every comment and empty line above the
    function.  With another test function above, the comment leaves its
    place below the helper and is emitted between the two tests. *)
Theorem comment_after_other_code_is_attached :
  isCommentBeforeTestFunction 6 commentAfterCodeLines 9 = Some false ∧
  ExtractTestFunctions commentAfterCodeLines commentAfterCodeDecls =
    Some ([ {| Name := "Test_x";
               Lines := [""; "// doc"; ""; "func Test_x(t *testing.T) {"; "}"]
            |} ],
          ["package main"; importLine; ""; "func helper() {"; "}"; ""]) ∧
  isCommentBeforeTestFunction 9 commentTravelsLines 12 = Some false ∧
  reorder (Join commentTravelsLines nl) commentTravelsDecls =
    Some (Join [ "package main"; importLine; "func helper() {"; "}"; "";
                 "func Test_a(t *testing.T) {"; "}"; "";
                 "// doc"; ""; "func Test_z(t *testing.T) {"; "}"; "" ] nl).
Proof. by vm_compute. Qed.

(** ** Files without test functions *)

Lemma append_cons c s t : String c s +:+ t = String c (s +:+ t).
Proof. reflexivity. Qed.

Lemma append_nil_l s : EmptyString +:+ s = s.
Proof. reflexivity. Qed.

Lemma append_nil_r s : s +:+ EmptyString = s.
Proof. induction s as [|c s IH]; [done|]. by rewrite append_cons, IH. Qed.

Lemma append_assoc s t u : (s +:+ t) +:+ u = s +:+ t +:+ u.
Proof. induction s as [|c s IH]; [done|]. by rewrite !append_cons, IH. Qed.

Lemma bytes_app s t : bytes (s +:+ t) = bytes s ++ bytes t.
Proof.
  induction s as [|c s IH]; [done|]. rewrite append_cons. unfold bytes in *.
  simpl. by rewrite IH.
Qed.

Lemma HasSuffix_app s suf : HasSuffix (s +:+ suf) suf = true.
Proof.
  unfold HasSuffix. apply bool_decide_eq_true. rewrite bytes_app.
  by apply suffix_app_r.
Qed.

Lemma Split_not_nil s sep : Split s sep ≠ [].
Proof.
  destruct s as [|c s]; simpl; [done|].
  case_decide; [done|]. by destruct (Split s sep).
Qed.

Lemma Join_cons e rest sep :
  rest ≠ [] → Join (e :: rest) sep = e +:+ sep +:+ Join rest sep.
Proof. by destruct rest. Qed.

Lemma Join_Split s : Join (Split s newline) nl = s.
Proof.
  induction s as [|c s IH]; simpl; [done|].
  pose proof (Split_not_nil s newline) as Hne.
  case_decide as Hc.
  - rewrite Join_cons by done. rewrite IH. by subst.
  - destruct (Split s newline) as [|piece pieces]; [done|].
    destruct pieces as [|p ps].
    + simpl in *. by rewrite IH.
    + rewrite Join_cons in * by done. rewrite append_cons. by rewrite IH.
Qed.

Lemma Join_snoc elems e sep :
  elems ≠ [] → Join (elems ++ [e]) sep = Join elems sep +:+ sep +:+ e.
Proof.
  induction elems as [|x elems IH]; [done|]. intros _.
  destruct elems as [|y elems]; [done|].
  change ((x :: y :: elems) ++ [e]) with (x :: (y :: elems) ++ [e]).
  rewrite (Join_cons x ((y :: elems) ++ [e])) by done.
  rewrite IH by done. rewrite (Join_cons x (y :: elems)) by done.
  by rewrite !append_assoc.
Qed.

Lemma collectNonTestLines_loop_empty i lines :
  collectNonTestLines_loop i lines ∅ = lines.
Proof.
  revert i. induction lines as [|l lines IH]; intros i; simpl; [done|].
  rewrite decide_False by set_solver. by rewrite IH.
Qed.

Lemma sortByLine_nil n : sortByLine n [] = [].
Proof. by destruct n. Qed.

(** With no test function among the declarations, the output is the
    content followed by one newline. *)
Lemma reorder_no_test_functions content decls :
  buildTestFunctionPositions decls = [] →
  reorder content decls = Some (content +:+ nl).
Proof.
  intros Hnone. unfold reorder, ExtractTestFunctions. rewrite Hnone.
  unfold separateTestAndNonTestContent, createSortedFuncPositions. simpl.
  unfold collectNonTestLines. rewrite collectNonTestLines_loop_empty.
  pose proof (Split_not_nil content newline) as Hne.
  rewrite decide_True
    by (unfold len; destruct (Split content newline); [done|simpl; lia]).
  f_equal. unfold BuildOutputContent. simpl. unfold headerLines.
  rewrite decide_False by (unfold len; simpl; lia).
  rewrite Join_snoc, Join_Split, append_nil_r by done.
  unfold withFinalNewline. by rewrite HasSuffix_app.
Qed.

(** C2, at the failing input: a file without test functions that ends in a
    newline comes back with one more newline, that is, with an empty line
    added at its end. *)
Theorem no_test_functions_adds_a_line :
  buildTestFunctionPositions [GenDecl] = [] ∧
  reorder packageOnly [GenDecl] = Some (packageOnly +:+ nl) ∧
  Split packageOnly newline = ["package main"; ""] ∧
  Split (packageOnly +:+ nl) newline = ["package main"; ""; ""].
Proof. by vm_compute. Qed.

(** C6, at the failing input: on a file without test functions every run
    appends a newline, so the second run does not reproduce the output of
    the first. *)
Theorem second_run_changes_the_output :
  reorder packageOnly [] = Some (packageOnly +:+ nl) ∧
  reorder (packageOnly +:+ nl) [] = Some (packageOnly +:+ nl +:+ nl) ∧
  packageOnly +:+ nl +:+ nl ≠ packageOnly +:+ nl.
Proof. by vm_compute. Qed.

(** ** Files in the layout the program writes *)

Lemma isLeadingLine_empty : isLeadingLine EmptyString.
Proof. by vm_compute. Qed.

Lemma isEmptyLine_empty : isEmptyLine EmptyString.
Proof. by vm_compute. Qed.

Lemma not_leading_not_empty x : ¬ isLeadingLine x → ¬ isEmptyLine x.
Proof. intros Hx He. by apply Hx, isEmptyLine_leading. Qed.

Lemma findCommentEnd_loop_stop post e :
  (∀ x, head post = Some x → ¬ isEmptyLine x) →
  findCommentEnd_loop post e = e.
Proof.
  destruct post as [|x post]; simpl; [done|]. intros Hx.
  rewrite bool_decide_eq_false_2; [done|]. by apply Hx.
Qed.

(** One block between what precedes it and what follows it. *)
Lemma block_in_context lines pre b post :
  lines = pre ++ (EmptyString :: blockLines b) ++ (EmptyString :: post) →
  (∀ x, last pre = Some x → ¬ isLeadingLine x) →
  wellFormedBlock b →
  (∀ x, head post = Some x → ¬ isEmptyLine x) →
  let s := len pre + len (bcomments b) + 1 in
  let e := len pre + len (blockLines b) in
  (0 ≤ s ∧ s ≤ e ∧ e < len lines) ∧
  findCommentStart lines s = Some (len pre) ∧
  findCommentEnd lines e = Some (e + 1) ∧
  e + 1 < len lines ∧
  slice lines (len pre) e = EmptyString :: blockLines b.
Proof.
  intros Hlines Hpre (Hcomments & Hbody & Hlast & Hhead) Hpost s e.
  assert (0 < len (bbody b)) as Hbodylen.
  { unfold len. destruct (bbody b); [done|simpl; lia]. }
  assert (len (blockLines b) = len (bcomments b) + len (bbody b)) as Hbl.
  { unfold blockLines, len. rewrite length_app. lia. }
  assert (len lines = len pre + len (blockLines b) + len post + 2) as Hlen.
  { rewrite Hlines. unfold len. rewrite length_app. simpl.
    rewrite length_app. simpl. lia. }
  split_and!.
  - unfold s, len. lia.
  - unfold s, e. lia.
  - unfold e. rewrite Hlen. unfold len. lia.
  - unfold findCommentStart, s.
    rewrite decide_True by (unfold len; lia).
    replace (Z.to_nat (len pre + len (bcomments b) + 1))
      with (length pre + length (EmptyString :: bcomments b))%nat
      by (unfold len; simpl; lia).
    replace lines
      with (pre ++ (EmptyString :: bcomments b)
                ++ (bbody b ++ EmptyString :: post)).
    + rewrite findCommentStart_loop_run; [done| |done].
      constructor; [apply isLeadingLine_empty|done].
    + rewrite Hlines. unfold blockLines. simpl.
      by rewrite <- !app_assoc.
  - unfold findCommentEnd, e.
    rewrite decide_True by (rewrite Hlen; unfold len; lia).
    rewrite decide_True by (unfold len; lia).
    f_equal.
    replace (drop (Z.to_nat (len pre + len (blockLines b) + 1)) lines)
      with (EmptyString :: post).
    + simpl. by apply findCommentEnd_loop_stop.
    + rewrite Hlines.
      replace (pre ++ (EmptyString :: blockLines b) ++ EmptyString :: post)
        with ((pre ++ EmptyString :: blockLines b) ++ EmptyString :: post)
        by (by rewrite <- app_assoc).
      rewrite drop_app_length'; [done|].
      rewrite length_app. unfold len. simpl. lia.
  - unfold e. rewrite Hlen. unfold len. lia.
  - unfold e. rewrite Hlines.
    replace (len pre + len (blockLines b))
      with (len pre + len (EmptyString :: blockLines b) - 1)
      by (unfold len; simpl; lia).
    apply slice_app.
Qed.

Lemma layoutBlocks_snoc_head bs :
  Forall wellFormedBlock bs →
  ∃ post, layoutBlocks bs ++ [EmptyString] = EmptyString :: post ∧
          (bs = [] → post = []) ∧
          ∀ x, head post = Some x → ¬ isEmptyLine x.
Proof.
  intros Hwf. destruct bs as [|b bs']; simpl.
  { exists []. by split_and!. }
  eexists. split_and!; [done|done|].
  apply Forall_cons in Hwf as [(_ & Hbody & _ & Hhead) _].
  intros x Hx. apply Hhead.
  assert (blockLines b ≠ []) as Hne.
  { unfold blockLines. destruct (bcomments b); [done|discriminate]. }
  destruct (blockLines b); [done|]. by simpl in *.
Qed.

Lemma last_blockLines b x :
  wellFormedBlock b → last (blockLines b) = Some x → ¬ isLeadingLine x.
Proof.
  intros (_ & Hbody & Hlast & _) Hx. apply Hlast.
  unfold blockLines in Hx. rewrite last_app in Hx.
  destruct (last (bbody b)) eqn:Hl; [done|].
  apply last_None in Hl. done.
Qed.

(** The first block of a layout, with what precedes the layout. *)
Lemma layout_head lines pre b bs :
  lines = pre ++ layoutBlocks (b :: bs) ++ [EmptyString] →
  (∀ x, last pre = Some x → ¬ isLeadingLine x) →
  Forall wellFormedBlock (b :: bs) →
  len lines ≤ maxInt →
  let e := (bname b,
            (len pre + len (bcomments b) + 2, len pre + len (blockLines b) + 1))
  in
  let pre' := pre ++ EmptyString :: blockLines b in
  validPos lines e ∧
  inBounds lines (toFuncPos e) ∧
  findCommentStart lines (startLine (toFuncPos e)) = Some (len pre) ∧
  findCommentEnd lines (endLine (toFuncPos e)) = Some (len pre') ∧
  slice lines (len pre) (endLine (toFuncPos e))
    = EmptyString :: blockLines b ∧
  len pre' = len pre + len (blockLines b) + 1 ∧
  len pre' < len lines ∧
  (bs = [] → len lines = len pre' + 1) ∧
  lines = pre' ++ layoutBlocks bs ++ [EmptyString] ∧
  (∀ x, last pre' = Some x → ¬ isLeadingLine x).
Proof.
  intros Hlines Hpre Hwf Hmax e pre'.
  pose proof Hwf as [Hb Hbs]%Forall_cons.
  destruct (layoutBlocks_snoc_head bs Hbs) as (post & Hpost & Hnil & Hhead).
  assert (lines = pre ++ (EmptyString :: blockLines b)
                      ++ (EmptyString :: post)) as Hctx.
  { rewrite Hlines. simpl. rewrite <- Hpost. by rewrite <- !app_assoc. }
  destruct (block_in_context lines pre b post Hctx Hpre Hb Hhead)
    as ((Hs0 & Hse & Helen) & Hcs & Hce & Hce' & Hslice).
  assert (len pre' = len pre + len (blockLines b) + 1) as Hpre'.
  { unfold pre', len. rewrite length_app. simpl. lia. }
  assert (startLine (toFuncPos e) = len pre + len (bcomments b) + 1
          ∧ endLine (toFuncPos e) = len pre + len (blockLines b))
    as [Hs He].
  { unfold maxInt in *. simpl. rewrite !wrap_id; lia. }
  rewrite Hs, He, Hpre'.
  split_and!; try done.
  - unfold validPos. simpl. lia.
  - unfold inBounds. rewrite Hs, He. lia.
  - intros ->. rewrite Hctx, (Hnil eq_refl). unfold len.
    rewrite length_app. simpl. rewrite length_app. simpl. lia.
  - rewrite Hlines. unfold pre'. simpl. by rewrite <- !app_assoc.
  - intros x Hx. unfold pre' in Hx.
    rewrite last_app, last_cons in Hx.
    destruct (last (blockLines b)) as [y|] eqn:Hl.
    + simplify_eq. by eapply last_blockLines.
    + apply last_None in Hl. destruct Hb as (_ & Hbody & _).
      unfold blockLines in Hl. by destruct (bcomments b), (bbody b).
Qed.

Lemma layout_valid lines pre bs :
  lines = pre ++ layoutBlocks bs ++ [EmptyString] →
  (∀ x, last pre = Some x → ¬ isLeadingLine x) →
  Forall wellFormedBlock bs →
  len lines ≤ maxInt →
  Forall (validPos lines) (layoutPos (len pre) bs) ∧
  Forall (inBounds lines) (toFuncPos <$> layoutPos (len pre) bs).
Proof.
  revert pre. induction bs as [|b bs IH]; intros pre Hlines Hpre Hwf Hmax.
  { split; constructor. }
  destruct (layout_head lines pre b bs Hlines Hpre Hwf Hmax)
    as (Hv & Hb & _ & _ & _ & Hlen' & _ & _ & Hlines' & Hpre').
  apply Forall_cons in Hwf as [_ Hwf].
  destruct (IH _ Hlines' Hpre' Hwf Hmax) as [IHv IHb].
  rewrite Hlen' in IHv, IHb.
  split; simpl; by constructor.
Qed.

Lemma layout_blocks lines pre bs :
  lines = pre ++ layoutBlocks bs ++ [EmptyString] →
  (∀ x, last pre = Some x → ¬ isLeadingLine x) →
  Forall wellFormedBlock bs →
  len lines ≤ maxInt →
  blockAt lines <$> (toFuncPos <$> layoutPos (len pre) bs) = blockFunc <$> bs.
Proof.
  revert pre. induction bs as [|b bs IH]; intros pre Hlines Hpre Hwf Hmax.
  { done. }
  destruct (layout_head lines pre b bs Hlines Hpre Hwf Hmax)
    as (_ & _ & Hcs & _ & Hslice & Hlen' & _ & _ & Hlines' & Hpre').
  apply Forall_cons in Hwf as [_ Hwf].
  specialize (IH _ Hlines' Hpre' Hwf Hmax). rewrite Hlen' in IH.
  cbn [layoutPos fmap list_fmap]. rewrite IH. f_equal.
  unfold blockAt at 1. rewrite Hcs. simpl default. by rewrite Hslice.
Qed.

Lemma layout_claims lines pre bs i :
  lines = pre ++ layoutBlocks bs ++ [EmptyString] →
  (∀ x, last pre = Some x → ¬ isLeadingLine x) →
  Forall wellFormedBlock bs →
  len lines ≤ maxInt →
  (∃ f, f ∈ toFuncPos <$> layoutPos (len pre) bs ∧ claims lines f i)
  ↔ bs ≠ [] ∧ len pre ≤ i < len lines.
Proof.
  revert pre. induction bs as [|b bs IH]; intros pre Hlines Hpre Hwf Hmax.
  { split; [|by intros [? _]]. by intros (f & ?%elem_of_nil & _). }
  destruct (layout_head lines pre b bs Hlines Hpre Hwf Hmax)
    as (_ & Hb & Hcs & Hce & _ & Hlen' & Hlt & Hlast & Hlines' & Hpre').
  apply Forall_cons in Hwf as [_ Hwf].
  specialize (IH _ Hlines' Hpre' Hwf Hmax). rewrite Hlen' in IH.
  cbn [layoutPos fmap list_fmap].
  set (e := (bname b, (len pre + len (bcomments b) + 2,
                       len pre + len (blockLines b) + 1))) in *.
  assert (claims lines (toFuncPos e) i
          ↔ len pre ≤ i ≤ len pre + len (blockLines b) + 1) as Hhead.
  { unfold claims. split.
    - intros (_ & cs & ce & ? & ? & ? & _). simplify_eq. lia.
    - intros Hi. split; [done|]. eexists _, _.
      split_and!; [done|done|lia|lia|lia]. }
  split.
  - intros (f & [->|Hf]%elem_of_cons & Hclaims).
    + apply Hhead in Hclaims. split; [done|lia].
    + destruct (proj1 IH) as [_ ?]; [by exists f|].
      split; [done|]. unfold len in *. lia.
  - intros [_ Hi].
    destruct (decide (i ≤ len pre + len (blockLines b) + 1)) as [Hle|Hgt].
    + exists (toFuncPos e). split; [left|]. apply Hhead. lia.
    + destruct (proj2 IH) as (f & Hf & Hclaims).
      { split; [|lia]. intros ->. specialize (Hlast eq_refl). lia. }
      exists f. split; [by right|done].
Qed.

Lemma layoutPos_keys off bs : (layoutPos off bs).*1 = bname <$> bs.
Proof.
  revert off. induction bs as [|b bs IH]; intros off; simpl; [done|].
  by rewrite IH.
Qed.

Lemma notAfter_leb a b :
  notAfter lessByName a b ↔ String.leb (Name a) (Name b) = true.
Proof.
  unfold notAfter, lessByName. split; [apply ltb_false_leb|].
  unfold String.ltb, String.leb.
  rewrite (String.compare_antisym (Name a) (Name b)).
  by destruct (String.compare (Name b) (Name a)).
Qed.

Lemma notAfter_trans a b c :
  notAfter lessByName a b → notAfter lessByName b c →
  notAfter lessByName a c.
Proof.
  rewrite !notAfter_leb. intros Hab Hbc.
  apply Is_true_true. apply Is_true_true in Hab, Hbc.
  change (String.le (Name a) (Name c)).
  by trans (Name b).
Qed.

(** A slice ordered by name that is a permutation of a slice in strictly
    ascending order of names is that slice. *)
Lemma sorted_perm_unique (s l0 : list TestFunction) :
  Sorted (notAfter lessByName) s →
  StronglySorted (λ a b, lessByName a b = true) l0 →
  s ≡ₚ l0 → s = l0.
Proof.
  intros Hs Hl0. revert s Hs.
  induction Hl0 as [|x l0 Hl0 IH Hx]; intros s Hs Hperm.
  { by apply Permutation_nil_r in Hperm. }
  destruct s as [|h t].
  { by apply Permutation_nil_cons in Hperm. }
  apply Sorted_StronglySorted in Hs; [|intros ???; apply notAfter_trans].
  apply StronglySorted_inv in Hs as [Ht Hh].
  assert (h = x) as ->.
  { assert (h ∈ x :: l0) as [->|Hin]%elem_of_cons
      by (rewrite <- Hperm; left); [done|].
    assert (x ∈ h :: t) as [->|Hin']%elem_of_cons
      by (rewrite Hperm; left); [done|].
    rewrite Forall_forall in Hx, Hh.
    specialize (Hx h Hin). specialize (Hh x Hin').
    unfold notAfter in Hh. congruence. }
  f_equal. apply IH.
  - by apply StronglySorted_Sorted.
  - by eapply Permutation_cons_inv.
Qed.

Lemma sortSlice_sorted_perm (l l0 : list TestFunction) :
  StronglySorted (λ a b, lessByName a b = true) l0 →
  l ≡ₚ l0 → sortSlice lessByName l = l0.
Proof.
  intros Hl0 Hperm. apply sorted_perm_unique; [|done|].
  - apply sortSlice_Sorted, lessByName_asym.
  - by rewrite sortSlice_Permutation.
Qed.

Lemma extractAllTestFunctions_map lines sortedFuncs testFuncPos :
  (∀ f, f ∈ sortedFuncs →
        (startLine f >= 0 ∧ startLine f < len lines) ∧
        extractTestFunctionWithComments lines (name f) testFuncPos
          = Some (blockAt lines f, endLine f)) →
  extractAllTestFunctions lines sortedFuncs testFuncPos
  = Some (blockAt lines <$> sortedFuncs).
Proof.
  induction sortedFuncs as [|f rest IH]; intros Hall; simpl; [done|].
  destruct (Hall f) as [Hg Hex]; [left|].
  rewrite decide_True, Hex by done. simpl.
  rewrite IH; [done|]. intros f' Hf'. apply Hall. by right.
Qed.

Lemma collectNonTestLines_loop_app k a b processed :
  (∀ i, k ≤ i < k + len a → i ∉ processed) →
  collectNonTestLines_loop k (a ++ b) processed
  = a ++ collectNonTestLines_loop (k + len a) b processed.
Proof.
  revert k. induction a as [|x a IH]; intros k Hk.
  { simpl. f_equal. unfold len. simpl. lia. }
  replace (k + len (x :: a)) with (k + 1 + len a)
    by (unfold len; simpl; lia).
  simpl. rewrite decide_False by (apply Hk; unfold len; simpl; lia).
  by rewrite IH by (intros i Hi; apply Hk; unfold len in *; simpl; lia).
Qed.

Lemma collectNonTestLines_loop_all k b processed :
  (∀ i, k ≤ i < k + len b → i ∈ processed) →
  collectNonTestLines_loop k b processed = [].
Proof.
  revert k. induction b as [|x b IH]; intros k Hk; simpl; [done|].
  rewrite decide_True by (apply Hk; unfold len; simpl; lia).
  apply IH. intros i Hi. apply Hk. unfold len in *. simpl. lia.
Qed.

Lemma dropTrailingEmpty_all_empty t :
  Forall isEmptyLine t → dropTrailingEmpty t = [].
Proof.
  induction 1 as [|x t Hx _ IH]; simpl; [done|].
  by rewrite IH, bool_decide_eq_true_2.
Qed.

Lemma dropTrailingEmpty_app h t :
  h ≠ [] → (∀ x, last h = Some x → ¬ isEmptyLine x) →
  Forall isEmptyLine t → dropTrailingEmpty (h ++ t) = h.
Proof.
  intros Hne Hlast Ht. induction h as [|x h IH]; [done|].
  destruct h as [|y h].
  - simpl. rewrite dropTrailingEmpty_all_empty by done.
    rewrite bool_decide_eq_false_2; [done|]. by apply Hlast.
  - change ((x :: y :: h) ++ t) with (x :: ((y :: h) ++ t)).
    cbn [dropTrailingEmpty]. rewrite IH; [done|done|].
    intros z Hz. apply Hlast. by rewrite last_cons, Hz.
Qed.

Lemma dropLeadingEmpty_head l :
  (∀ x, head l = Some x → ¬ isEmptyLine x) → dropLeadingEmpty l = l.
Proof.
  destruct l as [|x l]; simpl; [done|]. intros Hx.
  rewrite bool_decide_eq_false_2; [done|]. by apply Hx.
Qed.

Lemma emittedBlocks_layout bs :
  Forall wellFormedBlock bs →
  match bs with
  | [] => []
  | _ => EmptyString :: emittedBlocks (blockFunc <$> bs)
  end = layoutBlocks bs.
Proof.
  induction 1 as [|b bs Hb Hbs IH]; [done|].
  cbn [fmap list_fmap emittedBlocks layoutBlocks]. f_equal.
  assert (dropLeadingEmpty (Lines (blockFunc b)) = blockLines b) as ->.
  { simpl. destruct Hb as (_ & _ & _ & Hhead).
    by apply dropLeadingEmpty_head. }
  f_equal. rewrite <- IH. by destruct bs.
Qed.

Lemma Split_no_sep s sep : Forall (λ piece, sep ∉ bytes piece) (Split s sep).
Proof.
  induction s as [|c s IH]; simpl.
  { constructor; [|constructor]. by intros ?%elem_of_nil. }
  case_decide as Hc.
  - constructor; [|done]. by intros ?%elem_of_nil.
  - destruct (Split s sep) as [|piece pieces].
    + constructor; [|constructor]. unfold bytes. simpl.
      intros [?|?%elem_of_nil]%elem_of_cons; congruence.
    + apply Forall_cons in IH as [Hp Hps]. constructor; [|done].
      unfold bytes in *. simpl. intros [?|?]%elem_of_cons; congruence.
Qed.

Lemma HasSuffix_Join_last elems z :
  z ≠ EmptyString → newline ∉ bytes z →
  HasSuffix (Join (elems ++ [z]) nl) nl = false.
Proof.
  intros Hz Hnl.
  assert (∃ p, Join (elems ++ [z]) nl = p +:+ z) as [p ->].
  { destruct elems as [|x elems]; [by exists EmptyString|].
    rewrite Join_snoc by done. eexists. by rewrite <- append_assoc. }
  unfold HasSuffix. apply bool_decide_eq_false. rewrite bytes_app.
  intros [pre Hpre]. destruct (bytes z) as [|c l] eqn:Hb using rev_ind.
  - destruct z; [done|discriminate].
  - rewrite app_assoc in Hpre. apply app_inj_tail in Hpre as [_ ->].
    apply Hnl. apply elem_of_app. right. left.
Qed.

Lemma ascendingNames_NoDup bs : ascendingNames bs → NoDup (bname <$> bs).
Proof.
  induction 1 as [|b bs Hbs IH Hb]; simpl; constructor; [|done].
  intros (b' & Heq & Hin)%list_elem_of_fmap.
  rewrite Forall_forall in Hb. specialize (Hb b' Hin).
  rewrite Heq in Hb. pose proof (ltb_asym _ _ Hb). congruence.
Qed.

Lemma ascendingNames_blockFunc bs :
  ascendingNames bs →
  StronglySorted (λ a b, lessByName a b = true) (blockFunc <$> bs).
Proof.
  induction 1 as [|b bs Hbs IH Hb]; simpl; constructor; [done|].
  apply Forall_fmap. eapply Forall_impl; [done|]. by intros b'.
Qed.

Lemma layout_last pre bs x :
  (∀ x, last pre = Some x → ¬ isLeadingLine x) →
  Forall wellFormedBlock bs →
  last (pre ++ layoutBlocks bs) = Some x → ¬ isLeadingLine x.
Proof.
  intros Hpre Hwf. revert pre Hpre.
  induction Hwf as [|b bs Hb Hbs IH]; intros pre Hpre; simpl.
  { rewrite app_nil_r. apply Hpre. }
  replace (pre ++ EmptyString :: blockLines b ++ layoutBlocks bs)
    with ((pre ++ EmptyString :: blockLines b) ++ layoutBlocks bs)
    by (by rewrite <- app_assoc).
  apply IH. intros y Hy.
  rewrite last_app, last_cons in Hy.
  destruct (last (blockLines b)) as [z|] eqn:Hl.
  - simplify_eq. by eapply last_blockLines.
  - apply last_None in Hl. destruct Hb as (_ & Hbody & _).
    unfold blockLines in Hl. by destruct (bcomments b), (bbody b).
Qed.

(** On a file in the layout the program writes, the extractor returns the
    blocks, each with the empty line before it, and the header as the
    remainder. *)
Lemma canonical_separate header bs (testFuncPos : PosMap) :
  wellFormedHeader header → Forall wellFormedBlock bs → bs ≠ [] →
  ascendingNames bs →
  testFuncPos ≡ₚ canonicalPos header bs →
  len (canonicalLines header bs) ≤ maxInt →
  ∃ testFuncs,
    separateTestAndNonTestContent (canonicalLines header bs) testFuncPos
      = Some (testFuncs, header ++ [EmptyString]) ∧
    testFuncs ≡ₚ blockFunc <$> bs.
Proof.
  intros [Hne Hpre] Hwf Hbs Hasc Hperm Hmax.
  set (lines := canonicalLines header bs) in *.
  assert (lines = header ++ layoutBlocks bs ++ [EmptyString]) as Hlines
    by done.
  assert (NoDup testFuncPos.*1) as Hnodup.
  { rewrite Hperm. unfold canonicalPos. rewrite layoutPos_keys.
    by apply ascendingNames_NoDup. }
  set (fs := createSortedFuncPositions testFuncPos).
  assert (fs ≡ₚ toFuncPos <$> canonicalPos header bs) as Hfs.
  { unfold fs. by rewrite createSortedFuncPositions_Permutation, Hperm. }
  destruct (layout_valid lines header bs Hlines Hpre Hwf Hmax)
    as [Hvalid Hbounds].
  fold (canonicalPos header bs) in Hvalid, Hbounds.
  rewrite <- Hfs in Hbounds. rewrite Forall_forall in Hbounds.
  destruct (markProcessedLines_spec lines fs) as (p & Hp & Hmarked).
  assert (∀ i, i ∈ p ↔ len header ≤ i < len lines) as Hrange.
  { intros i. rewrite Hmarked.
    pose proof (layout_claims lines header bs i Hlines Hpre Hwf Hmax) as Hc.
    fold (canonicalPos header bs) in Hc. split.
    - intros (f & Hf & Hcl). destruct (proj1 Hc) as [_ ?]; [|done].
      exists f. split; [by rewrite <- Hfs|done].
    - intros Hi. destruct (proj2 Hc) as (f & Hf & Hcl); [done|].
      exists f. split; [by rewrite Hfs|done]. }
  exists (blockAt lines <$> fs). split.
  - unfold separateTestAndNonTestContent. fold fs. rewrite Hp. simpl.
    rewrite extractAllTestFunctions_map.
    + simpl. do 2 f_equal. unfold collectNonTestLines.
      rewrite Hlines, collectNonTestLines_loop_app
        by (intros i Hi; rewrite Hrange; lia).
      rewrite collectNonTestLines_loop_all.
      * rewrite app_nil_r. rewrite decide_True; [done|].
        unfold len. destruct header; [done|simpl; lia].
      * intros i Hi. apply Hrange. rewrite Hlines. unfold len in *.
        rewrite length_app. lia.
    + intros f Hf. specialize (Hbounds f Hf).
      split; [unfold inBounds in Hbounds; lia|].
      destruct (extract_of_sorted lines testFuncPos f Hnodup Hf Hbounds)
        as (cs & Hcs & _ & ->).
      unfold blockAt. by rewrite Hcs.
  - rewrite Hfs. fold (canonicalPos header bs).
    unfold canonicalPos. by rewrite layout_blocks.
Qed.

Lemma canonical_output header bs testFuncs :
  wellFormedHeader header → Forall wellFormedBlock bs → bs ≠ [] →
  ascendingNames bs →
  testFuncs ≡ₚ blockFunc <$> bs →
  BuildOutputContent testFuncs (header ++ [EmptyString])
  = withFinalNewline (Join (header ++ layoutBlocks bs) nl).
Proof.
  intros [Hne Hpre] Hwf Hbs Hasc Hperm.
  rewrite BuildOutputContent_emitted.
  rewrite (sortSlice_sorted_perm testFuncs (blockFunc <$> bs))
    by (done || by apply ascendingNames_blockFunc).
  f_equal. f_equal. unfold headerLines.
  rewrite decide_True.
  - rewrite dropTrailingEmpty_app; [|done| |].
    + rewrite <- app_assoc. f_equal.
      rewrite <- (emittedBlocks_layout bs Hwf). by destruct bs.
    + intros x Hx. by apply not_leading_not_empty, Hpre.
    + constructor; [apply isEmptyLine_empty|constructor].
  - unfold len. rewrite (Permutation_length Hperm), length_fmap, length_app.
    destruct bs; [done|]. simpl. lia.
Qed.

(** A sorted file in the layout the program writes is a fixed point: the
    output is the content. *)
Lemma sorted_layout_is_fixed_point content decls header bs :
  Split content newline = canonicalLines header bs →
  buildTestFunctionPositions decls ≡ₚ canonicalPos header bs →
  wellFormedHeader header → Forall wellFormedBlock bs → bs ≠ [] →
  ascendingNames bs →
  len (canonicalLines header bs) ≤ maxInt →
  reorder content decls = Some content.
Proof.
  intros Hsplit Hpos Hheader Hwf Hbs Hasc Hmax.
  unfold reorder, ExtractTestFunctions. rewrite Hsplit.
  destruct (canonical_separate header bs _ Hheader Hwf Hbs Hasc Hpos Hmax)
    as (tfs & -> & Hperm).
  simpl. f_equal.
  rewrite (canonical_output header bs tfs) by done.
  rewrite <- (Join_Split content). rewrite Hsplit.
  unfold canonicalLines. rewrite app_assoc.
  assert (header ++ layoutBlocks bs ≠ []) as Hne.
  { destruct Hheader as [Hne _]. by destruct header. }
  rewrite Join_snoc, append_nil_r by done.
  unfold withFinalNewline.
  destruct (header ++ layoutBlocks bs) as [|z X _] eqn:HX using rev_ind;
    [done|].
  rewrite HasSuffix_Join_last; [done| |].
  - intros ->. destruct Hheader as [_ Hpre].
    eapply (layout_last header bs); [done|done| |apply isLeadingLine_empty].
    by rewrite HX, last_snoc.
  - pose proof (Split_no_sep content newline) as Hno.
    rewrite Hsplit in Hno. rewrite Forall_forall in Hno. apply Hno.
    unfold canonicalLines. rewrite app_assoc, HX.
    apply elem_of_app. left. apply elem_of_app. right. left.
Qed.

(** The sample file is in that layout: the output is the input, and so is
    the output of a second run. *)
Example reorder_sorted_file :
  reorder sortedFile sortedFileDecls = Some sortedFile.
Proof.
  apply (sorted_layout_is_fixed_point sortedFile sortedFileDecls
           sortedHeader sortedBlocks).
  - by vm_compute.
  - by vm_compute.
  - split; [done|]. intros x [= <-]. by vm_compute.
  - constructor; [|constructor; [|constructor]].
    + split_and!; [constructor|done| |];
        intros x [= <-]; by vm_compute.
    + split_and!; [constructor; [by vm_compute|constructor]|done| |];
        intros x [= <-]; by vm_compute.
  - done.
  - constructor; [constructor; [constructor|constructor]|].
    constructor; [by vm_compute|constructor].
  - by vm_compute.
Qed.

(** ** [Exec] writes what [reorder] computes *)

Lemma Exec_writes_reorder {World : Type}
    (ReadFile : World → string → string + error)
    (ParseFile : World → string → list Decl + error)
    (WriteFile : World → string → string → World * option error)
    (w : World) (pathInput pathOutput content : string) (decls : list Decl) :
  ReadFile w pathInput = inl content →
  ParseFile w pathInput = inl decls →
  Exec World ReadFile ParseFile WriteFile w pathInput pathOutput =
  match reorder content decls with
  | None => (w, Panicked)
  | Some output =>
      let '(w', err) := WriteFile w pathOutput output in
      (w', Returned (Wrapped "failed to write output file: " <$> err))
  end.
Proof.
  intros Hread Hparse. unfold Exec, ParseGoFile, reorder.
  rewrite Hread, Hparse.
  destruct (ExtractTestFunctions _ decls) as [[tfs ntl]|]; simpl; [|done].
  by destruct (WriteFile _ _ _) as [w' [err|]].
Qed.

(** ** Golden tests of the repository *)

Example golden_separateTestAndNonTestContent :
  separateTestAndNonTestContent goldenLines goldenPos =
  Some ([ {| Name := "Test_alpha";
             Lines := [ ""; "// Comment for Test_alpha";
                        "func Test_alpha(t *testing.T) {";
                        tab +:+ "// test body"; "}" ] |};
          {| Name := "Test_beta";
             Lines := [ ""; "func Test_beta(t *testing.T) {";
                        tab +:+ "// another test"; "}" ] |} ],
        [ "package main"; ""; importLine; "func regularFunc() {";
          tab +:+ "// regular function"; "}"; "" ]).
Proof. by vm_compute. Qed.

Example golden_findCommentStart :
  findCommentStart
    ["package main"; ""; "// Comment 1"; "// Comment 2";
     "func Test_example(t *testing.T) {"; "}"] 4 = Some 1 ∧
  findCommentStart
    ["package main"; ""; "func regularFunc() {"; "}";
     "func Test_example(t *testing.T) {"; "}"] 4 = Some 4 ∧
  findCommentStart
    ["package main"; ""; "// Comment"; ""; "// Another comment";
     "func Test_example(t *testing.T) {"; "}"] 5 = Some 1.
Proof. by vm_compute. Qed.

Example golden_isCommentBeforeTestFunction :
  isCommentBeforeTestFunction 7 goldenCommentLines 10 = Some true ∧
  isCommentBeforeTestFunction 8 goldenCommentLines 10 = Some false ∧
  isCommentBeforeTestFunction 14 goldenCommentLines 16 = Some true ∧
  isCommentBeforeTestFunction 20 goldenCommentLines 23 = Some false ∧
  isCommentBeforeTestFunction 11 goldenCommentLines 10 = Some false ∧
  isCommentBeforeTestFunction 12 goldenCommentLines 10 = Some false.
Proof. by vm_compute. Qed.

Example golden_isCommentOrEmpty :
  isCommentOrEmpty "" = true ∧
  isCommentOrEmpty "// This is a comment" = true ∧
  isCommentOrEmpty "/* This is a multi-line comment" = true ∧
  isCommentOrEmpty "func TestExample(t *testing.T) {" = false ∧
  isCommentOrEmpty whitespaceLine = false ∧
  isCommentOrEmpty literalLine = false.
Proof. by vm_compute. Qed.

Example golden_BuildOutputContent :
  length (Split (BuildOutputContent
                   [ {| Name := "Test_beta";
                        Lines := [ "func Test_beta() {";
                                   tab +:+ "// beta test"; "}" ] |};
                     {| Name := "Test_alpha";
                        Lines := [ "func Test_alpha() {";
                                   tab +:+ "// alpha test"; "}" ] |} ]
                   ["package main"; ""; importLine]) newline) = 12%nat.
Proof. by vm_compute. Qed.

(** * Further properties of the program *)

(** * Boundaries of a function *)

Lemma findCommentStart_nonpositive lines s :
  s ≤ 0 → findCommentStart lines s = Some s.
Proof. intros Hs. unfold findCommentStart. by rewrite decide_False by lia. Qed.

Lemma findCommentStart_loop_beyond lines k :
  (length lines < k)%nat → findCommentStart_loop lines k = None.
Proof.
  intros Hk. destruct k as [|prev]; [lia|]. simpl.
  rewrite (lookup_ge_None_2 lines prev) by lia. done.
Qed.

Lemma findCommentStart_beyond lines s :
  len lines < s → findCommentStart lines s = None.
Proof.
  intros Hs. unfold findCommentStart, len in *.
  rewrite decide_True by lia.
  rewrite findCommentStart_loop_beyond by lia. done.
Qed.

Lemma findCommentStart_fixed lines s cs :
  0 ≤ s ≤ len lines → findCommentStart lines s = Some cs →
  findCommentStart lines cs = Some cs.
Proof.
  intros Hs Hcs.
  destruct (findCommentStart_spec lines s Hs) as (cs' & Hcs' & Hr & _ & Hstop).
  assert (cs' = cs) as -> by congruence.
  destruct (decide (cs = 0)) as [->|Hne]; [by apply findCommentStart_nonpositive|].
  unfold findCommentStart. rewrite decide_True by lia.
  destruct (Z.to_nat cs) as [|prev] eqn:Hprev; [lia|]. simpl.
  destruct (lines !! prev) as [l|] eqn:Hl.
  - simpl. assert (index lines (cs - 1) = Some l) as Hidx.
    { apply index_Some. split; [lia|]. by replace (Z.to_nat (cs - 1)) with prev by lia. }
    specialize (Hstop l Hidx). unfold isLeadingLine in Hstop.
    destruct (_ || _ || _); [done|]. simpl. f_equal. lia.
  - apply lookup_ge_None in Hl. unfold len in *. lia.
Qed.

(** X1: [findCommentStart] resolves the first line of a function's block.
    For a start index within the file it returns the first index of the
    longest run of comment and empty lines that ends just above the
    function: the result lies between 0 and the start, every line from
    it up to the function is a comment or an empty line, the line above
    it (if any) is neither, and resolving again from the result gives
    the result.  A start index of 0 or less comes back unchanged, without
    any line being read; a start index beyond the number of lines
    panics. *)
Theorem findCommentStart_resolves lines s :
  (s ≤ 0 → findCommentStart lines s = Some s) ∧
  (len lines < s → findCommentStart lines s = None) ∧
  (0 ≤ s ≤ len lines →
   ∃ cs, findCommentStart lines s = Some cs ∧ 0 ≤ cs ≤ s ∧
     (∀ j l, cs ≤ j < s → index lines j = Some l → isLeadingLine l) ∧
     (∀ l, index lines (cs - 1) = Some l → ¬ isLeadingLine l) ∧
     findCommentStart lines cs = Some cs).
Proof.
  split_and!.
  - apply findCommentStart_nonpositive.
  - apply findCommentStart_beyond.
  - intros Hs.
    destruct (findCommentStart_spec lines s Hs) as (cs & Hcs & Hr & Hrun & Hstop).
    exists cs. split_and!; try done; try lia. by eapply findCommentStart_fixed.
Qed.

Lemma findCommentEnd_last lines e :
  len lines - 1 ≤ e → findCommentEnd lines e = Some e.
Proof. intros He. unfold findCommentEnd. by rewrite decide_False by lia. Qed.

Lemma findCommentEnd_negative lines e :
  e < -1 → findCommentEnd lines e = None.
Proof.
  intros He. unfold findCommentEnd, len.
  rewrite decide_True by lia. by rewrite decide_False by lia.
Qed.

(** X2: [findCommentEnd] resolves the last line marked for a function.
    From an end index of -1 or more it returns the index of the last of
    the empty lines that directly follow: the result is not below the end
    index, stays within the file when the end index does, every line
    after the end index up to the result is empty once trimmed, the line
    after the result (if any) is not, and resolving again from the result
    gives the result.  An end index at or beyond the last line comes back
    unchanged; an end index below -1 panics. *)
Theorem findCommentEnd_resolves lines e :
  (len lines - 1 ≤ e → findCommentEnd lines e = Some e) ∧
  (e < -1 → findCommentEnd lines e = None) ∧
  (-1 ≤ e →
   ∃ ce, findCommentEnd lines e = Some ce ∧ e ≤ ce ∧
     (e < len lines → ce < len lines) ∧
     (∀ j l, e < j ≤ ce → index lines j = Some l → isEmptyLine l) ∧
     (∀ l, index lines (ce + 1) = Some l → ¬ isEmptyLine l) ∧
     findCommentEnd lines ce = Some ce).
Proof.
  split_and!.
  - apply findCommentEnd_last.
  - apply findCommentEnd_negative.
  - intros He.
    destruct (findCommentEnd_spec lines e He) as (ce & Hce & Hle & Hin & Hrun & Hstop).
    exists ce. split; [done|]. split; [done|]. split; [done|].
    split; [done|]. split; [done|].
    destruct (decide (len lines - 1 ≤ ce)) as [|Hlt];
      [by apply findCommentEnd_last|].
    unfold findCommentEnd. rewrite decide_True by lia.
    rewrite decide_True by lia.
    destruct (drop (Z.to_nat (ce + 1)) lines) as [|l rest] eqn:Hdrop;
      [done|].
    simpl. assert (index lines (ce + 1) = Some l) as Hidx.
    { apply index_Some. split; [lia|].
      rewrite <- (Nat.add_0_r (Z.to_nat (ce + 1))), <- lookup_drop, Hdrop. done. }
    specialize (Hstop l Hidx). unfold isEmptyLine in Hstop.
    by rewrite bool_decide_eq_false_2.
Qed.

(** X3: [markProcessedLines] never fails, whatever the positions: a
    function whose start or end index is outside the file is skipped by
    the bounds check and marks nothing.  Every marked index is an index
    of the file, an index is marked exactly when a function in bounds
    claims it, and every line from the first to the last line of a
    function in bounds is marked. *)
Theorem markProcessedLines_total lines sortedFuncs :
  ∃ processed,
    markProcessedLines lines sortedFuncs = Some processed ∧
    (∀ i, i ∈ processed → 0 ≤ i < len lines) ∧
    (∀ i, i ∈ processed ↔ ∃ f, f ∈ sortedFuncs ∧ claims lines f i) ∧
    (∀ f i, f ∈ sortedFuncs → inBounds lines f →
            startLine f ≤ i ≤ endLine f → i ∈ processed) ∧
    (∀ f i, f ∈ sortedFuncs → ¬ inBounds lines f → ¬ claims lines f i).
Proof.
  destruct (markProcessedLines_spec lines sortedFuncs) as (processed & Hp & Hiff).
  exists processed. split_and!; [done| |done| |].
  - intros i (f & Hf & Hb & cs & ce & Hcs & Hce & Hi & Hlt)%Hiff.
    destruct Hb as (Hs0 & Hs1 & He0 & He1).
    destruct (findCommentStart_spec lines (startLine f)) as (cs' & Hcs' & Hr & _);
      [lia|].
    assert (cs' = cs) as -> by congruence. lia.
  - intros f i Hf Hb Hi. apply Hiff. exists f. split; [done|].
    split; [done|]. destruct Hb as (Hs0 & Hs1 & He0 & He1).
    destruct (findCommentStart_spec lines (startLine f)) as (cs & Hcs & Hr & _);
      [lia|].
    destruct (findCommentEnd_spec lines (endLine f)) as (ce & Hce & Hle & _);
      [lia|].
    exists cs, ce. split_and!; [done|done|lia|lia|lia].
  - intros f i Hf Hnb [Hb _]. done.
Qed.

(** * The positions map *)

Lemma mapGet_missing (m : PosMap) k : k ∉ m.*1 → mapGet m k = (0, 0).
Proof.
  induction m as [|[k' v] m IH]; simpl; [done|].
  intros Hk. apply not_elem_of_cons in Hk as [Hne Hk].
  rewrite decide_False by done. by apply IH.
Qed.

Lemma mapGet_mapSet (m : PosMap) k v : mapGet (mapSet m k v) k = v.
Proof.
  induction m as [|[k' v'] m IH]; simpl.
  - by rewrite decide_True.
  - destruct (decide (k' = k)) as [->|Hne]; simpl.
    + by rewrite decide_True.
    + by rewrite decide_False.
Qed.

Lemma mapGet_mapSet_ne (m : PosMap) k k' v :
  k' ≠ k → mapGet (mapSet m k v) k' = mapGet m k'.
Proof.
  intros Hne. induction m as [|[k0 v0] m IH]; simpl.
  - by rewrite decide_False.
  - destruct (decide (k0 = k)) as [->|Hne0]; simpl.
    + by rewrite !decide_False.
    + destruct (decide (k0 = k')); [done|]. apply IH.
Qed.

(** One step of the loop of [buildTestFunctionPositions]. *)
Lemma buildTestFunctionPositions_snoc decls decl :
  buildTestFunctionPositions (decls ++ [decl]) =
  match decl with
  | FuncDecl fname start end_ =>
      if HasPrefix fname "Test"
      then mapSet (buildTestFunctionPositions decls) fname (start, end_)
      else buildTestFunctionPositions decls
  | GenDecl => buildTestFunctionPositions decls
  end.
Proof. unfold buildTestFunctionPositions. by rewrite foldl_app. Qed.

Lemma buildTestFunctionPositions_keys decls k :
  k ∈ (buildTestFunctionPositions decls).*1 ↔
  HasPrefix k "Test" = true ∧ ∃ s e, FuncDecl k s e ∈ decls.
Proof.
  induction decls as [|decl decls IH] using rev_ind.
  - simpl. split; [by intros ?%elem_of_nil|].
    by intros (_ & s & e & ?%elem_of_nil).
  - rewrite buildTestFunctionPositions_snoc.
    assert ((∃ s e, FuncDecl k s e ∈ decls ++ [decl]) ↔
            (∃ s e, FuncDecl k s e ∈ decls) ∨ ∃ s e, decl = FuncDecl k s e)
      as Hsplit.
    { split.
      - intros (s & e & [?|?%list_elem_of_singleton]%elem_of_app); eauto.
      - intros [(s & e & ?)|(s & e & ->)]; exists s, e; apply elem_of_app;
          [by left|right; by apply list_elem_of_singleton]. }
    rewrite Hsplit. clear Hsplit.
    destruct decl as [fname start end_|].
    + destruct (HasPrefix fname "Test") eqn:Hpre.
      * rewrite mapSet_keys. case_decide as Hin.
        -- rewrite IH. split; [intros [? ?]; by eauto|].
           intros [? [?|(s & e & [= -> -> ->])]]; [done|].
           by apply IH.
        -- rewrite elem_of_app, list_elem_of_singleton, IH. split.
           ++ intros [[? ?]| ->]; [by eauto|]. split; [done|]. right. eauto.
           ++ intros [? [?|(s & e & [= -> -> ->])]]; [left; by eauto|by right].
      * rewrite IH. split; [intros [? ?]; by eauto|].
        intros [Hk [?|(s & e & [= -> -> ->])]]; [done|congruence].
    + rewrite IH. split; [intros [? ?]; by eauto|].
      by intros [Hk [?|(s & e & ?)]].
Qed.

Lemma buildTestFunctionPositions_last before k s e after :
  HasPrefix k "Test" = true →
  (∀ s' e', FuncDecl k s' e' ∉ after) →
  mapGet (buildTestFunctionPositions (before ++ FuncDecl k s e :: after)) k
  = (s, e).
Proof.
  intros Hpre. induction after as [|decl after IH] using rev_ind; intros Hlast.
  - rewrite buildTestFunctionPositions_snoc, Hpre. apply mapGet_mapSet.
  - replace (before ++ FuncDecl k s e :: after ++ [decl])
      with ((before ++ FuncDecl k s e :: after) ++ [decl])
      by by rewrite <- app_assoc.
    rewrite buildTestFunctionPositions_snoc.
    assert (∀ s' e', FuncDecl k s' e' ∉ after) as Hafter.
    { intros s' e' Hin. apply (Hlast s' e'). apply elem_of_app. by left. }
    destruct decl as [fname start end_|]; [|by apply IH].
    destruct (HasPrefix fname "Test"); [|by apply IH].
    rewrite mapGet_mapSet_ne; [by apply IH|].
    intros ->. apply (Hlast start end_). apply elem_of_app. right.
    by apply list_elem_of_singleton.
Qed.

(** X4: [buildTestFunctionPositions] records exactly the function
    declarations whose name starts with [Test], one entry per name: a
    name is a key of the map exactly when it has that prefix and a
    function of that name is declared; the keys are distinct; the entry of a name
    holds the lines of the last declaration of that name; and a name that
    is no key reads as the zero value. *)
Theorem buildTestFunctionPositions_spec decls k :
  (k ∈ (buildTestFunctionPositions decls).*1 ↔
   HasPrefix k "Test" = true ∧ ∃ s e, FuncDecl k s e ∈ decls) ∧
  NoDup (buildTestFunctionPositions decls).*1 ∧
  (∀ before s e after,
     decls = before ++ FuncDecl k s e :: after →
     HasPrefix k "Test" = true →
     (∀ s' e', FuncDecl k s' e' ∉ after) →
     mapGet (buildTestFunctionPositions decls) k = (s, e)) ∧
  (k ∉ (buildTestFunctionPositions decls).*1 →
   mapGet (buildTestFunctionPositions decls) k = (0, 0)).
Proof.
  split_and!.
  - apply buildTestFunctionPositions_keys.
  - apply buildTestFunctionPositions_NoDup.
  - intros before s e after -> Hpre Hlast.
    by apply buildTestFunctionPositions_last.
  - apply mapGet_missing.
Qed.

(** * The functions in the order of their lines *)

Lemma StronglySorted_strict (fs : list funcPos) :
  StronglySorted (λ f g, startLine f ≤ startLine g) fs →
  NoDup (startLine <$> fs) →
  StronglySorted (λ f g, startLine f < startLine g) fs.
Proof.
  induction 1 as [|f fs Hfs IH Hf]; simpl; intros Hnd; [constructor|].
  apply NoDup_cons in Hnd as [Hnotin Hnd].
  constructor; [by apply IH|].
  rewrite Forall_forall in Hf. apply Forall_forall. intros g Hg.
  specialize (Hf g Hg).
  assert (startLine f ≠ startLine g); [|lia].
  intros Heq. apply Hnotin. rewrite Heq. apply list_elem_of_fmap. eauto.
Qed.

Lemma createSortedFuncPositions_order_free (m m' : PosMap) :
  m' ≡ₚ m →
  NoDup (startLine <$> (toFuncPos <$> m)) →
  createSortedFuncPositions m' = createSortedFuncPositions m.
Proof.
  intros Hperm Hnd.
  assert (createSortedFuncPositions m' ≡ₚ createSortedFuncPositions m) as Hp.
  { rewrite !createSortedFuncPositions_Permutation. by rewrite Hperm. }
  apply (StronglySorted_unique_strong (λ f g, startLine f < startLine g)).
  - intros f g _ _ Hfg Hgf. lia.
  - apply StronglySorted_strict; [apply createSortedFuncPositions_sorted|].
    rewrite Hp, createSortedFuncPositions_Permutation. done.
  - apply StronglySorted_strict; [apply createSortedFuncPositions_sorted|].
    rewrite createSortedFuncPositions_Permutation. done.
  - done.
Qed.

(** X5: [createSortedFuncPositions] returns every entry of the map once,
    its lines converted to 0-based indices, in ascending order of the
    start line.  When no two entries start on the same line the result
    does not depend on the order in which the map is visited. *)
Theorem createSortedFuncPositions_spec (testFuncPos : PosMap) :
  createSortedFuncPositions testFuncPos ≡ₚ toFuncPos <$> testFuncPos ∧
  StronglySorted (λ f g, startLine f ≤ startLine g)
    (createSortedFuncPositions testFuncPos) ∧
  (NoDup (startLine <$> (toFuncPos <$> testFuncPos)) →
   ∀ visited : PosMap, visited ≡ₚ testFuncPos →
     createSortedFuncPositions visited
     = createSortedFuncPositions testFuncPos).
Proof.
  split_and!.
  - apply createSortedFuncPositions_Permutation.
  - apply createSortedFuncPositions_sorted.
  - intros Hnd visited Hperm. by apply createSortedFuncPositions_order_free.
Qed.

(** * Extraction of one function *)

Lemma extract_missing_key lines funcName (testFuncPos : PosMap) :
  funcName ∉ testFuncPos.*1 →
  extractTestFunctionWithComments lines funcName testFuncPos = None.
Proof.
  intros Hk. unfold extractTestFunctionWithComments.
  rewrite (mapGet_missing _ _ Hk). reflexivity.
Qed.

(** X6: [extractTestFunctionWithComments] panics for a name that is not
    in the positions map, whatever the lines: the missing key reads as
    the zero value, so the function reads the line of index -1. *)
Theorem extractTestFunctionWithComments_missing_key
    lines funcName (testFuncPos : PosMap) :
  funcName ∉ testFuncPos.*1 →
  extractTestFunctionWithComments lines funcName testFuncPos = None.
Proof. apply extract_missing_key. Qed.

Lemma extractTestFunctionWithComments_missing_key_witness :
  extractTestFunctionWithComments adjacentLines "Test_c" adjacentPos = None.
Proof.
  apply (extractTestFunctionWithComments_missing_key
           adjacentLines "Test_c" adjacentPos).
  apply (bool_decide_unpack _). vm_compute. exact I.
Defined.

(** * The classifier within the file *)

Lemma onlyEmptyAt_true lines idxs :
  onlyEmptyAt lines idxs = Some true →
  ∀ j, j ∈ idxs → ∃ l, index lines j = Some l ∧ isEmptyLine l.
Proof.
  induction idxs as [|i idxs IH]; simpl; intros Hall j Hj;
    [by apply elem_of_nil in Hj|].
  destruct (index lines i) as [l|] eqn:Hl; [|done]. simpl in Hall.
  case_bool_decide as Hne; [done|].
  apply elem_of_cons in Hj as [->|Hj]; [|by apply IH].
  exists l. split; [done|]. unfold isEmptyLine.
  by destruct (decide (TrimSpace l = "")).
Qed.

Lemma onlyEmptyAt_is_Some lines idxs :
  Forall (λ j, 0 ≤ j < len lines) idxs → is_Some (onlyEmptyAt lines idxs).
Proof.
  induction 1 as [|i idxs Hi _ IH]; simpl; [done|].
  destruct (proj2 (index_is_Some lines i) Hi) as [l ->]. simpl.
  by case_bool_decide.
Qed.

Lemma isEndOfImportBlock_is_Some lines idx :
  len lines ≤ maxInt → - maxInt ≤ idx ≤ len lines →
  ∃ b, isEndOfImportBlock lines idx = Some b ∧
       isInImportBlock lines idx = Some b ∧
       (b = true ↔
        ∃ j l, 0 ≤ j < idx ∧ index lines j = Some l ∧
               TrimSpace l = importBlockStart ∧
               ∀ k l', j < k < idx → index lines k = Some l' → scanSkips l').
Proof.
  intros Hmax Hidx.
  assert (isInImportBlock lines idx = isEndOfImportBlock lines idx) as ->
    by apply isInImportBlock_eq.
  unfold isEndOfImportBlock. unfold maxInt, len in *.
  rewrite wrap_id by lia.
  destruct (isEndOfImportBlock_loop_spec lines (Z.to_nat (idx - 1 + 1)))
    as (b & Hb & Hiff); [lia|].
  exists b. split; [done|]. split; [done|]. rewrite Hiff. split.
  - intros (j & l & Hj & Hl & Ht & Hskip).
    exists (Z.of_nat j), l. split; [lia|]. split.
    { by rewrite index_of_nat. }
    split; [done|]. intros k l' Hk Hl'.
    apply index_Some in Hl' as [Hk0 Hl'].
    apply (Hskip (Z.to_nat k)); [lia|done].
  - intros (j & l & Hj & Hl & Ht & Hskip).
    apply index_Some in Hl as [Hj0 Hl].
    exists (Z.to_nat j), l. split; [lia|]. split; [done|]. split; [done|].
    intros k l' Hk Hl'. apply (Hskip (Z.of_nat k)); [lia|].
    by rewrite index_of_nat.
Qed.

(** X7: the two backward scans of the import block are one function, and
    within the file they never fail.  For an index from which no
    subtraction overflows and which is not beyond the end of the file,
    [isEndOfImportBlock] and [isInImportBlock] return the same answer,
    and the answer is true exactly when some line above the index reads
    [import (] once trimmed and every line between that line and the
    index is empty, starts with [//] or holds a double quote.  In
    particular the answer is false at index 0 and below. *)
Theorem import_block_scans_spec lines idx :
  len lines ≤ maxInt → - maxInt ≤ idx ≤ len lines →
  ∃ b, isEndOfImportBlock lines idx = Some b ∧
       isInImportBlock lines idx = Some b ∧
       (b = true ↔
        ∃ j l, 0 ≤ j < idx ∧ index lines j = Some l ∧
               TrimSpace l = importBlockStart ∧
               ∀ k l', j < k < idx → index lines k = Some l' → scanSkips l') ∧
       (idx ≤ 0 → b = false).
Proof.
  intros Hmax Hidx.
  destruct (isEndOfImportBlock_is_Some lines idx Hmax Hidx)
    as (b & Hend & Hin & Hiff).
  exists b. split; [done|]. split; [done|]. split; [done|].
  intros Hneg. destruct b; [|done].
  destruct (proj1 Hiff eq_refl) as (j & l & ? & _). lia.
Qed.

Lemma import_block_scans_spec_witness :
  ∃ b, isEndOfImportBlock importWithLineComment 4 = Some b ∧
       isInImportBlock importWithLineComment 4 = Some b ∧ b = true.
Proof.
  destruct (import_block_scans_spec importWithLineComment 4)
    as (b & Hend & Hin & Hiff & _).
  - unfold len, maxInt. simpl. lia.
  - unfold len, maxInt. simpl. lia.
  - exists b. split; [exact Hend|]. split; [exact Hin|].
    vm_compute in Hend. congruence.
Defined.

Lemma hasActualCodeAt_is_Some lines idx :
  len lines ≤ maxInt → 0 ≤ idx < len lines →
  is_Some (hasActualCodeAt lines idx).
Proof.
  intros Hmax Hidx. unfold hasActualCodeAt.
  destruct (proj2 (index_is_Some lines idx) Hidx) as [l ->]. simpl.
  destruct (isBoilerplateCode (TrimSpace l)); [done|].
  unfold handleSpecialCases.
  destruct (isEndOfImportBlock_is_Some lines idx) as (b & Hend & Hin & _);
    [done|unfold maxInt; lia|].
  rewrite Hend, Hin. simpl.
  case_bool_decide; [by destruct b|].
  destruct (Contains _ _); [by destruct b|done].
Qed.

Lemma actualCodeBelow_is_Some lines n :
  len lines ≤ maxInt → (n ≤ length lines)%nat →
  is_Some (actualCodeBelow lines n).
Proof.
  intros Hmax. induction n as [|idx IH]; intros Hn; simpl; [done|].
  destruct (hasActualCodeAt_is_Some lines (Z.of_nat idx)) as [b ->];
    [done|unfold len; lia|].
  simpl. destruct b; [done|]. apply IH. lia.
Qed.

(** X8: [hasActualCodeAt] reads within the file exactly when its index is
    one: it returns an answer for every index from 0 up to the last line
    and panics for every other index. *)
Theorem hasActualCodeAt_in_range lines idx :
  len lines ≤ maxInt →
  (is_Some (hasActualCodeAt lines idx) ↔ 0 ≤ idx < len lines).
Proof.
  intros Hmax. split.
  - intros [b Hb]. unfold hasActualCodeAt in Hb.
    destruct (index lines idx) as [l|] eqn:Hl; [|done].
    apply index_is_Some. eauto.
  - by apply hasActualCodeAt_is_Some.
Qed.

Lemma hasActualCodeAt_in_range_witness :
  is_Some (hasActualCodeAt importWithLineComment 4) ∧
  hasActualCodeAt importWithLineComment 5 = None.
Proof.
  split.
  - apply (hasActualCodeAt_in_range importWithLineComment 4).
    + unfold len, maxInt. simpl. lia.
    + unfold len. simpl. lia.
  - reflexivity.
Defined.

Lemma isCommentBeforeTestFunction_true i lines s :
  isCommentBeforeTestFunction i lines s = Some true →
  0 < s ∧ i < s - 1 ∧ s - 1 ≤ len lines ∧
  (∃ l, index lines i = Some l ∧ ¬ isEmptyLine l ∧
        (HasPrefix (TrimSpace l) "//" = true
         ∨ HasPrefix (TrimSpace l) "/*" = true)) ∧
  (∀ j, i < j < s - 1 → ∃ l, index lines j = Some l ∧ isEmptyLine l).
Proof.
  unfold isCommentBeforeTestFunction. intros H.
  destruct (decide (s ≤ 0)); [done|].
  destruct (decide (i >= s - 1)); [done|].
  destruct (index lines i) as [l|] eqn:Hl; [|done]. simpl in H.
  assert (0 ≤ i < len lines) as Hi by (apply index_is_Some; eauto).
  destruct (isCommentOrEmpty (TrimSpace l)) eqn:Hc; [|done]. simpl in H.
  case_bool_decide as Hne; [done|].
  assert (∃ l0, Some l = Some l0 ∧ ¬ isEmptyLine l0 ∧
          (HasPrefix (TrimSpace l0) "//" = true
           ∨ HasPrefix (TrimSpace l0) "/*" = true)) as Hline.
  { exists l. split; [done|]. split; [done|].
    unfold isCommentOrEmpty in Hc.
    rewrite bool_decide_eq_false_2 in Hc by done. simpl in Hc.
    by apply orb_true_iff in Hc. }
  destruct (decide (i + 1 = s - 1)) as [Hadj|Hgap].
  - split_and!; [lia|lia|lia|done|]. intros j Hj. lia.
  - destruct (onlyEmptyAt lines _) as [blank|] eqn:Hblank; [|done].
    simpl in H. destruct blank; [|done]. simpl in H.
    pose proof (onlyEmptyAt_true _ _ Hblank) as Hall.
    assert (∀ j, i < j < s - 1 → ∃ l, index lines j = Some l ∧ isEmptyLine l)
      as Hbetween.
    { intros j Hj. apply Hall. apply elem_of_seqZ. lia. }
    split_and!; [lia|lia| |done|done].
    destruct (Hbetween (s - 2)) as (l' & Hl' & _); [lia|].
    assert (0 ≤ s - 2 < len lines) by (apply index_is_Some; eauto). lia.
Qed.

Lemma isCommentBeforeTestFunction_attached i lines s :
  isCommentBeforeTestFunction i lines s = Some true →
  ∃ cs, findCommentStart lines (s - 1) = Some cs ∧ cs ≤ i < s - 1.
Proof.
  intros (Hs & Hi & Hlen & (l & Hl & Hne & Hc) & Hbetween)
    %isCommentBeforeTestFunction_true.
  assert (0 ≤ i) as Hi0.
  { assert (0 ≤ i < len lines); [apply index_is_Some; eauto|lia]. }
  destruct (findCommentStart_spec lines (s - 1)) as (cs & Hcs & Hr & _ & Hstop);
    [lia|].
  exists cs. split; [done|]. split; [|lia].
  destruct (decide (cs ≤ i)) as [|Hgt]; [done|]. exfalso.
  destruct (decide (cs - 1 = i)) as [Heq|Hne'].
  - rewrite Heq in Hstop. apply (Hstop l Hl). by apply comment_leading.
  - destruct (Hbetween (cs - 1)) as (l' & Hl' & He); [lia|].
    apply (Hstop l' Hl'). by apply isEmptyLine_leading.
Qed.

Lemma isCommentBeforeTestFunction_is_Some i lines s :
  len lines ≤ maxInt → 0 ≤ i → s - 1 ≤ len lines →
  is_Some (isCommentBeforeTestFunction i lines s).
Proof.
  intros Hmax Hi Hs. unfold isCommentBeforeTestFunction.
  destruct (decide (s ≤ 0)); [done|].
  destruct (decide (i >= s - 1)); [done|].
  destruct (proj2 (index_is_Some lines i)) as [l ->]; [lia|]. simpl.
  destruct (negb _); [done|]. case_bool_decide; [done|].
  destruct (decide (i + 1 = s - 1)); [done|].
  destruct (onlyEmptyAt_is_Some lines (seqZ (i + 1) (s - 1 - (i + 1))))
    as [blank ->].
  { apply Forall_forall. intros j Hj%elem_of_seqZ. lia. }
  simpl. destruct blank; simpl; [|done].
  destruct (actualCodeBelow_is_Some lines (Z.to_nat i)) as [code ->];
    [done|unfold len in *; lia|].
  simpl. by destruct code.
Qed.

(** X9: a comment that [isCommentBeforeTestFunction] accepts is a comment
    the extraction attaches.  When the predicate answers true for a line
    and the 1-based start line of a function, the line is a comment line
    above the function, every line between the two is empty, and the line
    lies on or after the index [findCommentStart] resolves for the
    function, that is, within the block extracted for it. *)
Theorem isCommentBeforeTestFunction_sound lineIndex lines testFuncStartLine :
  isCommentBeforeTestFunction lineIndex lines testFuncStartLine = Some true →
  (∃ l, index lines lineIndex = Some l ∧ ¬ isEmptyLine l ∧
        (HasPrefix (TrimSpace l) "//" = true
         ∨ HasPrefix (TrimSpace l) "/*" = true)) ∧
  (∀ j, lineIndex < j < testFuncStartLine - 1 →
        ∃ l, index lines j = Some l ∧ isEmptyLine l) ∧
  ∃ commentStart,
    findCommentStart lines (testFuncStartLine - 1) = Some commentStart ∧
    commentStart ≤ lineIndex < testFuncStartLine - 1.
Proof.
  intros H. split_and!.
  - by apply isCommentBeforeTestFunction_true in H as (_ & _ & _ & ? & _).
  - by apply isCommentBeforeTestFunction_true in H as (_ & _ & _ & _ & ?).
  - by apply isCommentBeforeTestFunction_attached.
Qed.

Lemma isCommentBeforeTestFunction_sound_witness :
  ∃ commentStart,
    findCommentStart goldenCommentLines (10 - 1) = Some commentStart ∧
    commentStart ≤ 7 < 10 - 1.
Proof.
  destruct (isCommentBeforeTestFunction_sound 7 goldenCommentLines 10)
    as (_ & _ & Hcs).
  - vm_compute. reflexivity.
  - exact Hcs.
Defined.

(** X10: [isCommentBeforeTestFunction] stays within the file: for a line
    index that is not negative and a function that starts no later than
    one line after the last, it returns an answer.  It answers false,
    without reading a line, when the start line is 0 or less or when the
    line is not above the function. *)
Theorem isCommentBeforeTestFunction_in_range lineIndex lines testFuncStartLine :
  len lines ≤ maxInt →
  (0 ≤ lineIndex → testFuncStartLine - 1 ≤ len lines →
   is_Some (isCommentBeforeTestFunction lineIndex lines testFuncStartLine)) ∧
  (testFuncStartLine ≤ 0 ∨ testFuncStartLine - 1 ≤ lineIndex →
   isCommentBeforeTestFunction lineIndex lines testFuncStartLine
   = Some false).
Proof.
  intros Hmax. split.
  - by apply isCommentBeforeTestFunction_is_Some.
  - intros Hout. unfold isCommentBeforeTestFunction.
    destruct (decide (testFuncStartLine ≤ 0)); [done|].
    destruct (decide (lineIndex >= testFuncStartLine - 1)); [done|]. lia.
Qed.

Lemma isCommentBeforeTestFunction_in_range_witness :
  is_Some (isCommentBeforeTestFunction 20 goldenCommentLines 23) ∧
  isCommentBeforeTestFunction 11 goldenCommentLines 10 = Some false.
Proof.
  destruct (isCommentBeforeTestFunction_in_range 20 goldenCommentLines 23)
    as [Hsome _].
  - unfold len, maxInt. simpl. lia.
  - split.
    + apply Hsome; [lia|unfold len; simpl; lia].
    + apply (isCommentBeforeTestFunction_in_range 11 goldenCommentLines 10).
      * unfold len, maxInt. simpl. lia.
      * right. lia.
Defined.

(** * The line membership helpers *)

Lemma onlyEmptyAt_spec lines idxs :
  Forall (λ j, 0 ≤ j < len lines) idxs →
  ∃ b, onlyEmptyAt lines idxs = Some b ∧
       (b = true ↔ ∀ j l, j ∈ idxs → index lines j = Some l → isEmptyLine l).
Proof.
  induction 1 as [|i idxs Hi _ (b & Hb & Hiff)]; simpl.
  - exists true. split; [done|]. split; [|done].
    intros _ j l Hj. by apply elem_of_nil in Hj.
  - destruct (proj2 (index_is_Some lines i) Hi) as [l Hl]. rewrite Hl. simpl.
    case_bool_decide as Hne.
    + exists false. split; [done|]. split; [done|]. intros Hall.
      exfalso. apply Hne. apply (Hall i l); [left|done].
    + exists b. split; [done|]. rewrite Hiff. split.
      * intros Hall j l' [->|Hj]%elem_of_cons Hl'; [|by eapply Hall].
        assert (l' = l) as -> by congruence.
        unfold isEmptyLine. by destruct (decide (TrimSpace l = "")).
      * intros Hall j l' Hj. apply Hall. by right.
Qed.

Lemma isLastContentBeforeTest_spec commentIndex lines startIdx :
  len lines ≤ maxInt → -1 ≤ commentIndex < maxInt → startIdx ≤ len lines →
  ∃ b, isLastContentBeforeTest commentIndex lines startIdx = Some b ∧
       (b = true ↔
        ∀ j l, commentIndex < j < startIdx → index lines j = Some l →
               isEmptyLine l).
Proof.
  intros Hmax Hc Hs. unfold isLastContentBeforeTest.
  rewrite wrap_id by (unfold maxInt in *; lia).
  destruct (onlyEmptyAt_spec lines
              (seqZ (commentIndex + 1) (startIdx - (commentIndex + 1))))
    as (b & Hb & Hiff).
  { apply Forall_forall. intros j Hj%elem_of_seqZ. lia. }
  exists b. split; [done|]. rewrite Hiff. split.
  - intros Hall j l Hj. apply Hall, elem_of_seqZ. lia.
  - intros Hall j l Hj%elem_of_seqZ. apply Hall. lia.
Qed.

Lemma hasCommentBeforeTest_loop_spec lines startIdx n a :
  len lines ≤ maxInt → 0 ≤ a → startIdx ≤ len lines →
  Z.of_nat n = Z.max 0 (startIdx - a) →
  ∃ b, hasCommentBeforeTest_loop lines startIdx (seqZ a (startIdx - a))
         = Some b ∧
       (b = true ↔ loneCommentBetween lines (a - 1) startIdx).
Proof.
  intros Hmax. revert a. induction n as [|n IH]; intros a Ha Hs Hn.
  - rewrite seqZ_nil by lia. simpl. exists false. split; [done|].
    split; [done|]. intros (c & lc & Hc & _). lia.
  - rewrite seqZ_cons by lia. simpl.
    destruct (proj2 (index_is_Some lines a)) as [l Hl]; [lia|].
    rewrite Hl. simpl.
    replace (Z.pred (startIdx - a)) with (startIdx - Z.succ a) by lia.
    case_bool_decide as Hempty.
    + destruct (IH (Z.succ a)) as (b & Hb & Hiff); [lia|lia|lia|].
      exists b. split; [done|]. rewrite Hiff.
      replace (Z.succ a - 1) with a by lia.
      split; intros (c & lc & Hc & Hlc & Hcom & Hrest).
      * exists c, lc. split; [lia|]. split; [done|]. split; [done|].
        intros j l' Hj Hne Hl'.
        destruct (decide (j = a)) as [->|]; [|apply (Hrest j); [lia|done..]].
        assert (l' = l) as -> by congruence. done.
      * assert (c ≠ a) as Hca.
        { intros ->. assert (lc = l) as -> by congruence.
          by apply comment_not_empty in Hcom. }
        exists c, lc. split; [lia|]. split; [done|]. split; [done|].
        intros j l' Hj Hne. apply Hrest; [lia|done].
    + destruct (negb (HasPrefix (TrimSpace l) "//")
                && negb (HasPrefix (TrimSpace l) "/*")) eqn:Hcom.
      * exists false. split; [done|]. split; [done|].
        intros (c & lc & Hc & Hlc & Hcomc & Hrest). exfalso.
        apply andb_true_iff in Hcom as [H1%negb_true_iff H2%negb_true_iff].
        destruct (decide (c = a)) as [->|Hne].
        -- assert (lc = l) as -> by congruence.
           destruct Hcomc; congruence.
        -- apply Hempty. apply (Hrest a l); [lia|done|done].
      * destruct (isLastContentBeforeTest_spec a lines startIdx)
          as (b & Hb & Hiff); [done|unfold maxInt, len in *; lia|done|].
        rewrite Hb. simpl. exists b. split; [by destruct b|].
        rewrite Hiff. replace (a - 1) with (Z.pred a) by lia.
        assert (isCommentLine l) as Hcl.
        { apply andb_false_iff in Hcom as [H1%negb_false_iff|H2%negb_false_iff];
            [by left|by right]. }
        split.
        -- intros Hall. exists a, l. split; [lia|]. split; [done|].
           split; [done|]. intros j l' Hj Hne. apply Hall. lia.
        -- intros (c & lc & Hc & Hlc & Hcomc & Hrest) j l' Hj Hl'.
           assert (c = a) as ->.
           { destruct (decide (c = a)) as [|Hne]; [done|]. exfalso.
             apply Hempty. apply (Hrest a l); [lia|done|done]. }
           apply (Hrest j); [lia|lia|done].
Qed.

Lemma hasCommentBeforeTest_spec lineIndex lines startIdx :
  len lines ≤ maxInt → -1 ≤ lineIndex < maxInt → startIdx ≤ len lines →
  ∃ b, hasCommentBeforeTest lineIndex lines startIdx = Some b ∧
       (b = true ↔ loneCommentBetween lines lineIndex startIdx).
Proof.
  intros Hmax Hi Hs. unfold hasCommentBeforeTest.
  rewrite wrap_id by (unfold maxInt in *; lia).
  destruct (hasCommentBeforeTest_loop_spec lines startIdx
              (Z.to_nat (startIdx - (lineIndex + 1))) (lineIndex + 1))
    as (b & Hb & Hiff); [done|lia|done|lia|].
  exists b. split; [done|].
  by replace (lineIndex + 1 - 1) with lineIndex in Hiff by lia.
Qed.

Lemma isEmptyLinePrecedingComment_spec lineIndex lines startIdx :
  len lines ≤ maxInt → 0 ≤ lineIndex → startIdx ≤ len lines →
  ∃ b, isEmptyLinePrecedingComment lineIndex lines startIdx = Some b ∧
       (b = true ↔ emptyBeforeLoneComment lines lineIndex startIdx).
Proof.
  intros Hmax Hi Hs. unfold isEmptyLinePrecedingComment, emptyBeforeLoneComment.
  destruct (decide (lineIndex >= startIdx)) as [Hge|Hlt].
  { exists false. split; [done|]. split; [done|]. intros [? _]. lia. }
  destruct (proj2 (index_is_Some lines lineIndex)) as [l Hl]; [lia|].
  rewrite Hl. simpl. case_bool_decide as Hne.
  { exists false. split; [done|]. split; [done|].
    intros (_ & (l' & [= <-] & He) & _). done. }
  destruct (hasCommentBeforeTest_spec lineIndex lines startIdx)
    as (b & Hb & Hiff); [done|unfold maxInt, len in *; lia|done|].
  exists b. split; [done|]. rewrite Hiff. split.
  - intros Hlone. split; [lia|]. split; [|done]. exists l. split; [done|].
    unfold isEmptyLine. by destruct (decide (TrimSpace l = "")).
  - by intros (_ & _ & ?).
Qed.

(** X11: [isEmptyLinePrecedingComment] answers true exactly for an empty
    line above the function with one comment line between the two and
    only empty lines besides: an empty line above a comment of two or
    more lines is not accepted.  For a line index that is not negative
    and a start index that is not beyond the end of the file, the
    function returns an answer. *)
Theorem isEmptyLinePrecedingComment_lone_comment lineIndex lines startIdx :
  len lines ≤ maxInt → 0 ≤ lineIndex → startIdx ≤ len lines →
  ∃ b, isEmptyLinePrecedingComment lineIndex lines startIdx = Some b ∧
       (b = true ↔
        lineIndex < startIdx ∧
        (∃ l, index lines lineIndex = Some l ∧ isEmptyLine l) ∧
        ∃ c lc, lineIndex < c < startIdx ∧ index lines c = Some lc ∧
          isCommentLine lc ∧
          ∀ j l, lineIndex < j < startIdx → j ≠ c →
                 index lines j = Some l → isEmptyLine l).
Proof. apply isEmptyLinePrecedingComment_spec. Qed.

Lemma isEmptyLinePrecedingComment_lone_comment_witness :
  ∃ b, isEmptyLinePrecedingComment 1
         ["package main"; ""; "// doc"; "func Test_a() {"; "}"] 3 = Some b ∧
       b = true.
Proof.
  destruct (isEmptyLinePrecedingComment_lone_comment 1
              ["package main"; ""; "// doc"; "func Test_a() {"; "}"] 3)
    as (b & Hb & _).
  - unfold len, maxInt. simpl. lia.
  - lia.
  - unfold len. simpl. lia.
  - exists b. split; [exact Hb|]. vm_compute in Hb. congruence.
Defined.

Lemma emptyBeforeLoneComment_leading lines i s :
  emptyBeforeLoneComment lines i s →
  ∀ j l, i ≤ j < s → index lines j = Some l → isLeadingLine l.
Proof.
  intros (Hlt & (li & Hli & Hei) & c & lc & Hc & Hlc & Hcom & Hrest) j l Hj Hl.
  destruct (decide (j = i)) as [->|Hji].
  { assert (l = li) as -> by congruence. by apply isEmptyLine_leading. }
  destruct (decide (j = c)) as [->|Hjc].
  { assert (l = lc) as -> by congruence. by apply comment_leading. }
  apply isEmptyLine_leading. apply (Hrest j); [lia|done|done].
Qed.

Lemma isLinePartOfTestFunction_spec lineIndex lines (testFuncPos : PosMap) :
  len lines ≤ maxInt → 0 ≤ lineIndex →
  Forall (validPos lines) testFuncPos →
  ∃ b, isLinePartOfTestFunction lineIndex lines testFuncPos = Some b ∧
       (b = true ↔ ∃ e, e ∈ testFuncPos ∧ partOf lines lineIndex e).
Proof.
  intros Hmax Hi. induction 1 as [|[k [s e]] m Hv _ (b & Hb & Hiff)]; simpl.
  - exists false. split; [done|]. split; [done|].
    intros (e & He & _). by apply elem_of_nil in He.
  - destruct Hv as (Hs1 & Hse & He1). simpl in *.
    rewrite !wrap_id by (unfold maxInt, len in *; lia).
    destruct (decide (lineIndex >= s - 1 ∧ lineIndex <= e - 1)) as [Hin|Hout].
    { exists true. split; [done|]. split; [|done]. intros _.
      exists (k, (s, e)). split; [left|]. left. simpl. lia. }
    destruct (isEmptyLinePrecedingComment_spec lineIndex lines (s - 1))
      as (b' & Hb' & Hiff'); [done|done|lia|].
    rewrite Hb'. simpl. destruct b'.
    { exists true. split; [done|]. split; [|done]. intros _.
      exists (k, (s, e)). split; [left|]. right. simpl. by apply Hiff'. }
    exists b. split; [done|]. rewrite Hiff. split.
    + intros (e' & He' & Hpart). exists e'. split; [by right|done].
    + intros (e' & [->|He']%elem_of_cons & Hpart); [|by eauto].
      exfalso. destruct Hpart as [Hr|Hr]; simpl in Hr; [lia|].
      by apply Hiff' in Hr.
Qed.

Lemma partOf_claims lines lineIndex (testFuncPos : PosMap) e :
  len lines ≤ maxInt → validPos lines e → e ∈ testFuncPos →
  partOf lines lineIndex e →
  ∃ f, f ∈ createSortedFuncPositions testFuncPos ∧ claims lines f lineIndex.
Proof.
  intros Hmax Hv He Hpart. exists (toFuncPos e). split.
  { apply elem_of_createSortedFuncPositions. eauto. }
  destruct (toFuncPos_valid lines e Hmax Hv) as [Hst Hen].
  destruct Hv as (Hs1 & Hse & He1).
  assert (inBounds lines (toFuncPos e)) as Hb.
  { unfold inBounds. rewrite Hst, Hen. lia. }
  split; [done|].
  destruct (findCommentStart_spec lines (startLine (toFuncPos e)))
    as (cs & Hcs & Hr & Hrun & Hstop); [rewrite Hst; lia|].
  destruct (findCommentEnd_spec lines (endLine (toFuncPos e)))
    as (ce & Hce & Hle & Hin & _); [rewrite Hen; lia|].
  exists cs, ce. split; [done|]. split; [done|].
  rewrite Hst in Hr, Hrun. rewrite Hen in Hle, Hin.
  destruct Hpart as [Hrange|Hempty].
  - lia.
  - pose proof (emptyBeforeLoneComment_leading _ _ _ Hempty) as Hlead.
    destruct Hempty as (Hlt & (li & Hli & _) & _).
    assert (0 ≤ lineIndex < len lines) by (apply index_is_Some; eauto).
    assert (cs ≤ lineIndex); [|lia].
    destruct (decide (cs ≤ lineIndex)) as [|Hgt]; [done|]. exfalso.
    destruct (proj2 (index_is_Some lines (cs - 1))) as [l Hl]; [lia|].
    apply (Hstop l Hl). apply (Hlead (cs - 1)); [lia|done].
Qed.

(** X12: [isLinePartOfTestFunction], for positions within the file and a
    line index that is not negative, returns an answer that does not
    depend on the order in which the map is visited: true exactly when
    the line lies between the first and the last line of some function,
    or is an empty line above one with a lone comment line between.
    Every line it accepts is in the set [markProcessedLines] returns for
    the same positions, so the predicate never names a line the
    extraction leaves in the remainder. *)
Theorem isLinePartOfTestFunction_sound lineIndex lines (testFuncPos : PosMap) :
  len lines ≤ maxInt → 0 ≤ lineIndex →
  Forall (validPos lines) testFuncPos →
  ∃ b processed,
    (∀ visited : PosMap, visited ≡ₚ testFuncPos →
       isLinePartOfTestFunction lineIndex lines visited = Some b) ∧
    (b = true ↔ ∃ e, e ∈ testFuncPos ∧ partOf lines lineIndex e) ∧
    markProcessedLines lines (createSortedFuncPositions testFuncPos)
      = Some processed ∧
    (b = true → lineIndex ∈ processed) ∧
    (b = true →
     ∃ f, f ∈ createSortedFuncPositions testFuncPos ∧
          claims lines f lineIndex).
Proof.
  intros Hmax Hi Hvalid.
  destruct (isLinePartOfTestFunction_spec lineIndex lines testFuncPos)
    as (b & Hb & Hiff); [done..|].
  destruct (markProcessedLines_spec lines
              (createSortedFuncPositions testFuncPos)) as (p & Hp & Hmarked).
  assert (b = true →
          ∃ f, f ∈ createSortedFuncPositions testFuncPos ∧
               claims lines f lineIndex) as Hclaims.
  { intros (e & He & Hpart)%Hiff.
    rewrite Forall_forall in Hvalid. by eapply partOf_claims; eauto. }
  exists b, p. split_and!.
  - intros visited Hperm.
    destruct (isLinePartOfTestFunction_spec lineIndex lines visited)
      as (b' & Hb' & Hiff'); [done|done|by rewrite Hperm|].
    rewrite Hb'. f_equal.
    apply eq_true_iff_eq. rewrite Hiff, Hiff'.
    split; intros (e & He & Hpart); exists e; (split; [|done]).
    + by rewrite <- Hperm.
    + by rewrite Hperm.
  - done.
  - done.
  - intros Htrue. by apply Hmarked, Hclaims.
  - done.
Qed.

Lemma isLinePartOfTestFunction_sound_witness :
  ∃ processed,
    isLinePartOfTestFunction 1 partLines [("Test_alpha", (4, 6))]
      = Some true ∧
    markProcessedLines partLines
      (createSortedFuncPositions [("Test_alpha", (4, 6))]) = Some processed ∧
    1 ∈ processed.
Proof.
  destruct (isLinePartOfTestFunction_sound 1 partLines
              [("Test_alpha", (4, 6))])
    as (b & processed & Hb & _ & Hmark & Hin & _).
  - unfold len, maxInt. simpl. lia.
  - lia.
  - constructor; [|constructor]. unfold validPos, len. simpl. lia.
  - specialize (Hb [("Test_alpha", (4, 6))] (reflexivity _)).
    assert (b = true) as -> by (vm_compute in Hb; congruence).
    exists processed. split; [exact Hb|]. split; [exact Hmark|].
    by apply Hin.
Defined.

(** * The function that starts at a line *)

Lemma NoDup_fmap_elem_inj {A B} (f : A → B) (l : list A) x y :
  NoDup (f <$> l) → x ∈ l → y ∈ l → f x = f y → x = y.
Proof.
  induction l as [|a l IH]; simpl; intros Hnd Hx Hy Hf;
    [by apply elem_of_nil in Hx|].
  apply NoDup_cons in Hnd as [Hnotin Hnd].
  apply elem_of_cons in Hx as [->|Hx]; apply elem_of_cons in Hy as [->|Hy].
  - done.
  - exfalso. apply Hnotin. rewrite Hf. apply list_elem_of_fmap. eauto.
  - exfalso. apply Hnotin. rewrite <- Hf. apply list_elem_of_fmap. eauto.
  - by apply IH.
Qed.

Lemma findTestFunctionAtLine_none lineNumber (testFuncPos : PosMap) :
  (∀ e, e ∈ testFuncPos → e.2.1 ≠ lineNumber) →
  findTestFunctionAtLine lineNumber testFuncPos = "".
Proof.
  induction testFuncPos as [|[k pos] m IH]; simpl; intros Hno; [done|].
  rewrite decide_False.
  - apply IH. intros e He. apply Hno. by right.
  - intros ->. by apply (Hno (k, pos)); [left|].
Qed.

Lemma findTestFunctionAtLine_some lineNumber (testFuncPos : PosMap) e :
  e ∈ testFuncPos → e.2.1 = lineNumber →
  ∃ pos, (findTestFunctionAtLine lineNumber testFuncPos, pos) ∈ testFuncPos
         ∧ pos.1 = lineNumber.
Proof.
  induction testFuncPos as [|[k pos] m IH]; simpl; intros He Hs;
    [by apply elem_of_nil in He|].
  destruct (decide (lineNumber = pos.1)) as [Heq|Hne].
  - exists pos. split; [left|done].
  - apply elem_of_cons in He as [->|He]; [simpl in Hs; congruence|].
    destruct (IH He Hs) as (pos' & Hin & Hpos'). exists pos'.
    split; [by right|done].
Qed.

(** X13: [findTestFunctionAtLine] returns the empty string when no entry
    of the map starts at the line, and otherwise the name of an entry
    that starts there.  When no two entries start on the same line, that
    name is the key of the one entry starting at the line, whatever the
    order in which the map is visited. *)
Theorem findTestFunctionAtLine_spec lineNumber (testFuncPos : PosMap) :
  ((∀ e, e ∈ testFuncPos → e.2.1 ≠ lineNumber) →
   findTestFunctionAtLine lineNumber testFuncPos = "") ∧
  (∀ e, e ∈ testFuncPos → e.2.1 = lineNumber →
     ∃ pos, (findTestFunctionAtLine lineNumber testFuncPos, pos)
              ∈ testFuncPos ∧ pos.1 = lineNumber) ∧
  (NoDup ((λ e, e.2.1) <$> testFuncPos) →
   ∀ e (visited : PosMap), visited ≡ₚ testFuncPos →
     e ∈ testFuncPos → e.2.1 = lineNumber →
     findTestFunctionAtLine lineNumber visited = e.1).
Proof.
  split_and!.
  - apply findTestFunctionAtLine_none.
  - apply findTestFunctionAtLine_some.
  - intros Hnd e visited Hperm He Hs.
    assert (e ∈ visited) as He' by by rewrite Hperm.
    destruct (findTestFunctionAtLine_some lineNumber visited e He' Hs)
      as (pos & Hin & Hpos).
    remember (findTestFunctionAtLine lineNumber visited) as found eqn:Hfound.
    rewrite Hperm in Hin.
    assert ((found, pos) = e) as <-; [|done].
    apply (NoDup_fmap_elem_inj (λ e : string * (Z * Z), e.2.1) testFuncPos);
      [done|done|done|]. simpl. congruence.
Qed.

(** * What the extraction returns *)

Lemma sorted_inBounds lines (testFuncPos : PosMap) f :
  len lines ≤ maxInt → Forall (validPos lines) testFuncPos →
  f ∈ createSortedFuncPositions testFuncPos →
  inBounds lines f ∧ startLine f ≤ endLine f.
Proof.
  intros Hmax Hvalid (e & He & ->)%elem_of_createSortedFuncPositions.
  rewrite Forall_forall in Hvalid. specialize (Hvalid e He).
  destruct (toFuncPos_valid lines e Hmax Hvalid) as [Hst Hen].
  destruct Hvalid as (Hs1 & Hse & He1).
  unfold inBounds. rewrite Hst, Hen. lia.
Qed.

Lemma separate_exact lines (testFuncPos : PosMap) :
  len lines ≤ maxInt → NoDup testFuncPos.*1 →
  Forall (validPos lines) testFuncPos →
  ∃ processed,
    markProcessedLines lines (createSortedFuncPositions testFuncPos)
      = Some processed ∧
    (∀ i, i ∈ processed ↔
          ∃ f, f ∈ createSortedFuncPositions testFuncPos ∧ claims lines f i) ∧
    separateTestAndNonTestContent lines testFuncPos
      = Some (blockAt lines <$> createSortedFuncPositions testFuncPos,
              collectNonTestLines lines processed).
Proof.
  intros Hmax Hnodup Hvalid.
  destruct (markProcessedLines_spec lines
              (createSortedFuncPositions testFuncPos)) as (p & Hp & Hmarked).
  exists p. split; [done|]. split; [done|].
  unfold separateTestAndNonTestContent. rewrite Hp. simpl.
  rewrite extractAllTestFunctions_map; [done|].
  intros f Hf.
  destruct (sorted_inBounds lines testFuncPos f Hmax Hvalid Hf) as [Hb _].
  split; [unfold inBounds in Hb; lia|].
  destruct (extract_of_sorted lines testFuncPos f Hnodup Hf Hb)
    as (cs & Hcs & _ & ->).
  unfold blockAt. by rewrite Hcs.
Qed.

Lemma slice_decompose (lines : list string) lo hi :
  0 ≤ lo →
  lines = take (Z.to_nat lo) lines ++ slice lines lo hi
          ++ drop (Z.to_nat (hi - lo + 1)) (drop (Z.to_nat lo) lines).
Proof.
  intros Hlo. unfold slice. by rewrite take_drop, take_drop.
Qed.

Lemma sublist_map {A B} (f : A → B) (l k : list A) :
  l `sublist_of` k → f <$> l `sublist_of` f <$> k.
Proof.
  induction 1; simpl; [constructor|by apply sublist_skip|by apply sublist_cons].
Qed.

Lemma indexed_snd lines : (indexed lines).*2 = lines.
Proof.
  unfold indexed. apply snd_zip. rewrite length_seqZ. unfold len. lia.
Qed.

Lemma unclaimedLines_sublist lines processed :
  unclaimedLines lines processed `sublist_of` lines.
Proof.
  unfold unclaimedLines. fold (indexed lines).
  etrans; [apply sublist_map, sublist_filter|]. by rewrite indexed_snd.
Qed.

(** X14: for distinct names and positions within the file,
    [separateTestAndNonTestContent] returns one block for each entry of
    the positions map, in ascending order of the start lines: the blocks
    correspond one to one, in their order, to the entries of the map
    sorted by start line, so the names of the blocks are the keys of the
    map, each once.  A block is a run of consecutive input lines that
    starts no later than the first line of its function and ends with its
    last line, and the remainder is a subsequence of the input lines in
    their order, closed by one empty line when it is not empty. *)
Theorem separateTestAndNonTestContent_shape lines (testFuncPos : PosMap) :
  len lines ≤ maxInt → NoDup testFuncPos.*1 →
  Forall (validPos lines) testFuncPos →
  ∃ testFuncs nonTestLines (sortedFuncs : list funcPos),
    separateTestAndNonTestContent lines testFuncPos
      = Some (testFuncs, nonTestLines) ∧
    sortedFuncs ≡ₚ toFuncPos <$> testFuncPos ∧
    StronglySorted (λ f g, startLine f ≤ startLine g) sortedFuncs ∧
    Forall2 (λ f tf,
               Name tf = name f ∧
               ∃ before after,
                 lines = before ++ Lines tf ++ after ∧
                 len before ≤ startLine f ∧
                 len before + len (Lines tf) = endLine f + 1)
      sortedFuncs testFuncs ∧
    testFuncs = blockAt lines <$> createSortedFuncPositions testFuncPos ∧
    Name <$> testFuncs ≡ₚ testFuncPos.*1 ∧
    (∀ f, f ∈ createSortedFuncPositions testFuncPos →
       ∃ before after,
         lines = before ++ Lines (blockAt lines f) ++ after ∧
         len before ≤ startLine f ∧
         len before + len (Lines (blockAt lines f)) = endLine f + 1) ∧
    ∃ remainder,
      remainder `sublist_of` lines ∧
      nonTestLines = match remainder with
                     | [] => []
                     | _ => remainder ++ [EmptyString]
                     end.
Proof.
  intros Hmax Hnodup Hvalid.
  destruct (separate_exact lines testFuncPos Hmax Hnodup Hvalid)
    as (p & Hp & Hmarked & Hsep).
  assert (∀ f, f ∈ createSortedFuncPositions testFuncPos →
            ∃ before after,
              lines = before ++ Lines (blockAt lines f) ++ after ∧
              len before ≤ startLine f ∧
              len before + len (Lines (blockAt lines f)) = endLine f + 1)
    as Hrun.
  { intros f Hf.
    destruct (sorted_inBounds lines testFuncPos f Hmax Hvalid Hf)
      as [(Hs0 & Hs1 & He0 & He1) Hse].
    destruct (findCommentStart_spec lines (startLine f))
      as (cs & Hcs & Hr & _); [lia|].
    unfold blockAt. simpl. rewrite Hcs. simpl.
    exists (take (Z.to_nat cs) lines),
      (drop (Z.to_nat (endLine f - cs + 1)) (drop (Z.to_nat cs) lines)).
    split; [by apply slice_decompose; lia|].
    unfold slice, len in *.
    rewrite length_take, length_take, length_drop. lia. }
  eexists _, _, (createSortedFuncPositions testFuncPos).
  split; [exact Hsep|].
  split; [apply createSortedFuncPositions_Permutation|].
  split; [apply createSortedFuncPositions_sorted|].
  split.
  { apply Forall2_fmap_r, Forall_Forall2_diag, Forall_forall.
    intros f Hf. split; [done|]. by apply Hrun. }
  split; [done|]. split_and!.
  - rewrite <- list_fmap_compose.
    rewrite createSortedFuncPositions_Permutation.
    rewrite <- list_fmap_compose. done.
  - done.
  - exists (unclaimedLines lines p). split; [apply unclaimedLines_sublist|].
    rewrite collectNonTestLines_spec. by destruct (unclaimedLines lines p).
Qed.

Lemma separateTestAndNonTestContent_shape_witness :
  ∃ testFuncs nonTestLines (sortedFuncs : list funcPos),
    separateTestAndNonTestContent goldenLines goldenPos
      = Some (testFuncs, nonTestLines) ∧
    sortedFuncs ≡ₚ toFuncPos <$> goldenPos ∧
    StronglySorted (λ f g, startLine f ≤ startLine g) sortedFuncs ∧
    Name <$> testFuncs ≡ₚ goldenPos.*1.
Proof.
  destruct (separateTestAndNonTestContent_shape goldenLines goldenPos)
    as (testFuncs & nonTestLines & sortedFuncs & Hsep & Hperm & Hsorted
        & _ & _ & Hnames & _).
  - unfold len, maxInt. simpl. lia.
  - apply (bool_decide_unpack _). vm_compute. exact I.
  - constructor; [|constructor; [|constructor]];
      unfold validPos, len; simpl; lia.
  - exists testFuncs, nonTestLines, sortedFuncs.
    split; [exact Hsep|]. split; [exact Hperm|].
    split; [exact Hsorted|exact Hnames].
Defined.

(** * The order in which the map is visited *)

Lemma mapGet_perm (m m' : PosMap) k :
  m' ≡ₚ m → NoDup m.*1 → mapGet m' k = mapGet m k.
Proof.
  intros Hperm Hnodup.
  assert (NoDup m'.*1) as Hnodup' by by rewrite Hperm.
  destruct (decide (k ∈ m.*1)) as [Hin|Hout].
  - apply mapGet_NoDup; [done|]. rewrite Hperm. by apply mapGet_elem_of.
  - rewrite (mapGet_missing m k Hout). apply mapGet_missing.
    by rewrite Hperm.
Qed.

(** [extractAllTestFunctions] is one extraction for each function that
    passes the check of its start line. *)
Lemma extractAllTestFunctions_mapM lines sortedFuncs (testFuncPos : PosMap) :
  extractAllTestFunctions lines sortedFuncs testFuncPos =
  mapM (λ f, fst <$> extractTestFunctionWithComments lines (name f)
                       testFuncPos)
    (filter (λ f, startLine f >= 0 ∧ startLine f < len lines) sortedFuncs).
Proof.
  induction sortedFuncs as [|f fs IH]; [done|].
  rewrite filter_cons. simpl. destruct (decide _) as [Hin|Hout].
  - simpl. rewrite IH.
    destruct (extractTestFunctionWithComments _ _ _) as [r|]; [|done].
    simpl. by destruct (mapM _ _).
  - done.
Qed.

Lemma mapM_perm_Some {A B} (g : A → option B) l l' a :
  l ≡ₚ l' → mapM g l = Some a → ∃ b, mapM g l' = Some b ∧ a ≡ₚ b.
Proof.
  intros Hperm. revert a.
  induction Hperm as [|x l l' _ IH|x y l|l l' l'' _ IH1 _ IH2]; intros a Ha.
  - exists a. done.
  - simpl in *. destruct (g x) as [y|]; [|done]. simpl in *.
    destruct (mapM g l) as [k|] eqn:Hk; [|done]. simpl in Ha.
    destruct (IH k eq_refl) as (k' & -> & Hkk'). simpl.
    exists (y :: k'). split; [done|]. injection Ha as <-. by constructor.
  - simpl in *. destruct (g y) as [y'|]; [|done]. simpl in *.
    destruct (g x) as [x'|]; [|done]. simpl in *.
    destruct (mapM g l) as [k|]; [|done]. simpl in *.
    exists (x' :: y' :: k). split; [done|]. injection Ha as <-.
    apply Permutation_swap.
  - destruct (IH1 a Ha) as (b & Hb & Hab).
    destruct (IH2 b Hb) as (c & Hc & Hbc).
    exists c. split; [done|]. by etrans.
Qed.

Lemma mapM_perm_None {A B} (g : A → option B) l l' :
  l ≡ₚ l' → mapM g l = None → mapM g l' = None.
Proof.
  intros Hperm Hnone. destruct (mapM g l') as [b|] eqn:Hb; [|done].
  symmetry in Hperm.
  destruct (mapM_perm_Some g l' l b Hperm Hb) as (a & Ha & _). congruence.
Qed.

Lemma mapM_names lines (testFuncPos : PosMap) fs testFuncs :
  mapM (λ f, fst <$> extractTestFunctionWithComments lines (name f)
                       testFuncPos) fs = Some testFuncs →
  Name <$> testFuncs = name <$> fs.
Proof.
  intros H%mapM_Some_1. induction H as [|f tf fs tfs Hf _ IH]; [done|].
  simpl. f_equal; [|done].
  unfold extractTestFunctionWithComments in Hf.
  destruct (findCommentStart _ _); [|done]. simpl in Hf.
  destruct (mapM _ _); [|done]. simpl in Hf. by injection Hf as <-.
Qed.

Lemma notAfter_antisym (l : list TestFunction) x y :
  NoDup (Name <$> l) → x ∈ l → y ∈ l →
  notAfter lessByName x y → notAfter lessByName y x → x = y.
Proof.
  intros Hnd Hx Hy Hxy Hyx.
  apply (NoDup_fmap_elem_inj Name l); [done..|].
  apply notAfter_leb in Hxy, Hyx.
  apply String.leb_antisym; done.
Qed.

Lemma sortSlice_order_free (l l' : list TestFunction) :
  l' ≡ₚ l → NoDup (Name <$> l) →
  sortSlice lessByName l' = sortSlice lessByName l.
Proof.
  intros Hperm Hnd.
  assert (Transitive (notAfter (A:=TestFunction) lessByName)) as Htrans
    by (intros x y z; apply notAfter_trans).
  apply (Sorted_unique_strong (notAfter lessByName)).
  - intros x y Hx Hy. apply (notAfter_antisym l); [done| |].
    + by rewrite sortSlice_Permutation, Hperm in Hx.
    + by rewrite sortSlice_Permutation in Hy.
  - apply sortSlice_Sorted, lessByName_asym.
  - apply sortSlice_Sorted, lessByName_asym.
  - by rewrite !sortSlice_Permutation.
Qed.

Lemma headerLines_length testFuncs testFuncs' nonTestLines :
  length testFuncs' = length testFuncs →
  headerLines testFuncs' nonTestLines = headerLines testFuncs nonTestLines.
Proof.
  intros Hlen. unfold headerLines, len. rewrite Hlen.
  by repeat case_decide.
Qed.

Lemma BuildOutputContent_perm testFuncs testFuncs' nonTestLines :
  testFuncs' ≡ₚ testFuncs → NoDup (Name <$> testFuncs) →
  BuildOutputContent testFuncs' nonTestLines
  = BuildOutputContent testFuncs nonTestLines.
Proof.
  intros Hperm Hnd. rewrite !BuildOutputContent_emitted.
  rewrite (sortSlice_order_free testFuncs testFuncs') by done.
  rewrite (headerLines_length testFuncs testFuncs'); [done|].
  by rewrite Hperm.
Qed.

Lemma mapM_ext {A B} (g g' : A → option B) l :
  (∀ x, g x = g' x) → mapM g l = mapM g' l.
Proof.
  intros Hext. induction l as [|x l IH]; [done|]. simpl.
  by rewrite Hext, IH.
Qed.

(** X15: [BuildOutputContent] does not depend on the order of the test
    functions it is given: when their names are distinct, every
    reordering of the slice gives the same output. *)
Theorem BuildOutputContent_order_free testFuncs nonTestLines :
  NoDup (Name <$> testFuncs) →
  ∀ reordered, reordered ≡ₚ testFuncs →
    BuildOutputContent reordered nonTestLines
    = BuildOutputContent testFuncs nonTestLines.
Proof. intros Hnd reordered Hperm. by apply BuildOutputContent_perm. Qed.

Lemma BuildOutputContent_order_free_witness :
  BuildOutputContent
    [ {| Name := "Test_b"; Lines := ["func Test_b() {}"] |};
      {| Name := "Test_a"; Lines := ["func Test_a() {}"] |} ]
    ["package main"]
  = BuildOutputContent
      [ {| Name := "Test_a"; Lines := ["func Test_a() {}"] |};
        {| Name := "Test_b"; Lines := ["func Test_b() {}"] |} ]
      ["package main"].
Proof.
  apply (BuildOutputContent_order_free
           [ {| Name := "Test_a"; Lines := ["func Test_a() {}"] |};
             {| Name := "Test_b"; Lines := ["func Test_b() {}"] |} ]
           ["package main"]).
  - apply (bool_decide_unpack _). vm_compute. exact I.
  - apply Permutation_swap.
Defined.

Lemma separate_perm lines (m m' : PosMap) :
  m' ≡ₚ m → NoDup m.*1 →
  match separateTestAndNonTestContent lines m',
        separateTestAndNonTestContent lines m with
  | Some r', Some r => r'.1 ≡ₚ r.1 ∧ r'.2 = r.2 ∧ NoDup (Name <$> r.1)
  | None, None => True
  | _, _ => False
  end.
Proof.
  intros Hperm Hnodup.
  assert (createSortedFuncPositions m' ≡ₚ createSortedFuncPositions m) as Hfs.
  { rewrite !createSortedFuncPositions_Permutation. by rewrite Hperm. }
  unfold separateTestAndNonTestContent.
  destruct (markProcessedLines_spec lines (createSortedFuncPositions m'))
    as (p' & -> & Hp').
  destruct (markProcessedLines_spec lines (createSortedFuncPositions m))
    as (p & -> & Hp).
  assert (p' = p) as ->.
  { apply set_eq. intros i. rewrite Hp', Hp.
    split; intros (f & Hf & Hc); exists f; (split; [|done]).
    - by rewrite <- Hfs.
    - by rewrite Hfs. }
  simpl. rewrite !extractAllTestFunctions_mapM.
  set (inRange := λ f : funcPos, startLine f >= 0 ∧ startLine f < len lines).
  assert (filter inRange (createSortedFuncPositions m')
          ≡ₚ filter inRange (createSortedFuncPositions m)) as Hfilter
    by by rewrite Hfs.
  rewrite (mapM_ext
             (λ f, fst <$> extractTestFunctionWithComments lines (name f) m')
             (λ f, fst <$> extractTestFunctionWithComments lines (name f) m)).
  2:{ intros f. unfold extractTestFunctionWithComments.
      by rewrite (mapGet_perm m m' (name f) Hperm Hnodup). }
  set (g := λ f, fst <$> extractTestFunctionWithComments lines (name f) m).
  destruct (mapM g (filter inRange (createSortedFuncPositions m)))
    as [tfs|] eqn:Htfs.
  - symmetry in Hfilter.
    destruct (mapM_perm_Some g _ _ tfs Hfilter Htfs) as (tfs' & -> & Hpermt).
    simpl. split; [done|]. split; [done|].
    rewrite (mapM_names lines m _ tfs Htfs).
    eapply sublist_NoDup; [|apply sublist_map, sublist_filter].
    rewrite createSortedFuncPositions_Permutation.
    rewrite <- list_fmap_compose. done.
  - symmetry in Hfilter. by rewrite (mapM_perm_None g _ _ Hfilter Htfs).
Qed.

(** X16: the output does not depend on the order in which Go visits the
    positions map.  For distinct names and every two orders of the same
    entries, extraction followed by assembly gives the same result: both
    runs panic, or both return the same content. *)
Theorem assemble_order_free lines (testFuncPos : PosMap) :
  NoDup testFuncPos.*1 →
  ∀ visited : PosMap, visited ≡ₚ testFuncPos →
    assemble lines visited = assemble lines testFuncPos.
Proof.
  intros Hnodup visited Hperm. unfold assemble.
  pose proof (separate_perm lines testFuncPos visited Hperm Hnodup) as H.
  destruct (separateTestAndNonTestContent lines visited) as [[tfs' nt']|],
    (separateTestAndNonTestContent lines testFuncPos) as [[tfs nt]|];
    simpl in *; [|done..].
  destruct H as (Hpermt & -> & Hnd). f_equal.
  by apply BuildOutputContent_perm.
Qed.

Lemma assemble_order_free_witness :
  assemble sameLineLines [("Test_b", (2, 2)); ("Test_a", (2, 2))]
  = assemble sameLineLines sameLinePos.
Proof.
  apply (assemble_order_free sameLineLines sameLinePos).
  - apply (bool_decide_unpack _). vm_compute. exact I.
  - apply Permutation_swap.
Defined.

(** * Conservation of the lines *)

(** ** Splitting and joining *)

Lemma Split_app_line e s :
  newline ∉ bytes e →
  Split (e +:+ String newline s) newline = e :: Split s newline.
Proof.
  induction e as [|c e IH]; intros Hno.
  - rewrite append_nil_l. reflexivity.
  - rewrite append_cons. simpl.
    assert (c ≠ newline) as Hc.
    { intros ->. apply Hno. simpl. left. }
    rewrite decide_False by done. rewrite IH; [done|].
    intros Hin. apply Hno. simpl. by right.
Qed.

Lemma Split_no_line e : newline ∉ bytes e → Split e newline = [e].
Proof.
  induction e as [|c e IH]; intros Hno; [done|]. simpl.
  assert (c ≠ newline) as Hc.
  { intros ->. apply Hno. simpl. left. }
  rewrite decide_False by done. rewrite IH; [done|].
  intros Hin. apply Hno. simpl. by right.
Qed.

Lemma Split_Join ls :
  ls ≠ [] → Forall (λ l, newline ∉ bytes l) ls →
  Split (Join ls nl) newline = ls.
Proof.
  intros Hne Hall. induction Hall as [|e rest He Hrest IH]; [done|].
  destruct rest as [|e' rest].
  - simpl. by apply Split_no_line.
  - rewrite Join_cons by done. unfold nl at 1. rewrite append_cons, append_nil_l.
    rewrite Split_app_line by done. f_equal. by apply IH.
Qed.

Lemma Split_snoc_nl s : Split (s +:+ nl) newline = Split s newline ++ [""].
Proof.
  induction s as [|c s IH].
  - rewrite append_nil_l. reflexivity.
  - rewrite append_cons. simpl. rewrite IH.
    destruct (decide (c = newline)); [done|].
    pose proof (Split_not_nil s newline).
    by destruct (Split s newline).
Qed.

(** ** Lines that are not empty *)

Lemma nonBlank_app a b : nonBlank (a ++ b) = nonBlank a ++ nonBlank b.
Proof. apply filter_app. Qed.

Lemma nonBlank_cons_empty x l : isEmptyLine x → nonBlank (x :: l) = nonBlank l.
Proof.
  intros Hx. unfold nonBlank. rewrite filter_cons.
  by rewrite decide_False by (intros Hne; by apply Hne).
Qed.

Lemma nonBlank_cons_line x l :
  ¬ isEmptyLine x → nonBlank (x :: l) = x :: nonBlank l.
Proof.
  intros Hx. unfold nonBlank. rewrite filter_cons. by rewrite decide_True.
Qed.

Lemma nonBlank_dropTrailingEmpty l :
  nonBlank (dropTrailingEmpty l) = nonBlank l.
Proof.
  induction l as [|x l IH]; [done|]. simpl.
  destruct (dropTrailingEmpty l) as [|y rest].
  - case_bool_decide as Hx.
    + rewrite nonBlank_cons_empty by done. exact IH.
    + rewrite !(nonBlank_cons_line x) by done. by rewrite IH.
  - destruct (decide (TrimSpace x = "")) as [Hx|Hx].
    + rewrite !(nonBlank_cons_empty x) by done. exact IH.
    + rewrite !(nonBlank_cons_line x) by done. by rewrite IH.
Qed.

Lemma nonBlank_dropLeadingEmpty l : nonBlank (dropLeadingEmpty l) = nonBlank l.
Proof.
  induction l as [|x l IH]; [done|]. simpl. case_bool_decide as Hx; [|done].
  by rewrite nonBlank_cons_empty.
Qed.

Lemma nonBlank_emittedBlocks testFuncs :
  nonBlank (emittedBlocks testFuncs) = nonBlank (testFuncs ≫= Lines).
Proof.
  induction testFuncs as [|tf rest IH]; [done|].
  simpl. rewrite !nonBlank_app, nonBlank_dropLeadingEmpty. f_equal.
  destruct rest as [|tf' rest]; [done|].
  rewrite nonBlank_cons_empty by apply isEmptyLine_empty. done.
Qed.

Lemma nonBlank_headerLines testFuncs nonTestLines :
  nonBlank (headerLines testFuncs nonTestLines) = nonBlank nonTestLines.
Proof.
  unfold headerLines. case_decide; [|done].
  rewrite nonBlank_app, nonBlank_dropTrailingEmpty.
  rewrite (nonBlank_cons_empty "" []) by apply isEmptyLine_empty.
  apply app_nil_r.
Qed.

Lemma nonBlank_collectNonTestLines lines processed :
  nonBlank (collectNonTestLines lines processed)
  = nonBlank (unclaimedLines lines processed).
Proof.
  rewrite collectNonTestLines_spec.
  destruct (unclaimedLines lines processed) as [|x rest]; [done|].
  rewrite nonBlank_app.
  rewrite (nonBlank_cons_empty "" []) by apply isEmptyLine_empty.
  apply app_nil_r.
Qed.

(** ** Lines without a newline *)

Lemma Forall_sublist_of {A} (P : A → Prop) (l k : list A) :
  l `sublist_of` k → Forall P k → Forall P l.
Proof.
  induction 1 as [|x l k _ IH|x l k _ IH]; intros Hk; [done|..].
  - apply Forall_cons in Hk as [? ?]. constructor; [done|by apply IH].
  - apply Forall_cons in Hk as [? ?]. by apply IH.
Qed.

Lemma Forall_dropTrailingEmpty (P : string → Prop) l :
  Forall P l → Forall P (dropTrailingEmpty l).
Proof.
  induction 1 as [|x l Hx _ IH]; [done|]. simpl.
  destruct (dropTrailingEmpty l) as [|y rest].
  - case_bool_decide; [done|]. by constructor.
  - by constructor.
Qed.

Lemma Forall_dropLeadingEmpty (P : string → Prop) l :
  Forall P l → Forall P (dropLeadingEmpty l).
Proof.
  induction 1 as [|x l Hx Hl IH]; [done|]. simpl.
  case_bool_decide; [done|]. by constructor.
Qed.

Lemma Forall_emittedBlocks (P : string → Prop) testFuncs :
  P "" → Forall (λ tf, Forall P (Lines tf)) testFuncs →
  Forall P (emittedBlocks testFuncs).
Proof.
  intros Hempty. induction 1 as [|tf rest Htf _ IH]; [done|]. simpl.
  apply Forall_app. split; [by apply Forall_dropLeadingEmpty|].
  destruct rest; [done|]. by constructor.
Qed.

Lemma Forall_headerLines (P : string → Prop) testFuncs nonTestLines :
  P "" → Forall P nonTestLines → Forall P (headerLines testFuncs nonTestLines).
Proof.
  intros Hempty Hall. unfold headerLines. case_decide; [|done].
  apply Forall_app. split; [by apply Forall_dropTrailingEmpty|].
  by constructor.
Qed.

Lemma Forall_collectNonTestLines (P : string → Prop) lines processed :
  P "" → Forall P lines → Forall P (collectNonTestLines lines processed).
Proof.
  intros Hempty Hall. rewrite collectNonTestLines_spec.
  assert (Forall P (unclaimedLines lines processed)) as Hun.
  { eapply Forall_sublist_of; [apply unclaimedLines_sublist|done]. }
  destruct (unclaimedLines lines processed) as [|x rest]; [done|].
  apply Forall_app. split; [done|]. by constructor.
Qed.

Lemma Forall_slice (P : string → Prop) lines lo hi :
  Forall P lines → Forall P (slice lines lo hi).
Proof. intros Hall. unfold slice. by apply Forall_take, Forall_drop. Qed.

Lemma nonBlank_Split_output outputLines :
  Forall (λ l, newline ∉ bytes l) outputLines →
  nonBlank (Split (withFinalNewline (Join outputLines nl)) newline)
  = nonBlank outputLines.
Proof.
  intros Hall. destruct outputLines as [|x rest]; [by vm_compute|].
  unfold withFinalNewline. destruct (HasSuffix _ _).
  - by rewrite Split_Join.
  - rewrite Split_snoc_nl, Split_Join by done.
    rewrite nonBlank_app.
    rewrite (nonBlank_cons_empty "" []) by apply isEmptyLine_empty.
    apply app_nil_r.
Qed.

(** ** Lines by their indices *)

Lemma elem_of_indexed lines i l :
  (i, l) ∈ indexed lines ↔ index lines i = Some l.
Proof.
  unfold indexed. rewrite list_elem_of_lookup. split.
  - intros (j & Hj). apply lookup_zip_with_Some in Hj
      as (i' & l' & [= <- <-] & Hi & Hl).
    apply lookup_seqZ in Hi as [-> Hlt]. apply index_Some.
    split; [lia|]. by replace (Z.to_nat (0 + Z.of_nat j)) with j by lia.
  - intros [Hi Hl]%index_Some. exists (Z.to_nat i).
    apply lookup_zip_with_Some. exists i, l. split; [done|]. split; [|done].
    apply lookup_seqZ. split; [lia|].
    apply lookup_lt_Some in Hl. unfold len. lia.
Qed.

Lemma nonBlank_snd (qs : list (Z * string)) :
  nonBlank qs.*2 = (filter (λ q, TrimSpace q.2 ≠ "") qs).*2.
Proof.
  induction qs as [|[i l] qs IH]; [done|]. rewrite fmap_cons. cbn [snd].
  destruct (decide (TrimSpace l = "")) as [He|Hne].
  - rewrite nonBlank_cons_empty by done.
    rewrite filter_cons_False by (simpl; intros Hne; by apply Hne).
    exact IH.
  - rewrite nonBlank_cons_line by done.
    rewrite filter_cons_True by done. rewrite fmap_cons. cbn [snd].
    by rewrite IH.
Qed.

Lemma filter_ext_in {A} (P Q : A → Prop)
    `{!∀ x, Decision (P x), !∀ x, Decision (Q x)} (l : list A) :
  (∀ x, x ∈ l → P x ↔ Q x) → filter P l = filter Q l.
Proof.
  induction l as [|x l IH]; intros Hext; [done|].
  rewrite !filter_cons.
  assert (filter P l = filter Q l) as ->.
  { apply IH. intros y Hy. apply Hext. by right. }
  destruct (decide (P x)) as [HP|HP], (decide (Q x)) as [HQ|HQ]; try done.
  - exfalso. apply HQ. apply Hext; [left|done].
  - exfalso. apply HP. apply Hext; [left|done].
Qed.

Lemma filter_range_zip (l : list string) lo hi k :
  (filter (λ q : Z * string, lo ≤ q.1 ≤ hi) (zip (seqZ k (len l)) l)).*2
  = take (Z.to_nat (hi + 1 - Z.max lo k)) (drop (Z.to_nat (lo - k)) l).
Proof.
  revert k. induction l as [|x l IH]; intros k.
  - simpl. by rewrite drop_nil, take_nil.
  - replace (len (x :: l)) with (Z.succ (len l))
      by (unfold len; simpl; lia).
    rewrite seqZ_cons by (unfold len; lia).
    replace (Z.pred (Z.succ (len l))) with (len l) by lia.
    change (zip (k :: seqZ (Z.succ k) (len l)) (x :: l))
      with ((k, x) :: zip (seqZ (Z.succ k) (len l)) l).
    rewrite filter_cons. cbn [fst].
    destruct (decide (lo ≤ k ≤ hi)) as [Hin|Hout].
    + rewrite fmap_cons, IH. cbn [snd].
      replace (Z.to_nat (lo - k)) with 0%nat by lia.
      replace (Z.to_nat (lo - Z.succ k)) with 0%nat by lia.
      replace (Z.to_nat (hi + 1 - Z.max lo k))
        with (S (Z.to_nat (hi + 1 - Z.max lo (Z.succ k)))) by lia.
      done.
    + rewrite IH. destruct (decide (k < lo)) as [Hlt|Hge].
      * replace (Z.to_nat (lo - k)) with (S (Z.to_nat (lo - Z.succ k))) by lia.
        simpl. f_equal. lia.
      * replace (Z.to_nat (hi + 1 - Z.max lo k)) with 0%nat by lia.
        replace (Z.to_nat (hi + 1 - Z.max lo (Z.succ k))) with 0%nat by lia.
        done.
Qed.

Lemma slice_indexed lines lo hi :
  0 ≤ lo →
  slice lines lo hi
  = (filter (λ q : Z * string, lo ≤ q.1 ≤ hi) (indexed lines)).*2.
Proof.
  intros Hlo. unfold indexed. rewrite filter_range_zip. unfold slice.
  f_equal; [lia|]. f_equal. lia.
Qed.

Lemma partition_by_ranges {X} (xs : list X) (lo hi : X → Z)
    (Q : Z * string → Prop) `{!∀ q, Decision (Q q)}
    (l : list (Z * string)) :
  NoDup xs →
  (∀ x y, x ∈ xs → y ∈ xs → x ≠ y → hi x < lo y ∨ hi y < lo x) →
  filter Q l ≡ₚ
  filter (λ q, Q q ∧ Forall (λ x, ¬ lo x ≤ q.1 ≤ hi x) xs) l
  ++ (xs ≫= λ x, filter (λ q, Q q ∧ lo x ≤ q.1 ≤ hi x) l).
Proof.
  induction xs as [|x xs IH]; intros Hnd Hdisj.
  - simpl. rewrite app_nil_r.
    rewrite (list_filter_iff Q (λ q, Q q ∧ Forall (λ x, ¬ lo x ≤ q.1 ≤ hi x) []));
      [done|].
    intros q. split; [by intros ?; split|by intros [? _]].
  - apply NoDup_cons in Hnd as [Hnotin Hnd].
    rewrite IH; [|done|intros y z Hy Hz; apply Hdisj; by right].
    simpl.
    rewrite <- (filter_app_complement (λ q : Z * string, lo x ≤ q.1 ≤ hi x)
                  (filter (λ q, Q q ∧ Forall (λ x, ¬ lo x ≤ q.1 ≤ hi x) xs) l)).
    rewrite !list_filter_filter.
    rewrite (list_filter_iff
               (λ q, (lo x ≤ q.1 ≤ hi x)
                     ∧ Q q ∧ Forall (λ x, ¬ lo x ≤ q.1 ≤ hi x) xs)
               (λ q, Q q ∧ lo x ≤ q.1 ≤ hi x)).
    2:{ intros q. split; [by intros (? & ? & ?)|].
        intros [HQ Hin]. split; [done|]. split; [done|].
        apply Forall_forall. intros y Hy Hiny.
        destruct (Hdisj x y) as [?|?]; [left|by right| |lia|lia].
        intros ->. done. }
    rewrite (list_filter_iff
               (λ q, ¬ (lo x ≤ q.1 ≤ hi x)
                     ∧ Q q ∧ Forall (λ x, ¬ lo x ≤ q.1 ≤ hi x) xs)
               (λ q, Q q ∧ Forall (λ x0, ¬ lo x0 ≤ q.1 ≤ hi x0) (x :: xs))).
    2:{ intros q. rewrite Forall_cons. tauto. }
    rewrite (Permutation_app_comm (filter (λ q, Q q ∧ lo x ≤ q.1 ≤ hi x) l)).
    by rewrite <- app_assoc.
Qed.

(** ** Conservation of the lines *)

Lemma nonBlank_bind {X} (xs : list X) (g : X → list string) :
  nonBlank (xs ≫= g) = xs ≫= (λ x, nonBlank (g x)).
Proof.
  induction xs as [|x xs IH]; [done|].
  by rewrite !bind_cons, nonBlank_app, IH.
Qed.

Lemma snd_bind {X} (xs : list X) (g : X → list (Z * string)) :
  (xs ≫= g).*2 = xs ≫= (λ x, (g x).*2).
Proof.
  induction xs as [|x xs IH]; [done|].
  by rewrite !bind_cons, fmap_app, IH.
Qed.

Lemma bind_ext_in {X Y} (xs : list X) (g g' : X → list Y) :
  (∀ x, x ∈ xs → g x = g' x) → xs ≫= g = xs ≫= g'.
Proof.
  induction xs as [|x xs IH]; intros Hext; [done|]. rewrite !bind_cons.
  rewrite (Hext x) by left. f_equal. apply IH. intros y Hy. apply Hext.
  by right.
Qed.

Lemma bind_fmap {X Y W} (f : X → Y) (g : Y → list W) (xs : list X) :
  (f <$> xs) ≫= g = xs ≫= (λ x, g (f x)).
Proof.
  induction xs as [|x xs IH]; [done|].
  by rewrite fmap_cons, !bind_cons, IH.
Qed.

(** The block of a function within the file, by its indices. *)
Lemma block_range lines e :
  len lines ≤ maxInt → validPos lines e →
  let f := toFuncPos e in
  inBounds lines f ∧
  findCommentStart lines (startLine f) = Some (blockStart lines f) ∧
  0 ≤ blockStart lines f ≤ startLine f ∧ startLine f ≤ endLine f ∧
  startLine f = e.2.1 - 1 ∧ endLine f = e.2.2 - 1 ∧
  (∀ j l, blockStart lines f ≤ j < startLine f → index lines j = Some l →
          isLeadingLine l).
Proof.
  intros Hmax Hv f.
  destruct (toFuncPos_valid lines e Hmax Hv) as [Hst Hen].
  destruct Hv as (Hs1 & Hse & He1). fold f in Hst, Hen.
  destruct (findCommentStart_spec lines (startLine f))
    as (cs & Hcs & Hr & Hrun & _); [lia|].
  assert (blockStart lines f = cs) as ->
    by (unfold blockStart; by rewrite Hcs).
  split_and!; try done; try lia; try (unfold inBounds; lia).
Qed.

Lemma claims_nonBlank lines e i l :
  len lines ≤ maxInt → validPos lines e →
  index lines i = Some l → ¬ isEmptyLine l →
  claims lines (toFuncPos e) i
  ↔ blockStart lines (toFuncPos e) ≤ i ≤ endLine (toFuncPos e).
Proof.
  intros Hmax Hv Hl Hne.
  destruct (block_range lines e Hmax Hv)
    as (Hb & Hcs & Hr & Hse & Hst & Hen & _).
  assert (0 ≤ i < len lines) as Hi by (apply index_is_Some; eauto).
  destruct (findCommentEnd_spec lines (endLine (toFuncPos e)))
    as (ce & Hce & Hle & Hin & Hrun & _);
    [destruct Hb as (_ & _ & ? & _); lia|].
  split.
  - intros (_ & cs' & ce' & Hcs' & Hce' & Hrange & _).
    assert (cs' = blockStart lines (toFuncPos e)) as -> by congruence.
    assert (ce' = ce) as -> by congruence.
    split; [lia|].
    destruct (decide (i ≤ endLine (toFuncPos e))) as [|Hgt]; [done|].
    exfalso. apply Hne. apply (Hrun i); [lia|done].
  - intros Hrange. split; [done|].
    exists (blockStart lines (toFuncPos e)), ce.
    split; [done|]. split; [done|]. lia.
Qed.

Lemma blocks_disjoint lines (testFuncPos : PosMap) e e' :
  len lines ≤ maxInt → Forall (validPos lines) testFuncPos →
  separateDecls lines testFuncPos →
  e ∈ testFuncPos → e' ∈ testFuncPos → e ≠ e' →
  endLine (toFuncPos e) < blockStart lines (toFuncPos e')
  ∨ endLine (toFuncPos e') < blockStart lines (toFuncPos e).
Proof.
  intros Hmax Hvalid [Hsep Hlast] He He' Hne.
  rewrite Forall_forall in Hvalid.
  pose proof (Hvalid e He) as Hv. pose proof (Hvalid e' He') as Hv'.
  destruct (block_range lines e Hmax Hv)
    as (Hb & _ & Hr & Hse & Hst & Hen & Hrun).
  destruct (block_range lines e' Hmax Hv')
    as (Hb' & _ & Hr' & Hse' & Hst' & Hen' & Hrun').
  assert (∀ a b, a ∈ testFuncPos → validPos lines a →
            a.2.2 < b.2.1 →
            (∀ j l, blockStart lines (toFuncPos b) ≤ j < b.2.1 - 1 →
                    index lines j = Some l → isLeadingLine l) →
            a.2.2 - 1 < blockStart lines (toFuncPos b)) as Hstep.
  { intros a b Ha (Ha1 & Ha2 & Ha3) Hab Hrunb.
    destruct (decide (a.2.2 - 1 < blockStart lines (toFuncPos b)))
      as [|Hge]; [done|]. exfalso.
    destruct (proj2 (index_is_Some lines (a.2.2 - 1))) as [l Hl]; [lia|].
    apply (Hlast a l Ha Hl). apply (Hrunb (a.2.2 - 1)); [lia|done]. }
  destruct (Hsep e e' He He' Hne) as [Hlt|Hlt].
  - left. rewrite Hen. apply Hstep; [done|done|done|].
    by rewrite <- Hst'.
  - right. rewrite Hen'. apply Hstep; [done|done|done|].
    by rewrite <- Hst.
Qed.

Lemma assemble_keeps_lines lines (testFuncPos : PosMap) :
  len lines ≤ maxInt → NoDup testFuncPos.*1 →
  Forall (validPos lines) testFuncPos →
  separateDecls lines testFuncPos →
  Forall (λ l, newline ∉ bytes l) lines →
  ∃ output, assemble lines testFuncPos = Some output ∧
            nonBlank (Split output newline) ≡ₚ nonBlank lines.
Proof.
  intros Hmax Hnodup Hvalid Hdecls Hlines.
  destruct (separate_exact lines testFuncPos Hmax Hnodup Hvalid)
    as (p & Hp & Hmarked & Hsep).
  unfold assemble. rewrite Hsep. simpl. eexists. split; [done|].
  set (fs := createSortedFuncPositions testFuncPos) in *.
  set (tfs := blockAt lines <$> fs).
  assert (newline ∉ bytes "") as Hempty by (intros H; by apply elem_of_nil in H).
  assert (Forall (λ tf, Forall (λ l, newline ∉ bytes l) (Lines tf)) tfs)
    as Htfs.
  { apply Forall_fmap, Forall_forall. intros f _. simpl.
    by apply Forall_slice. }
  rewrite BuildOutputContent_emitted, nonBlank_Split_output.
  2:{ apply Forall_app. split.
      - apply Forall_headerLines; [done|].
        by apply Forall_collectNonTestLines.
      - apply Forall_emittedBlocks; [done|].
        by rewrite sortSlice_Permutation. }
  rewrite nonBlank_app, nonBlank_headerLines, nonBlank_collectNonTestLines,
    nonBlank_emittedBlocks.
  rewrite nonBlank_bind, sortSlice_Permutation. unfold tfs.
  rewrite bind_fmap.
  unfold fs at 1. rewrite createSortedFuncPositions_Permutation, bind_fmap.
  (* the lines of the file, by their indices *)
  assert (nonBlank lines
          = (filter (λ q : Z * string, TrimSpace q.2 ≠ "") (indexed lines)).*2)
    as -> by by rewrite <- nonBlank_snd, indexed_snd.
  set (lo := λ e : string * (Z * Z), blockStart lines (toFuncPos e)).
  set (hi := λ e : string * (Z * Z), endLine (toFuncPos e)).
  rewrite (partition_by_ranges testFuncPos lo hi
             (λ q, TrimSpace q.2 ≠ "") (indexed lines)).
  2:{ by eapply NoDup_fmap_1. }
  2:{ intros e e' He He' Hne. by eapply blocks_disjoint. }
  rewrite fmap_app, snd_bind.
  rewrite Forall_forall in Hvalid.
  apply Permutation_app.
  - (* the remainder *)
    unfold unclaimedLines. fold (indexed lines). rewrite nonBlank_snd.
    rewrite list_filter_filter.
    rewrite (filter_ext_in
               (λ q : Z * string, TrimSpace q.2 ≠ "" ∧ q.1 ∉ p)
               (λ q, TrimSpace q.2 ≠ ""
                     ∧ Forall (λ x, ¬ lo x ≤ q.1 ≤ hi x) testFuncPos));
      [done|].
    intros [i l] Hq%elem_of_indexed. simpl.
    split; intros [Hne Hout]; (split; [done|]).
    + apply Forall_forall. intros e He Hin. apply Hout, Hmarked.
      exists (toFuncPos e). split.
      { apply elem_of_createSortedFuncPositions. eauto. }
      by apply (claims_nonBlank lines e i l Hmax (Hvalid e He) Hq Hne).
    + intros (f & (e & He & ->)%elem_of_createSortedFuncPositions & Hc)
        %Hmarked.
      rewrite Forall_forall in Hout. apply (Hout e He).
      by apply (claims_nonBlank lines e i l Hmax (Hvalid e He) Hq Hne).
  - (* the blocks *)
    match goal with |- ?A ≡ₚ ?B => assert (A = B) as ->; [|done] end.
    apply bind_ext_in. intros e He.
    destruct (block_range lines e Hmax (Hvalid e He))
      as (_ & _ & Hr & _).
    unfold blockAt. cbn [Lines].
    change (default 0 (findCommentStart lines (startLine (toFuncPos e))))
      with (blockStart lines (toFuncPos e)).
    rewrite (slice_indexed lines (blockStart lines (toFuncPos e))
               (endLine (toFuncPos e))) by lia.
    rewrite nonBlank_snd, list_filter_filter. done.
Qed.

Lemma reorder_assemble content decls :
  reorder content decls
  = assemble (Split content newline) (buildTestFunctionPositions decls).
Proof. done. Qed.

(** X17: no line of code is lost, duplicated or invented.  When the test
    functions share no line, each lies within the file and ends in a line
    that is neither a comment nor empty, [reorder] returns a content whose
    lines that are not empty are, up to their order, the lines of the
    input that are not empty. *)
Theorem reorder_keeps_lines content decls :
  len (Split content newline) ≤ maxInt →
  Forall (validPos (Split content newline))
    (buildTestFunctionPositions decls) →
  separateDecls (Split content newline) (buildTestFunctionPositions decls) →
  ∃ output,
    reorder content decls = Some output ∧
    nonBlank (Split output newline) ≡ₚ nonBlank (Split content newline).
Proof.
  intros Hmax Hvalid Hdecls. rewrite reorder_assemble.
  apply assemble_keeps_lines; [done| |done|done|].
  - apply buildTestFunctionPositions_NoDup.
  - apply Split_no_sep.
Qed.

Lemma reorder_keeps_lines_witness :
  ∃ output,
    reorder (Join commentTravelsLines nl) commentTravelsDecls = Some output ∧
    nonBlank (Split output newline)
    ≡ₚ nonBlank (Split (Join commentTravelsLines nl) newline).
Proof.
  apply (reorder_keeps_lines (Join commentTravelsLines nl) commentTravelsDecls).
  - apply (bool_decide_unpack _). vm_compute. exact I.
  - change (buildTestFunctionPositions commentTravelsDecls)
      with [("Test_a", (4, 5)); ("Test_z", (12, 13))].
    constructor; [|constructor; [|constructor]];
      unfold validPos; simpl; split_and!;
      apply (bool_decide_unpack _); vm_compute; exact I.
  - change (buildTestFunctionPositions commentTravelsDecls)
      with [("Test_a", (4, 5)); ("Test_z", (12, 13))].
    split.
    + intros e e' He He' Hne.
      apply elem_of_cons in He as [->|He]; apply elem_of_cons in He' as [->|He'].
      * done.
      * apply list_elem_of_singleton in He' as ->. left. simpl. lia.
      * apply list_elem_of_singleton in He as ->. right. simpl. lia.
      * apply list_elem_of_singleton in He as ->.
        apply list_elem_of_singleton in He' as ->. done.
    + intros e l He Hl.
      apply elem_of_cons in He as [->|He];
        [|apply list_elem_of_singleton in He as ->];
        vm_compute in Hl; injection Hl as <-; intros Hlead;
        vm_compute in Hlead; discriminate.
Defined.

(** ** The end of the output *)

(** X18: the content [BuildOutputContent] returns always ends in a
    newline, and is never empty: with no test function and no other line
    it is a single newline. *)
Theorem BuildOutputContent_final_newline testFuncs nonTestLines :
  HasSuffix (BuildOutputContent testFuncs nonTestLines) nl = true ∧
  BuildOutputContent testFuncs nonTestLines ≠ "" ∧
  BuildOutputContent [] [] = nl.
Proof.
  assert (HasSuffix (BuildOutputContent testFuncs nonTestLines) nl = true)
    as Hsuffix.
  { unfold BuildOutputContent, withFinalNewline.
    destruct (HasSuffix (Join _ _) nl) eqn:Hs; [done|].
    apply HasSuffix_app. }
  split; [done|]. split; [|done].
  intros Hempty. rewrite Hempty in Hsuffix. by vm_compute in Hsuffix.
Qed.

(** ** Fixed points *)

(** X19: a file in the layout the program writes is returned unchanged.
    When the content is a header that does not end in a comment or an
    empty line, followed by test functions in strictly ascending order of
    their names, each preceded by one empty line and made of its comment
    lines and a declaration that does not end in a comment or an empty
    line, and the file ends in a newline, [reorder] returns the content
    itself, whatever the order of the entries of the positions map. *)
Theorem reorder_fixed_point content decls header bs :
  Split content newline = canonicalLines header bs →
  buildTestFunctionPositions decls ≡ₚ canonicalPos header bs →
  wellFormedHeader header → Forall wellFormedBlock bs → bs ≠ [] →
  ascendingNames bs →
  len (canonicalLines header bs) ≤ maxInt →
  reorder content decls = Some content.
Proof. apply sorted_layout_is_fixed_point. Qed.

Lemma reorder_fixed_point_witness :
  reorder sortedFile sortedFileDecls = Some sortedFile.
Proof.
  apply (reorder_fixed_point sortedFile sortedFileDecls
           sortedHeader sortedBlocks).
  - by vm_compute.
  - by vm_compute.
  - split; [done|]. intros x [= <-]. by vm_compute.
  - constructor; [|constructor; [|constructor]].
    + split_and!; [constructor|done| |];
        intros x [= <-]; by vm_compute.
    + split_and!; [constructor; [by vm_compute|constructor]|done| |];
        intros x [= <-]; by vm_compute.
  - done.
  - constructor; [constructor; [constructor|constructor]|].
    constructor; [by vm_compute|constructor].
  - by vm_compute.
Defined.

(** X20: a file without test functions comes back with one newline
    added: when no declared function has a name starting with [Test],
    [reorder] returns the content followed by a newline, for every
    content. *)
Theorem reorder_without_test_functions content decls :
  buildTestFunctionPositions decls = [] →
  reorder content decls = Some (content +:+ nl).
Proof. apply reorder_no_test_functions. Qed.

Lemma reorder_without_test_functions_witness :
  reorder packageOnly [FuncDecl "helper" 3 4; GenDecl]
  = Some (packageOnly +:+ nl).
Proof.
  apply (reorder_without_test_functions packageOnly
           [FuncDecl "helper" 3 4; GenDecl]).
  reflexivity.
Defined.

(** * [Exec] and [main] *)

(** X21: when the input is read and parsed, [Exec] writes once, to the
    output path, the content [reorder] computes; it returns nil when the
    write succeeds and the error of the write, wrapped behind
    [failed to write output file: ], when it fails.  When the extraction
    panics nothing is written. *)
Theorem Exec_writes_the_reordered_content {World : Type}
    (ReadFile : World → string → string + error)
    (ParseFile : World → string → list Decl + error)
    (WriteFile : World → string → string → World * option error)
    (w : World) (pathInput pathOutput content : string) (decls : list Decl) :
  ReadFile w pathInput = inl content →
  ParseFile w pathInput = inl decls →
  (reorder content decls = None →
   Exec World ReadFile ParseFile WriteFile w pathInput pathOutput
   = (w, Panicked)) ∧
  (∀ output written,
     reorder content decls = Some output →
     WriteFile w pathOutput output = (written, None) →
     Exec World ReadFile ParseFile WriteFile w pathInput pathOutput
     = (written, Returned None)) ∧
  (∀ output written err,
     reorder content decls = Some output →
     WriteFile w pathOutput output = (written, Some err) →
     Exec World ReadFile ParseFile WriteFile w pathInput pathOutput
     = (written,
        Returned (Some (Wrapped "failed to write output file: " err))) ∧
     Unwrap (Wrapped "failed to write output file: " err) = Some err).
Proof.
  intros Hread Hparse.
  pose proof (Exec_writes_reorder ReadFile ParseFile WriteFile w pathInput
                pathOutput content decls Hread Hparse) as HExec.
  split_and!.
  - intros Hnone. by rewrite Hnone in HExec.
  - intros output written Hsome Hwrite.
    by rewrite Hsome, Hwrite in HExec.
  - intros output written err Hsome Hwrite.
    by rewrite Hsome, Hwrite in HExec.
Qed.

Lemma Exec_writes_the_reordered_content_witness :
  Exec MemWorld memReadFile memParseFile memWriteFile sortedWorld
    "a_test.go" "b_test.go"
  = ({| files := <["b_test.go" := sortedFile]> (files sortedWorld);
        parsed := parsed sortedWorld;
        readOnly := readOnly sortedWorld |}, Returned None).
Proof.
  destruct (Exec_writes_the_reordered_content memReadFile memParseFile
              memWriteFile sortedWorld "a_test.go" "b_test.go" sortedFile
              sortedFileDecls) as (_ & Hok & _).
  - reflexivity.
  - reflexivity.
  - apply (Hok sortedFile).
    + by vm_compute.
    + reflexivity.
Defined.

Lemma main_usage {World : Type}
    (ReadFile : World → string → string + error)
    (ParseFile : World → string → list Decl + error)
    (WriteFile : World → string → string → World * option error)
    (w : World) (args : list string) :
  len args = 0 ∨ len args > 2 →
  main World ReadFile ParseFile WriteFile w args = (w, Exit1 usageText).
Proof. intros Hn. unfold main. by rewrite decide_True. Qed.

Lemma main_paths {World : Type}
    (ReadFile : World → string → string + error)
    (ParseFile : World → string → list Decl + error)
    (WriteFile : World → string → string → World * option error)
    (w : World) (args : list string) pathInput pathOutput :
  args = [pathInput] ∧ pathOutput = pathInput
  ∨ args = [pathInput; pathOutput] →
  main World ReadFile ParseFile WriteFile w args =
  match Exec World ReadFile ParseFile WriteFile w pathInput pathOutput with
  | (w', Returned (Some err)) => (w', Exit1 (Error err +:+ nl))
  | (w', Returned None) => (w', Exit0)
  | (w', Panicked) => (w', ExitPanic)
  end.
Proof. by intros [[-> ->]| ->]. Qed.

(** X22: the command.  With no path or more than two, [main] prints the
    usage error and exits with status 1 without reading or writing a
    file.  With one path the file is rewritten in place, with two the
    second is the output.  It then exits with status 0 exactly when
    [Exec] returns nil; when the input cannot be read or parsed it prints
    the wrapped error of the collaborator, exits with status 1 and has
    written nothing. *)
Theorem main_spec {World : Type}
    (ReadFile : World → string → string + error)
    (ParseFile : World → string → list Decl + error)
    (WriteFile : World → string → string → World * option error)
    (w : World) (args : list string) :
  (len args = 0 ∨ len args > 2 →
   main World ReadFile ParseFile WriteFile w args = (w, Exit1 usageText)) ∧
  (∀ pathInput pathOutput,
     args = [pathInput] ∧ pathOutput = pathInput
     ∨ args = [pathInput; pathOutput] →
     (∀ w',
        main World ReadFile ParseFile WriteFile w args = (w', Exit0) ↔
        Exec World ReadFile ParseFile WriteFile w pathInput pathOutput
        = (w', Returned None)) ∧
     (∀ e, ReadFile w pathInput = inr e →
        main World ReadFile ParseFile WriteFile w args
        = (w, Exit1 ("failed to read input file: " +:+ Error e +:+ nl))) ∧
     (∀ content e,
        ReadFile w pathInput = inl content → ParseFile w pathInput = inr e →
        main World ReadFile ParseFile WriteFile w args
        = (w, Exit1 ("failed to parse Go file: " +:+ Error e +:+ nl)))).
Proof.
  split; [apply main_usage|].
  intros pathInput pathOutput Hargs.
  rewrite (main_paths ReadFile ParseFile WriteFile w args pathInput pathOutput
             Hargs).
  split_and!.
  - intros w'.
    destruct (Exec World ReadFile ParseFile WriteFile w pathInput pathOutput)
      as [w'' [[err|]|]]; split; intros H; by simplify_eq.
  - intros e Hread. unfold Exec, ParseGoFile. rewrite Hread. done.
  - intros content e Hread Hparse. unfold Exec, ParseGoFile.
    rewrite Hread, Hparse. done.
Qed.

(** X24: [ParseGoFile] returns the content of the file cut at its
    newlines: when the file is read and parsed, the lines it returns,
    joined by newlines, are the content read; there is at least one line
    and no line holds a newline.  The declarations are those of the
    parser. *)
Theorem ParseGoFile_lines {World : Type}
    (ReadFile : World → string → string + error)
    (ParseFile : World → string → list Decl + error)
    (w : World) (filePath content : string) (decls : list Decl) :
  ReadFile w filePath = inl content →
  ParseFile w filePath = inl decls →
  ∃ lines,
    ParseGoFile World ReadFile ParseFile w filePath = inl (lines, decls) ∧
    Join lines nl = content ∧
    lines ≠ [] ∧
    Forall (λ l, newline ∉ bytes l) lines.
Proof.
  intros Hread Hparse. exists (Split content newline).
  unfold ParseGoFile. rewrite Hread, Hparse.
  split; [done|]. split; [apply Join_Split|].
  split; [apply Split_not_nil|apply Split_no_sep].
Qed.

Lemma ParseGoFile_lines_witness :
  ∃ lines,
    ParseGoFile MemWorld memReadFile memParseFile sortedWorld "a_test.go"
      = inl (lines, sortedFileDecls) ∧
    Join lines nl = sortedFile.
Proof.
  destruct (ParseGoFile_lines memReadFile memParseFile sortedWorld
              "a_test.go" sortedFile sortedFileDecls)
    as (lines & Hparse & Hjoin & _).
  - reflexivity.
  - reflexivity.
  - exists lines. split; [exact Hparse|exact Hjoin].
Defined.

(** * Functions that start outside the file *)

Lemma filter_none {A} (P : A → Prop) `{!∀ x, Decision (P x)} (l : list A) :
  Forall (λ x, ¬ P x) l → filter P l = [].
Proof.
  induction 1 as [|x l Hx _ IH]; [done|].
  by rewrite filter_cons_False.
Qed.

Lemma separate_outside lines (testFuncPos : PosMap) :
  Forall (λ e, ¬ (startLine (toFuncPos e) >= 0
                  ∧ startLine (toFuncPos e) < len lines)) testFuncPos →
  separateTestAndNonTestContent lines testFuncPos
  = Some ([], collectNonTestLines lines ∅).
Proof.
  intros Hout. rewrite Forall_forall in Hout.
  unfold separateTestAndNonTestContent.
  destruct (markProcessedLines_spec lines
              (createSortedFuncPositions testFuncPos)) as (p & -> & Hp).
  assert (p = ∅) as ->.
  { apply set_eq. intros i. rewrite Hp. split; [|by intros ?%elem_of_empty].
    intros (f & (e & He & ->)%elem_of_createSortedFuncPositions & Hb & _).
    exfalso. apply (Hout e He). unfold inBounds in Hb. lia. }
  simpl. rewrite extractAllTestFunctions_mapM.
  assert (filter (λ f, startLine f >= 0 ∧ startLine f < len lines)
            (createSortedFuncPositions testFuncPos) = []) as ->; [|done].
  apply filter_none, Forall_forall.
  intros f (e & He & ->)%elem_of_createSortedFuncPositions. by apply Hout.
Qed.

(** X23: a function whose start line is outside the file is ignored.
    When every entry of the positions map starts at line 0 or below, or
    after the last line, [separateTestAndNonTestContent] returns no test
    function and leaves every line of the file in the remainder, closed
    by one empty line; no line is read out of range, whatever the end
    lines are. *)
Theorem separateTestAndNonTestContent_start_outside
    lines (testFuncPos : PosMap) :
  len lines ≤ maxInt → lines ≠ [] →
  Forall (λ e, - maxInt ≤ e.2.1 ≤ 0 ∨ len lines < e.2.1 ≤ maxInt)
    testFuncPos →
  separateTestAndNonTestContent lines testFuncPos
  = Some ([], lines ++ [EmptyString]).
Proof.
  intros Hmax Hne Hout. rewrite separate_outside.
  - unfold collectNonTestLines. rewrite collectNonTestLines_loop_empty.
    rewrite decide_True; [done|].
    unfold len. destruct lines; [done|simpl; lia].
  - eapply Forall_impl; [done|]. intros [k [s e]] Hs. simpl in *.
    unfold maxInt, len in *. rewrite wrap_id by lia. lia.
Qed.

Lemma separateTestAndNonTestContent_start_outside_witness :
  separateTestAndNonTestContent adjacentLines
    [("Test_a", (0, 2)); ("Test_b", (6, 9))]
  = Some ([], adjacentLines ++ [EmptyString]).
Proof.
  apply (separateTestAndNonTestContent_start_outside adjacentLines
           [("Test_a", (0, 2)); ("Test_b", (6, 9))]).
  - unfold len, maxInt. simpl. lia.
  - discriminate.
  - constructor; [|constructor; [|constructor]];
      unfold len, maxInt; simpl; lia.
Defined.

(** * The helpers on the inputs of the test suite *)

Example golden_isLinePartOfTestFunction :
  (λ i, isLinePartOfTestFunction i partLines [("Test_alpha", (4, 6))])
    <$> [1; 2; 3; 4; 5; 6; 7]
  = Some <$> [true; false; true; true; true; false; false].
Proof. vm_compute. reflexivity. Qed.
Example golden_findTestFunctionAtLine :
  findTestFunctionAtLine 5 [("Test_alpha", (5, 7)); ("Test_beta", (10, 12))] = "Test_alpha" ∧
  findTestFunctionAtLine 10 [("Test_alpha", (5, 7)); ("Test_beta", (10, 12))] = "Test_beta" ∧
  findTestFunctionAtLine 3 [("Test_alpha", (5, 7)); ("Test_beta", (10, 12))] = "" ∧
  findTestFunctionAtLine 6 [("Test_alpha", (5, 7)); ("Test_beta", (10, 12))] = "".
Proof. vm_compute. done. Qed.

(** * Attribution of comments and ownership of lines *)

(** ** The remainder, piece by piece *)





(** ** The comment above the first test function *)



(** ** Ownership of the lines *)

Lemma inBlock_claims lines e i :
  len lines ≤ maxInt → validPos lines e →
  inBlock lines (toFuncPos e) i → claims lines (toFuncPos e) i.
Proof.
  intros Hmax Hv Hin.
  destruct (block_range lines e Hmax Hv)
    as (Hb & Hcs & Hr & Hse & Hst & Hen & _).
  destruct (findCommentEnd_spec lines (endLine (toFuncPos e)))
    as (ce & Hce & Hle & _); [destruct Hb as (_ & _ & ? & _); lia|].
  split; [done|]. exists (blockStart lines (toFuncPos e)), ce.
  unfold inBlock in Hin. destruct Hb as (_ & _ & _ & ?).
  split; [done|]. split; [done|]. lia.
Qed.

(** A line marked for a function outside the visible lines of its block
    is an empty line after the last line of the function. *)
Lemma claims_padding lines e i l :
  len lines ≤ maxInt → validPos lines e →
  index lines i = Some l →
  claims lines (toFuncPos e) i → ¬ inBlock lines (toFuncPos e) i →
  isEmptyLine l ∧ endLine (toFuncPos e) < i.
Proof.
  intros Hmax Hv Hl Hc Hout.
  destruct (decide (TrimSpace l = "")) as [Hempty|Hne].
  - split; [done|].
    destruct (block_range lines e Hmax Hv) as (_ & Hcs & _).
    destruct Hc as (_ & cs & ce & Hcs' & _ & Hrange & _).
    assert (cs = blockStart lines (toFuncPos e)) as -> by congruence.
    unfold inBlock in Hout. lia.
  - exfalso. apply Hout.
    by apply (claims_nonBlank lines e i l Hmax Hv Hl Hne).
Qed.

Lemma inBlock_unique lines (testFuncPos : PosMap) e e' i :
  len lines ≤ maxInt → Forall (validPos lines) testFuncPos →
  separateDecls lines testFuncPos →
  e ∈ testFuncPos → e' ∈ testFuncPos →
  inBlock lines (toFuncPos e) i → inBlock lines (toFuncPos e') i → e = e'.
Proof.
  intros Hmax Hvalid Hdecls He He' Hi Hi'.
  destruct (decide (e = e')) as [|Hne]; [done|]. exfalso.
  destruct (blocks_disjoint lines testFuncPos e e' Hmax Hvalid Hdecls
              He He' Hne) as [Hlt|Hlt];
    unfold inBlock in *; lia.
Qed.

(** C3 (as amended). For declarations within the file that share no line
    and end in a line that is neither a comment nor empty: the remainder
    is made of the unmarked lines, in their original order, closed by one
    empty line when it is not empty; there is one block for each
    function, holding the lines from the first line the extraction takes
    for it to its last line.  Every line of the file is unmarked and in no
    block, or in the visible lines of exactly one block, or a marked empty
    line after the last line of a function, which is in no block.  The
    marks of two functions may meet, on empty lines only. *)
Theorem ownership_of_lines lines testFuncPos :
  len lines ≤ maxInt →
  NoDup testFuncPos.*1 →
  Forall (validPos lines) testFuncPos →
  separateDecls lines testFuncPos →
  let sortedFuncs := createSortedFuncPositions testFuncPos in
  ∃ processed testFuncs nonTestLines,
    markProcessedLines lines sortedFuncs = Some processed ∧
    separateTestAndNonTestContent lines testFuncPos
      = Some (testFuncs, nonTestLines) ∧
    nonTestLines =
      match unclaimedLines lines processed with
      | [] => []
      | remainder => remainder ++ [EmptyString]
      end ∧
    Forall2 (λ f tf, Name tf = name f ∧
                     Lines tf = slice lines (blockStart lines f) (endLine f))
      sortedFuncs testFuncs ∧
    (∀ f i, f ∈ sortedFuncs → inBlock lines f i →
       is_Some (index lines i) ∧
       slice lines (blockStart lines f) (endLine f)
         !! Z.to_nat (i - blockStart lines f) = index lines i) ∧
    (∀ i l, index lines i = Some l →
       ((i ∉ processed) ∧ ∀ f, f ∈ sortedFuncs → ¬ inBlock lines f i)
       ∨ (i ∈ processed ∧
          ∃ f, f ∈ sortedFuncs ∧ inBlock lines f i ∧
               ∀ g, g ∈ sortedFuncs → inBlock lines g i → g = f)
       ∨ (i ∈ processed ∧ isEmptyLine l ∧
          (∀ f, f ∈ sortedFuncs → ¬ inBlock lines f i) ∧
          ∃ f, f ∈ sortedFuncs ∧ endLine f < i ∧ claims lines f i)) ∧
    (∀ f g i l, f ∈ sortedFuncs → g ∈ sortedFuncs → f ≠ g →
       claims lines f i → claims lines g i → index lines i = Some l →
       isEmptyLine l).
Proof.
  intros Hmax Hnodup Hvalid Hdecls sortedFuncs.
  destruct (separate_exact lines testFuncPos Hmax Hnodup Hvalid)
    as (p & Hp & Hmarked & Hsep).
  fold sortedFuncs in Hp, Hmarked, Hsep.
  assert (∀ f, f ∈ sortedFuncs ↔ ∃ e, e ∈ testFuncPos ∧ f = toFuncPos e)
    as Hsorted by (intros f; apply elem_of_createSortedFuncPositions).
  pose proof Hvalid as Hall. rewrite Forall_forall in Hall.
  exists p, (blockAt lines <$> sortedFuncs), (collectNonTestLines lines p).
  split; [done|]. split; [done|].
  split; [apply collectNonTestLines_spec|].
  split.
  { apply Forall2_fmap_r, Forall_Forall2_diag, Forall_forall.
    intros f _. done. }
  split.
  { intros f i (e & He & ->)%Hsorted Hi.
    destruct (block_range lines e Hmax (Hall e He))
      as ((_ & _ & _ & Hend) & _ & Hr & _).
    unfold inBlock in Hi. split.
    - apply index_is_Some. lia.
    - apply slice_lookup; lia. }
  split.
  { intros i l Hl.
    destruct (decide (i ∈ p)) as [Hin|Hout].
    - right.
      destruct (decide (Exists (λ e : string * (Z * Z),
                  blockStart lines (toFuncPos e) ≤ i ≤ endLine (toFuncPos e))
                  testFuncPos)) as [Hex|Hnone].
      + left. split; [done|].
        apply Exists_exists in Hex as (e & He & Hi).
        exists (toFuncPos e). split; [apply Hsorted; eauto|].
        split; [done|].
        intros g (e' & He' & ->)%Hsorted Hg. f_equal.
        by apply (inBlock_unique lines testFuncPos e' e i).
      + right. split; [done|].
        assert (∀ f, f ∈ sortedFuncs → ¬ inBlock lines f i) as Hno.
        { intros f (e & He & ->)%Hsorted Hi. apply Hnone.
          apply Exists_exists. by exists e. }
        apply Hmarked in Hin as (f & Hf & Hc).
        pose proof Hf as (e & He & ->)%Hsorted.
        destruct (claims_padding lines e i l Hmax (Hall e He) Hl Hc
                    (Hno _ Hf)) as [Hempty Hafter].
        split; [done|]. split; [done|]. by exists (toFuncPos e).
    - left. split; [done|].
      intros f (e & He & ->)%Hsorted Hi. apply Hout, Hmarked.
      exists (toFuncPos e). split; [apply Hsorted; eauto|].
      apply inBlock_claims; [done|by apply Hall|done]. }
  intros f g i l (e & He & ->)%Hsorted (e' & He' & ->)%Hsorted Hne Hc Hc' Hl.
  destruct (decide (TrimSpace l = "")) as [|Hline]; [done|]. exfalso.
  apply Hne. f_equal.
  apply (inBlock_unique lines testFuncPos e e' i); try done.
  - by apply (claims_nonBlank lines e i l Hmax (Hall e He) Hl Hline).
  - by apply (claims_nonBlank lines e' i l Hmax (Hall e' He') Hl Hline).
Qed.

Lemma ownership_of_lines_witness :
  ∃ processed testFuncs nonTestLines,
    markProcessedLines adjacentLines (createSortedFuncPositions adjacentPos)
      = Some processed ∧
    separateTestAndNonTestContent adjacentLines adjacentPos
      = Some (testFuncs, nonTestLines).
Proof.
  destruct (ownership_of_lines adjacentLines adjacentPos)
    as (processed & testFuncs & nonTestLines & Hmark & Hsep & _).
  - unfold len, maxInt. simpl. lia.
  - apply (bool_decide_unpack _). vm_compute. exact I.
  - constructor; [|constructor; [|constructor]];
      unfold validPos, len; simpl; lia.
  - split.
    + intros e e' He He' Hne.
      apply elem_of_cons in He as [->|He]; apply elem_of_cons in He' as [->|He'].
      * done.
      * apply list_elem_of_singleton in He' as ->. left. simpl. lia.
      * apply list_elem_of_singleton in He as ->. right. simpl. lia.
      * apply list_elem_of_singleton in He as ->.
        apply list_elem_of_singleton in He' as ->. done.
    + intros e l He Hl.
      apply elem_of_cons in He as [->|He];
        [|apply list_elem_of_singleton in He as ->];
        vm_compute in Hl; injection Hl as <-; intros Hlead;
        vm_compute in Hlead; discriminate.
  - exists processed, testFuncs, nonTestLines.
    split; [exact Hmark|exact Hsep].
Defined.
